(** * Fileresizerpro: the server-side orchestration core

  A shallow embedding of [server/remove-bg.js] (class [BackgroundRemover])
  and [server/compress-pdf.js] (class [PDFCompressor]).

  Both classes are glue around external capabilities: the [sharp] image
  codec, [axios], [fs.promises], [child_process.exec], [Date.now] and
  [setTimeout].  Those are not reimplemented.  Every call to one of them is
  appended to an event log, and what the call answers is read from an
  environment record whose fields see the log so far; so an external
  service may answer differently each time it is asked.  The JavaScript
  control flow around the calls (try/catch, early return, loops, recursion)
  is written out in a state-and-exception monad.  Where the code returns
  the result of floating-point arithmetic or of [parseInt], the value is an
  IEEE 754 double. *)

From Stdlib Require Import ZArith QArith Lia.
From Stdlib Require SpecFloat.
From stdpp Require Import gmap strings list.

Local Open Scope Z_scope.

(** ** Bytes *)

(** A Node [Buffer]. *)
Definition Buffer : Type := list Byte.byte.

(** [buffer.length] *)
Definition buffer_length (b : Buffer) : Z := Z.of_nat (length b).

(** ** Async functions as a state-and-exception monad *)

(** How the evaluation of an [async] function ends: its promise resolves,
  it rejects, or the evaluation never ends (the loop budget [fuel] of the
  model is used up). *)
Inductive Res (E A : Type) : Type :=
| Ok (a : A)
| Throw (e : E)
| OutOfFuel.
Arguments Ok {E A} a.
Arguments Throw {E A} e.
Arguments OutOfFuel {E A}.

Definition M (W E A : Type) : Type := W -> Res E A * W.

Section Monad.
Context {W E : Type}.

Definition ret {A} (a : A) : M W E A := fun w => (Ok a, w).

Definition bind {A B} (m : M W E A) (k : A -> M W E B) : M W E B :=
  fun w =>
    match m w with
    | (Ok a, w') => k a w'
    | (Throw e, w') => (Throw e, w')
    | (OutOfFuel, w') => (OutOfFuel, w')
    end.

(** [throw new Error(...)] *)
Definition throw {A} (e : E) : M W E A := fun w => (Throw e, w).

(** A loop or recursion that ran out of budget. *)
Definition out_of_fuel {A} : M W E A := fun w => (OutOfFuel, w).

(** [try { body } catch (error) { handler }] *)
Definition try_catch {A} (body : M W E A) (handler : E -> M W E A) : M W E A :=
  fun w =>
    match body w with
    | (Throw e, w') => handler e w'
    | r => r
    end.

(** [promise.catch(() => {})] *)
Definition swallow (m : M W E unit) : M W E unit :=
  try_catch m (fun _ => ret tt).

(** [await Promise.all(tasks)]: the tasks are run under the schedule that
    lets them finish one after the other, and the values are collected by
    position, as [Promise.all] does whatever the completion order. *)
Fixpoint promise_all {A} (tasks : list (M W E A)) : M W E (list A) :=
  match tasks with
  | [] => ret []
  | task :: rest =>
      bind task (fun a => bind (promise_all rest) (fun others => ret (a :: others)))
  end.
End Monad.

Declare Scope js_scope.
Delimit Scope js_scope with js.
Notation "x <- m ;; k" := (bind m (fun x => k))
(at level 100, m at next level, right associativity) : js_scope.
Notation "m ;;; k" := (bind m (fun _ => k))
(at level 100, right associativity) : js_scope.

(** ** Property lookup on an object literal *)

Module Js.

(** What [obj[key]] finds on [Object.prototype] when [obj] is an object
    literal without an own property [key]: one of the built-in methods
    (a function, with its [name]), or, for ["__proto__"], the prototype
    object itself. *)
Inductive Inherited : Type :=
| BuiltinFunction (name : string)
| PrototypeObject.

Definition object_prototype_methods : list string :=
  ["__defineGetter__"; "__defineSetter__"; "hasOwnProperty";
   "__lookupGetter__"; "__lookupSetter__"; "isPrototypeOf";
   "propertyIsEnumerable"; "toString"; "valueOf"; "toLocaleString"]%string.

Definition object_prototype (key : string) : option Inherited :=
  if decide (key = "constructor"%string) then Some (BuiltinFunction "Object")
  else if decide (key = "__proto__"%string) then Some PrototypeObject
  else if decide (key ∈ object_prototype_methods) then Some (BuiltinFunction key)
  else None.

(** The value of [obj[key]]. *)
Inductive Property (A : Type) : Type :=
| Own (a : A)
| FromPrototype (i : Inherited)
| Undefined.
Arguments Own {A} a.
Arguments FromPrototype {A} i.
Arguments Undefined {A}.

Definition get {A} (obj : gmap string A) (key : string) : Property A :=
  match obj !! key with
  | Some a => Own a
  | None =>
      match object_prototype key with
      | Some i => FromPrototype i
      | None => Undefined
      end
  end.

(** [`${value.name}`] for an inherited value: a built-in function has a
    name, the prototype object has none. *)
Definition inherited_name (i : Inherited) : string :=
  match i with
  | BuiltinFunction name => name
  | PrototypeObject => "undefined"
  end.

(** Truthiness of a value that is [undefined] or a string. *)
Definition truthy (v : option string) : bool :=
  match v with
  | Some s => negb (String.eqb s "")
  | None => false
  end.

(** [array.slice(start, end)] for integer arguments. *)
Definition relative_index (len k : Z) : Z :=
  if k <? 0 then Z.max (len + k) 0 else Z.min k len.

Definition slice {A} (l : list A) (start final : Z) : list A :=
  let len := Z.of_nat (length l) in
  let from := relative_index len start in
  let to := relative_index len final in
  take (Z.to_nat (to - from)) (drop (Z.to_nat from) l).

(** [array.map((x, index) => f(x, index))] *)
Definition map_indexed {A B} (f : A -> Z -> B) (l : list A) : list B :=
  imap (fun index x => f x (Z.of_nat index)) l.

End Js.

(** ** Numbers

A JavaScript Number is an IEEE 754 double: [SpecFloat.spec_float] with a
mantissa of 53 bits and infinities at exponent 1024. *)

Module Double.
Import SpecFloat.

Definition double : Type := spec_float.

(** The Number value of an integer: the double nearest to it, ties to
    even; an infinity beyond the largest double. *)
Definition of_Z (z : Z) : double := binary_normalize 53 1024 z 0 false.

(** [x * y] *)
Definition mul (x y : double) : double := SFmul 53 1024 x y.

(** [x / y] *)
Definition div (x y : double) : double := SFdiv 53 1024 x y.

Definition zero : double := S754_zero false.
Definition one : double := S754_finite false 4503599627370496 (-52).

(** [x < y] and [x <= y]; both are false when an operand is NaN. *)
Definition ltb (x y : double) : bool := SFltb x y.
Definition leb (x y : double) : bool := SFleb x y.

(** Truthiness of a Number: NaN, [0] and [-0] are falsy. *)
Definition truthy (x : double) : bool :=
  match x with
  | S754_nan | S754_zero _ => false
  | _ => true
  end.

#[global] Arguments of_Z : simpl never.
#[global] Arguments mul : simpl never.
#[global] Arguments div : simpl never.
#[global] Arguments ltb : simpl never.
#[global] Arguments leb : simpl never.
#[global] Arguments truthy : simpl never.

End Double.

(** ** server/remove-bg.js *)

Module RemoveBg.
Import Js.

(** *** The provider catalogue *)

Record Service : Type := {
  name : string;
  url : string;
  apiKey : option string;
  costPerImage : Q
}.

Record LocalModel : Type := {
  model_name : string;
  description : string;
  github : string;
  size : string
}.

(** The [apiKeys] argument of the constructor; a key that was not given is
    [undefined]. *)
Record ApiKeys : Type := {
  key_removebg : option string;
  key_backgrounds : option string;
  key_clipdrop : option string
}.

(** [this.services] *)
Definition services (apiKeys : ApiKeys) : gmap string Service :=
  <["removebg"%string :=
      {| name := "Remove.bg";
         url := "https://api.remove.bg/v1.0/removebg";
         apiKey := key_removebg apiKeys;
         costPerImage := 2 # 100 |}]>
  (<["backgrounds"%string :=
      {| name := "BackgroundRemover.ai";
         url := "https://api.backgroundremover.ai/v1/remove";
         apiKey := key_backgrounds apiKeys;
         costPerImage := 3 # 100 |}]>
  (<["clipdrop"%string :=
      {| name := "Clipdrop by Stability AI";
         url := "https://clipdrop-api.co/remove-background/v1";
         apiKey := key_clipdrop apiKeys;
         costPerImage := 10 # 100 |}]> ∅)).

(** [this.localModels] *)
Definition localModels : gmap string LocalModel :=
  <["u2net"%string :=
      {| model_name := "U^2-Net";
         description := "State-of-the-art saliency object detection";
         github := "https://github.com/xuebinqin/U-2-Net";
         size := "176MB" |}]>
  (<["rembg"%string :=
      {| model_name := "Rembg";
         description := "Python library with multiple models";
         github := "https://github.com/danielgatis/rembg";
         size := "Various" |}]>
  (<["modnet"%string :=
      {| model_name := "MODNet";
         description := "Real-time portrait matting";
         github := "https://github.com/ZHKKKe/MODNet";
         size := "24MB" |}]> ∅)).

(** *** The image codec, as the code drives it *)

Inductive Blend : Type := DestIn | Over.
Inductive Fit : Type := Cover.

(** One entry of the array given to [.composite([...])]. *)
Record Overlay : Type := {
  input : Buffer;
  raw : option (Z * Z * Z);     (* width, height, channels *)
  tile : bool;
  blend : Blend
}.

Inductive SharpSource : Type :=
| FromBuffer (b : Buffer)
| Create (width height channels : Z) (r g b alpha : Z).

Inductive SharpOp : Type :=
| EnsureAlpha
| Threshold (level : Z)
| Resize (width height : Z) (fit : Fit)
| Composite (overlays : list Overlay)
| Png
| Jpeg (quality : Z).

(** A [sharp(...)] instance: its source and the operations chained on it
    so far.  The chaining methods mutate the instance and return it, which
    is why calling [.resize] without keeping the result still takes
    effect; [chain] is that mutation. *)
Record Pipeline : Type := {
  source : SharpSource;
  ops : list SharpOp
}.

Definition sharp (b : Buffer) : Pipeline := {| source := FromBuffer b; ops := [] |}.
Definition chain (p : Pipeline) (op : SharpOp) : Pipeline :=
  {| source := source p; ops := ops p ++ [op] |}.

Record Metadata : Type := { width : Z; height : Z }.

(** *** The HTTP client *)

Record HttpRequest : Type := {
  req_url : string;
  x_api_key : string;
  image_file : Buffer;
  fields : list (string * string)    (* the optional form fields, in order *)
}.

Record HttpResponse : Type := {
  data : Buffer;
  content_type : option string       (* response.headers['content-type'] *)
}.

(** The error [axios.post] rejects with. *)
Record AxiosError : Type := {
  status : option Z;                 (* error.response?.status *)
  message : string
}.

(** *** Errors

    A JavaScript [Error] thrown by this file is identified by its throw
    site and the values interpolated in its message; [error.message] is a
    function of these. *)
Inductive JsError : Type :=
| ServiceNotConfigured (serviceName : string)
| ApiKeyRequired (name : string)
| PaymentRequired (name : string)
| RateLimitExceeded (name : string)
| ServiceFailed (name : string) (message : string)
| LocalModelNotAvailable (modelName : string)
| FileTooLarge (maxFileSize : Z)
| AllServicesFailed
| SharpError (message : string)
| BackgroundReplacementFailed (cause : JsError).

(** *** Observable effects *)

Inductive Event : Type :=
| EvPost (request : HttpRequest)                       (* axios.post *)
| EvMetadata (b : Buffer)                              (* sharp(b).metadata() *)
| EvToBuffer (p : Pipeline)                            (* p.toBuffer() *)
| EvSetTimeout (ms : Z)
| EvConsoleError (name : string) (error : AxiosError)
| EvConsoleWarn (serviceName : string) (error : JsError).

(** The log, most recent event first. *)
Definition Log : Type := list Event.

(** What the outside world answers, given everything that happened so far. *)
Record Env : Type := {
  axios_post : Log -> HttpRequest -> AxiosError + HttpResponse;
  sharp_metadata : Log -> Buffer -> string + Metadata;
  sharp_toBuffer : Log -> Pipeline -> string + Buffer
}.

(** *** Options

The [options] object.  A field that has a default in a destructuring
pattern is [None] when the caller left it out. *)
Record Options : Type := {
  opt_size : option string;
  opt_type : option string;
  opt_format : option string;
  opt_bg_color : option string;
  opt_priority : option (list string);
  opt_fallbackToLocal : option bool;
  opt_maxFileSize : option Z;
  opt_concurrent : option Z
}.

(** [options = {}] *)
Definition no_options : Options :=
  {| opt_size := None; opt_type := None; opt_format := None;
     opt_bg_color := None; opt_priority := None;
     opt_fallbackToLocal := None; opt_maxFileSize := None;
     opt_concurrent := None |}.

Definition priority (options : Options) : list string :=
  default ["local"; "removebg"; "backgrounds"; "clipdrop"]%string (opt_priority options).
Definition fallbackToLocal (options : Options) : bool :=
  default true (opt_fallbackToLocal options).
Definition maxFileSize (options : Options) : Z :=
  default (10 * 1024 * 1024) (opt_maxFileSize options).
Definition concurrent (options : Options) : Z :=
  default 3 (opt_concurrent options).

(** *** Results *)

Record RemovalResult : Type := {
  success : bool;
  service : string;
  buffer : Buffer;
  contentType : string;
  cost : Q;
  note : option string
}.

Record ReplaceResult : Type := {
  rep_success : bool;
  rep_buffer : Buffer;
  rep_contentType : string;
  rep_dimensions : Z * Z              (* `${width}x${height}` *)
}.

(** One element of [results] in [batchRemoveBackground]:
    [{ success: true, result, index }] or
    [{ success: false, error: error.message, index }]. *)
Inductive BatchItem : Type :=
| ItemOk (result : RemovalResult) (index : Z)
| ItemFailed (error : JsError) (index : Z).

Definition item_success (r : BatchItem) : bool :=
  match r with ItemOk _ _ => true | ItemFailed _ _ => false end.
Definition item_index (r : BatchItem) : Z :=
  match r with ItemOk _ index | ItemFailed _ index => index end.

Record BatchOutcome : Type := {
  total : Z;
  successful : Z;
  failed : Z;
  results : list BatchItem;
  estimatedCost : Double.double
}.

(** The literal [0.02] of [batchRemoveBackground]: the double nearest to
    2/100, which is 0x1.47ae147ae147bp-6. *)
Definition two_cents : Double.double :=
  SpecFloat.S754_finite false 5764607523034235 (-58).

(** *** The methods of [BackgroundRemover] *)

Section Methods.
Variable env : Env.
Variable apiKeys : ApiKeys.

Local Abbreviation Async := (M Log JsError).
Local Open Scope js_scope.

(** The external calls: each is logged, and answers what [env] says. *)
Definition post (request : HttpRequest) : Async (AxiosError + HttpResponse) :=
  fun log => (Ok (axios_post env log request), EvPost request :: log).

Definition metadata (b : Buffer) : Async Metadata :=
  fun log =>
    match sharp_metadata env log b with
    | inr m => (Ok m, EvMetadata b :: log)
    | inl msg => (Throw (SharpError msg), EvMetadata b :: log)
    end.

Definition toBuffer (p : Pipeline) : Async Buffer :=
  fun log =>
    match sharp_toBuffer env log p with
    | inr b => (Ok b, EvToBuffer p :: log)
    | inl msg => (Throw (SharpError msg), EvToBuffer p :: log)
    end.

Definition setTimeout (ms : Z) : Async unit :=
  fun log => (Ok tt, EvSetTimeout ms :: log).

Definition console_error (name : string) (error : AxiosError) : Async unit :=
  fun log => (Ok tt, EvConsoleError name error :: log).

Definition console_warn (serviceName : string) (error : JsError) : Async unit :=
  fun log => (Ok tt, EvConsoleWarn serviceName error :: log).

(** [if (options.x) formData.append('x', options.x)] *)
Definition optional_field (key : string) (value : option string) : list (string * string) :=
  match value with
  | Some v => if truthy value then [(key, v)] else []
  | None => []
  end.

Definition removeWithService (serviceName : string) (imageBuffer : Buffer)
    (options : Options) : Async RemovalResult :=
  match Js.get (services apiKeys) serviceName with
  | Undefined => throw (ServiceNotConfigured serviceName)
  | FromPrototype i =>
      (* a truthy value without an [apiKey] property *)
      throw (ApiKeyRequired (inherited_name i))
  | Own service =>
      match apiKey service with
      | Some key =>
          if truthy (Some key) then
            let request :=
              {| req_url := url service;
                 x_api_key := key;
                 image_file := imageBuffer;
                 fields := optional_field "size" (opt_size options)
                           ++ optional_field "type" (opt_type options)
                           ++ optional_field "format" (opt_format options)
                           ++ optional_field "bg_color" (opt_bg_color options) |} in
            answer <- post request ;;
            match answer with
            | inr response =>
                ret {| success := true;
                       service := name service;
                       buffer := data response;
                       contentType :=
                         if truthy (content_type response)
                         then default "image/png"%string (content_type response)
                         else "image/png"%string;
                       cost := costPerImage service;
                       note := None |}
            | inl error =>
                console_error (name service) error ;;;
                if decide (status error = Some 402) then
                  throw (PaymentRequired (name service))
                else if decide (status error = Some 429) then
                  throw (RateLimitExceeded (name service))
                else throw (ServiceFailed (name service) (message error))
            end
          else throw (ApiKeyRequired (name service))
      | None => throw (ApiKeyRequired (name service))
      end
  end.

Definition removeWithLocalModel (modelName : string) (imageBuffer : Buffer)
    (options : Options) : Async RemovalResult :=
  match Js.get localModels modelName with
  | Undefined => throw (LocalModelNotAvailable modelName)
  | found =>
      let model_display_name :=
        match found with
        | Own model => model_name model
        | FromPrototype i => inherited_name i
        | Undefined => "undefined"%string
        end in
      setTimeout 2000 ;;;
      meta <- metadata imageBuffer ;;
      maskBuffer <-
        toBuffer
          (chain
             (chain {| source := Create (width meta) (height meta) 4 0 0 0 0; ops := [] |}
                (Composite [ {| input := [Byte.xff; Byte.xff; Byte.xff; Byte.xff];
                                raw := Some (1, 1, 4);
                                tile := true;
                                blend := DestIn |} ]))
             Png) ;;
      resultBuffer <-
        toBuffer
          (chain
             (chain
                (chain (sharp imageBuffer) EnsureAlpha)
                (Composite [ {| input := maskBuffer; raw := None;
                                tile := false; blend := DestIn |} ]))
             Png) ;;
      ret {| success := true;
             service := String.append "Local: " model_display_name;
             buffer := resultBuffer;
             contentType := "image/png";
             cost := 0;
             note := Some "This is a demo. Install proper model for accurate results."%string |}
  end.

Definition createBasicTransparency (imageBuffer : Buffer) : Async RemovalResult :=
  meta <- metadata imageBuffer ;;
  resultBuffer <-
    toBuffer (chain (chain (chain (sharp imageBuffer) EnsureAlpha) (Threshold 240)) Png) ;;
  ret {| success := true;
         service := "Basic Transparency";
         buffer := resultBuffer;
         contentType := "image/png";
         cost := 0;
         note := Some "Basic threshold-based transparency applied"%string |}.

(** The body of the [try] inside the [for...of] loop: [Some result] stands
    for [return result], [None] for falling out of the [if] chain. *)
Definition try_provider (serviceName : string) (imageBuffer : Buffer)
    (options : Options) : Async (option RemovalResult) :=
  if decide (serviceName = "local"%string) then
    result <- removeWithLocalModel "u2net" imageBuffer options ;;
    ret (Some result)
  else
    match Js.get (services apiKeys) serviceName with
    | Undefined => ret None
    | _ =>
        result <- removeWithService serviceName imageBuffer options ;;
        ret (Some result)
    end.

(** [for (const serviceName of priority) { try {...} catch (error) {...} }] *)
Fixpoint try_in_order (names : list string) (imageBuffer : Buffer)
    (options : Options) : Async (option RemovalResult) :=
  match names with
  | [] => ret None
  | serviceName :: rest =>
      attempt <-
        try_catch (try_provider serviceName imageBuffer options)
          (fun error => console_warn serviceName error ;;; ret None) ;;
      match attempt with
      | Some result => ret (Some result)
      | None => try_in_order rest imageBuffer options
      end
  end.

Definition autoRemoveBackground (imageBuffer : Buffer) (options : Options)
    : Async RemovalResult :=
  if maxFileSize options <? buffer_length imageBuffer then
    throw (FileTooLarge (maxFileSize options))
  else
    found <- try_in_order (priority options) imageBuffer options ;;
    match found with
    | Some result => ret result
    | None =>
        if fallbackToLocal options then createBasicTransparency imageBuffer
        else throw AllServicesFailed
    end.

Definition replaceBackground (imageBuffer backgroundBuffer : Buffer)
    (options : Options) : Async ReplaceResult :=
  try_catch
    (foreground <- autoRemoveBackground imageBuffer options ;;
     let foregroundImage := sharp (buffer foreground) in
     let backgroundImage := sharp backgroundBuffer in
     fgMetadata <- metadata (buffer foreground) ;;
     bgMetadata <- metadata backgroundBuffer ;;
     let backgroundImage :=
       if bool_decide (width fgMetadata <> width bgMetadata)
          || bool_decide (height fgMetadata <> height bgMetadata)
       then chain backgroundImage (Resize (width fgMetadata) (height fgMetadata) Cover)
       else backgroundImage in
     foregroundBuffer <- toBuffer foregroundImage ;;
     resultBuffer <-
       toBuffer
         (chain
            (chain backgroundImage
               (Composite [ {| input := foregroundBuffer; raw := None;
                               tile := false; blend := Over |} ]))
            (Jpeg 90)) ;;
     ret {| rep_success := true;
            rep_buffer := resultBuffer;
            rep_contentType := "image/jpeg";
            rep_dimensions := (width fgMetadata, height fgMetadata) |})
    (fun error => throw (BackgroundReplacementFailed error)).

(** [promise.then(result => ({success: true, result, index}))
           .catch(error => ({success: false, error: error.message, index}))] *)
Definition settle (task : Async RemovalResult) (index : Z) : Async BatchItem :=
  try_catch (result <- task ;; ret (ItemOk result index))
    (fun error => ret (ItemFailed error index)).

(** The [for (let i = 0; i < imageBuffers.length; i += concurrent)] loop;
    [fuel] bounds the number of times the loop test is evaluated. *)
Fixpoint batch_loop (fuel : nat) (imageBuffers : list Buffer) (options : Options)
    (i : Z) (results : list BatchItem) : Async (list BatchItem) :=
  match fuel with
  | O => out_of_fuel
  | S fuel' =>
      if i <? Z.of_nat (length imageBuffers) then
        let batch := slice imageBuffers i (i + concurrent options) in
        let batchPromises :=
          map_indexed
            (fun buffer index => settle (autoRemoveBackground buffer options) (i + index))
            batch in
        batchResults <- promise_all batchPromises ;;
        let results := results ++ batchResults in
        (if i + concurrent options <? Z.of_nat (length imageBuffers)
         then setTimeout 1000 else ret tt) ;;;
        batch_loop fuel' imageBuffers options (i + concurrent options) results
      else ret results
  end.

Definition batchRemoveBackground (fuel : nat) (imageBuffers : list Buffer)
    (options : Options) : Async BatchOutcome :=
  results <- batch_loop fuel imageBuffers options 0 [] ;;
  let successful := filter (fun r => item_success r = true) results in
  let failed := filter (fun r => item_success r <> true) results in
  ret {| total := Z.of_nat (length results);
         successful := Z.of_nat (length successful);
         failed := Z.of_nat (length failed);
         results := results;
         estimatedCost := Double.mul (Double.of_Z (Z.of_nat (length successful))) two_cents |}.

End Methods.

(** *** Vocabulary of the statements *)

(** The [service] field a result carries when provider [p] of the priority
    order produced it. *)
Definition provider_label (apiKeys : ApiKeys) (p : string) : option string :=
  if decide (p = "local"%string) then Some "Local: U^2-Net"%string
  else name <$> services apiKeys !! p.

(** The pipeline [replaceBackground] encodes, from the answers of the codec. *)
Definition composite_pipeline (fgMetadata bgMetadata : Metadata)
    (backgroundBuffer foregroundBuffer : Buffer) : Pipeline :=
  {| source := FromBuffer backgroundBuffer;
     ops := (if bool_decide (width fgMetadata = width bgMetadata
                             /\ height fgMetadata = height bgMetadata)
             then [] else [Resize (width fgMetadata) (height fgMetadata) Cover])
            ++ [Composite [ {| input := foregroundBuffer; raw := None;
                               tile := false; blend := Over |} ];
                Jpeg 90] |}.

(** The requests sent to a given URL, out of a log. *)
Definition posts_to (target : string) (log : Log) : list HttpRequest :=
  omap (fun e => match e with
                 | EvPost request =>
                     if decide (req_url request = target) then Some request else None
                 | _ => None
                 end) log.

(** *** Sample environments *)

Definition png_stub : Buffer := [Byte.x89; Byte.x50; Byte.x4e; Byte.x47].

Definition rate_limited : AxiosError :=
  {| status := Some 429; message := "Request failed with status code 429" |}.

(** No image decodes and every remote call is rate limited. *)
Definition env_nothing_works : Env :=
  {| axios_post := fun _ _ => inl rate_limited;
     sharp_metadata := fun _ _ => inl "Input buffer contains unsupported image format"%string;
     sharp_toBuffer := fun _ _ => inl "Input buffer contains unsupported image format"%string |}.

(** The codec works (every image is 4 by 3); remote calls are rate limited. *)
Definition env_codec_works : Env :=
  {| axios_post := fun _ _ => inl rate_limited;
     sharp_metadata := fun _ _ => inr {| width := 4; height := 3 |};
     sharp_toBuffer := fun _ _ => inr png_stub |}.

(** Remove.bg is rate limited, the two other services answer; no image
    decodes locally. *)
Definition env_second_answers : Env :=
  {| axios_post := fun _ request =>
       if decide (req_url request = "https://api.remove.bg/v1.0/removebg"%string)
       then inl rate_limited
       else inr {| data := png_stub; content_type := Some "image/png"%string |};
     sharp_metadata := fun _ _ => inl "Input buffer contains unsupported image format"%string;
     sharp_toBuffer := fun _ _ => inl "Input buffer contains unsupported image format"%string |}.

(** Images decode and can be thresholded, but a blank canvas cannot be
    created (so the local model fails); remote calls are rate limited. *)
Definition env_only_fallback_works : Env :=
  {| axios_post := fun _ _ => inl rate_limited;
     sharp_metadata := fun _ _ => inr {| width := 4; height := 3 |};
     sharp_toBuffer := fun _ p =>
       match source p with
       | FromBuffer _ => inr png_stub
       | Create _ _ _ _ _ _ _ => inl "Cannot create image"%string
       end |}.

(** The codec works and reports the length of a buffer as the width of
    the image; remote calls are rate limited. *)
Definition env_codec_measures : Env :=
  {| axios_post := fun _ _ => inl rate_limited;
     sharp_metadata := fun _ b => inr {| width := buffer_length b; height := 1 |};
     sharp_toBuffer := fun _ _ => inr png_stub |}.

Definition no_keys : ApiKeys :=
  {| key_removebg := None; key_backgrounds := None; key_clipdrop := None |}.

Definition all_keys : ApiKeys :=
  {| key_removebg := Some "key-a"%string;
     key_backgrounds := Some "key-b"%string;
     key_clipdrop := Some "key-c"%string |}.

Definition with_priority (names : list string) (fallback : bool) : Options :=
  {| opt_size := None; opt_type := None; opt_format := None;
     opt_bg_color := None; opt_priority := Some names;
     opt_fallbackToLocal := Some fallback; opt_maxFileSize := None;
     opt_concurrent := None |}.

Definition with_concurrent (c : Z) : Options :=
  {| opt_size := None; opt_type := None; opt_format := None;
     opt_bg_color := None; opt_priority := None;
     opt_fallbackToLocal := None; opt_maxFileSize := None;
     opt_concurrent := Some c |}.

Definition with_maxFileSize (m : Z) : Options :=
  {| opt_size := None; opt_type := None; opt_format := None;
     opt_bg_color := None; opt_priority := None;
     opt_fallbackToLocal := None; opt_maxFileSize := Some m;
     opt_concurrent := None |}.

Definition with_format (f : string) : Options :=
  {| opt_size := None; opt_type := None; opt_format := Some f;
     opt_bg_color := None; opt_priority := None;
     opt_fallbackToLocal := None; opt_maxFileSize := None;
     opt_concurrent := None |}.

End RemoveBg.

(** ** server/compress-pdf.js *)

Module CompressPdf.
Import Js.

(** *** Temporary files

[compress] names its two files [input_<timestamp>.pdf] and
[compressed_<timestamp>.pdf] under [tempDir].  A path
[path.join(tempDir, name)] is kept as its three components, so that two
paths are equal exactly when directory, prefix and timestamp are. *)
Inductive FileKind : Type := InputPdf | CompressedPdf.

#[global] Instance FileKind_eq_dec : EqDecision FileKind.
Proof. solve_decision. Defined.

#[global] Instance FileKind_countable : Countable FileKind.
Proof.
  refine (inj_countable' (fun k => match k with InputPdf => true | CompressedPdf => false end)
            (fun b : bool => if b then InputPdf else CompressedPdf) _).
  intros []; reflexivity.
Defined.

Record Path : Type := { dir : string; kind : FileKind; stamp : Z }.

#[global] Instance Path_eq_dec : EqDecision Path.
Proof. solve_decision. Defined.

#[global] Instance Path_countable : Countable Path.
Proof.
  refine (inj_countable' (fun p => (dir p, kind p, stamp p))
            (fun t => match t with (d, k, s) => {| dir := d; kind := k; stamp := s |} end) _).
  intros []; reflexivity.
Defined.

(** The file system: the files present in the temp directories. *)
Abbreviation Files := (gmap Path Buffer).

(** *** External tools *)

Inductive Command : Type :=
| Gs (qualitySetting : string) (dpi : Z) (outputPath inputPath : Path)
| Qpdf (inputPath outputPath : Path) (linearize removeUnused compressStreams : bool).

(** What running a command did: whether [exec] rejected (with a message),
    and what the tool left in its output file, if it wrote one. *)
Record ExecOutcome : Type := {
  exec_error : option string;
  written : option Buffer
}.

(** *** Errors *)

(** An [fs] failure other than [ENOENT]. *)
Inductive Fault : Type := EACCES | EPERM | EBUSY | EIO | ENOSPC.

(** [error.code] *)
Inductive ErrCode : Type := ENOENT | Failure (f : Fault).

Inductive JsError : Type :=
| FsError (code : ErrCode)
| ExecError (message : string)
| GhostscriptFailed (cause : JsError)
| QpdfFailed (cause : JsError)
| UnsupportedMethod (method : string).

(** *** Observable effects *)

Inductive FsOp : Type :=
| OpMkdir (tempDir : string)
| OpWriteFile (p : Path)
| OpStat (p : Path)
| OpReadFile (p : Path)
| OpUnlink (p : Path).

Inductive Event : Type :=
| EvFs (op : FsOp)
| EvNow (timestamp : Z)                       (* Date.now() *)
| EvExec (command : Command)
| EvConsoleLog (compressedSize : Z)
| EvConsoleWarn (p : Path) (error : JsError).

Definition Log : Type := list Event.

Record World : Type := { files : Files; log : Log }.

(** The outside world.  [fs_fault] says whether an [fs] call fails for a
    reason of its own (permissions, busy file, ...); a call that does not
    acts on [files].  A tool writes nothing but its own output file. *)
Record Env : Type := {
  date_now : Log -> Z;
  fs_fault : Log -> FsOp -> option Fault;
  exec : Log -> Files -> Command -> ExecOutcome
}.

(** *** Options and results *)

Record Options : Type := {
  opt_method : option string;
  opt_quality : option string;
  opt_maxSizeMB : option Q;
  opt_tempDir : option string;
  opt_linearize : option bool;
  opt_removeUnused : option bool;
  opt_compressStreams : option bool
}.

Definition no_options : Options :=
  {| opt_method := None; opt_quality := None; opt_maxSizeMB := None;
     opt_tempDir := None; opt_linearize := None; opt_removeUnused := None;
     opt_compressStreams := None |}.

Definition method (options : Options) : string := default "ghostscript"%string (opt_method options).
Definition quality (options : Options) : string := default "ebook"%string (opt_quality options).
Definition maxSizeMB (options : Options) : Q := default 5%Q (opt_maxSizeMB options).
Definition tempDir (options : Options) : string := default "./temp"%string (opt_tempDir options).

(** [{ ...options, quality: q }] *)
Definition with_quality (q : string) (options : Options) : Options :=
  {| opt_method := opt_method options;
     opt_quality := Some q;
     opt_maxSizeMB := opt_maxSizeMB options;
     opt_tempDir := opt_tempDir options;
     opt_linearize := opt_linearize options;
     opt_removeUnused := opt_removeUnused options;
     opt_compressStreams := opt_compressStreams options |}.

(** [{ success: true, size: stats.size }] *)
Record ToolResult : Type := { tool_success : bool; tool_size : Z }.

Record CompressResult : Type := {
  success : bool;
  originalSize : Z;
  compressedSize : Z;
  reduction : option Q;     (* the percentage before [toFixed(2)]; none when [originalSize] is 0 *)
  buffer : Buffer;
  methodUsed : string
}.

(** [String.prototype.toLowerCase] on the ASCII letters, which is all the
    [switch] on the method can tell apart. *)
Definition lower_ascii (c : Ascii.ascii) : Ascii.ascii :=
  let n := Ascii.N_of_ascii c in
  if ((65 <=? n) && (n <=? 90))%N then Ascii.ascii_of_N (n + 32) else c.

Fixpoint toLowerCase (s : string) : string :=
  match s with
  | EmptyString => EmptyString
  | String c rest => String (lower_ascii c) (toLowerCase rest)
  end.

(** [compressedSize > maxSizeMB * 1024 * 1024] *)
Definition exceeds (compressedSize : Z) (maxSizeMB : Q) : bool :=
  negb (Qle_bool (inject_Z compressedSize) (maxSizeMB * 1024 * 1024)).

(** *** The methods of [PDFCompressor] *)

Section Methods.
Variable env : Env.

Local Abbreviation Async := (M World JsError).
Local Open Scope js_scope.

Definition emit (e : Event) (w : World) : World :=
  {| files := files w; log := e :: log w |}.

(** An [fs] call: logged; rejects when the environment says so, and
    otherwise does [action] on the files. *)
Definition fs_call {A} (op : FsOp) (action : Files -> ErrCode + (A * Files)) : Async A :=
  fun w =>
    match fs_fault env (log w) op with
    | Some f => (Throw (FsError (Failure f)), emit (EvFs op) w)
    | None =>
        match action (files w) with
        | inl code => (Throw (FsError code), emit (EvFs op) w)
        | inr (a, files') => (Ok a, {| files := files'; log := EvFs op :: log w |})
        end
    end.

Definition mkdir (tempDir : string) : Async unit :=
  fs_call (OpMkdir tempDir) (fun fs => inr (tt, fs)).

Definition writeFile (p : Path) (content : Buffer) : Async unit :=
  fs_call (OpWriteFile p) (fun fs => inr (tt, <[p := content]> fs)).

(** [(await fs.stat(p)).size] *)
Definition stat_size (p : Path) : Async Z :=
  fs_call (OpStat p)
    (fun fs => match fs !! p with
               | Some content => inr (buffer_length content, fs)
               | None => inl ENOENT
               end).

Definition readFile (p : Path) : Async Buffer :=
  fs_call (OpReadFile p)
    (fun fs => match fs !! p with
               | Some content => inr (content, fs)
               | None => inl ENOENT
               end).

Definition unlink (p : Path) : Async unit :=
  fs_call (OpUnlink p)
    (fun fs => match fs !! p with
               | Some _ => inr (tt, delete p fs)
               | None => inl ENOENT
               end).

Definition now : Async Z :=
  fun w => let t := date_now env (log w) in (Ok t, emit (EvNow t) w).

Definition console_log (compressedSize : Z) : Async unit :=
  fun w => (Ok tt, emit (EvConsoleLog compressedSize) w).

Definition console_warn (p : Path) (error : JsError) : Async unit :=
  fun w => (Ok tt, emit (EvConsoleWarn p error) w).

Definition command_output (c : Command) : Path :=
  match c with
  | Gs _ _ outputPath _ => outputPath
  | Qpdf _ outputPath _ _ _ => outputPath
  end.

(** [await execPromise(command)] *)
Definition execPromise (c : Command) : Async unit :=
  fun w =>
    let outcome := exec env (log w) (files w) c in
    let files' :=
      match written outcome with
      | Some content => <[command_output c := content]> (files w)
      | None => files w
      end in
    let w' := {| files := files'; log := EvExec c :: log w |} in
    match exec_error outcome with
    | Some msg => (Throw (ExecError msg), w')
    | None => (Ok tt, w')
    end.

Definition qualityMap : gmap string string :=
  <["screen"%string := "/screen"%string]>
  (<["ebook"%string := "/ebook"%string]>
  (<["printer"%string := "/printer"%string]>
  (<["prepress"%string := "/prepress"%string]>
  (<["default"%string := "/default"%string]> ∅)))).

(** [qualityMap[quality] || '/ebook'], as it is interpolated in the
    command line. *)
Definition qualitySetting (quality : string) : string :=
  match Js.get qualityMap quality with
  | Own setting => setting
  | FromPrototype (BuiltinFunction name) =>
      String.append "function " (String.append name "() { [native code] }")
  | FromPrototype PrototypeObject => "[object Object]"
  | Undefined => "/ebook"
  end.

Definition compressWithGhostscript (inputPath outputPath : Path) (quality : string)
    : Async ToolResult :=
  let dpi := if decide (quality = "screen"%string) then 72 else 150 in
  let command := Gs (qualitySetting quality) dpi outputPath inputPath in
  try_catch
    (execPromise command ;;;
     size <- stat_size outputPath ;;
     ret {| tool_success := true; tool_size := size |})
    (fun error => throw (GhostscriptFailed error)).

Definition compressWithQPdf (inputPath outputPath : Path) (options : Options)
    : Async ToolResult :=
  let command :=
    Qpdf inputPath outputPath
      (default true (opt_linearize options))
      (default true (opt_removeUnused options))
      (default true (opt_compressStreams options)) in
  try_catch
    (execPromise command ;;;
     size <- stat_size outputPath ;;
     ret {| tool_success := true; tool_size := size |})
    (fun error => throw (QpdfFailed error)).

(** The callback mapped over [filePaths] in [cleanupFiles]. *)
Definition cleanup_one (filePath : Path) : Async unit :=
  try_catch (unlink filePath)
    (fun error =>
       match error with
       | FsError ENOENT => ret tt
       | _ => console_warn filePath error
       end).

Definition cleanupFiles (filePaths : list Path) : Async unit :=
  promise_all (map cleanup_one filePaths) ;;; ret tt.

Fixpoint compress (fuel : nat) (inputBuffer : Buffer) (options : Options)
    : Async CompressResult :=
  match fuel with
  | O => out_of_fuel
  | S fuel' =>
      mkdir (tempDir options) ;;;
      timestamp <- now ;;
      let inputPath := {| dir := tempDir options; kind := InputPdf; stamp := timestamp |} in
      let outputPath := {| dir := tempDir options; kind := CompressedPdf; stamp := timestamp |} in
      try_catch
        (writeFile inputPath inputBuffer ;;;
         result <-
           (let m := toLowerCase (method options) in
            if decide (m = "ghostscript"%string) then
              compressWithGhostscript inputPath outputPath (quality options)
            else if decide (m = "qpdf"%string) then
              compressWithQPdf inputPath outputPath options
            else throw (UnsupportedMethod (method options))) ;;
         compressedBuffer <- readFile outputPath ;;
         cleanupFiles [inputPath; outputPath] ;;;
         let originalSize := buffer_length inputBuffer in
         let compressedSize := buffer_length compressedBuffer in
         if exceeds compressedSize (maxSizeMB options)
            && negb (bool_decide (quality options = "screen"%string))
         then
           console_log compressedSize ;;;
           compress fuel' inputBuffer (with_quality "screen" options)
         else
           ret {| success := true;
                  originalSize := originalSize;
                  compressedSize := compressedSize;
                  reduction :=
                    if decide (originalSize = 0) then None
                    else Some ((inject_Z (originalSize - compressedSize)
                                / inject_Z originalSize * 100)%Q);
                  buffer := compressedBuffer;
                  methodUsed := method options |})
        (fun error =>
           swallow (cleanupFiles [inputPath; outputPath]) ;;;
           throw error)
  end.

(** One attempt, as [compress] makes it before it decides between
    returning and retrying: from [fs.mkdir] to [cleanupFiles], along the
    path on which nothing throws.  The value is the content read back from
    the output file. *)
Definition attempt (inputBuffer : Buffer) (options : Options) : Async Buffer :=
  mkdir (tempDir options) ;;;
  timestamp <- now ;;
  let inputPath := {| dir := tempDir options; kind := InputPdf; stamp := timestamp |} in
  let outputPath := {| dir := tempDir options; kind := CompressedPdf; stamp := timestamp |} in
  writeFile inputPath inputBuffer ;;;
  result <-
    (let m := toLowerCase (method options) in
     if decide (m = "ghostscript"%string) then
       compressWithGhostscript inputPath outputPath (quality options)
     else if decide (m = "qpdf"%string) then
       compressWithQPdf inputPath outputPath options
     else throw (UnsupportedMethod (method options))) ;;
  compressedBuffer <- readFile outputPath ;;
  cleanupFiles [inputPath; outputPath] ;;;
  ret compressedBuffer.

End Methods.

(** *** Vocabulary of the statements *)

(** What a command line asks of the tool, leaving the file names out: for
    Ghostscript the [-dPDFSETTINGS] preset and the resolution, for qpdf its
    flags. *)
Inductive Run : Type :=
| RunGs (qualitySetting : string) (dpi : Z)
| RunQpdf (linearize removeUnused compressStreams : bool).

Definition run_of (c : Command) : Run :=
  match c with
  | Gs setting dpi _ _ => RunGs setting dpi
  | Qpdf _ _ l r s => RunQpdf l r s
  end.

(** The tool runs recorded in a log, oldest first. *)
Definition runs (l : Log) : list Run :=
  omap (fun e => match e with EvExec c => Some (run_of c) | _ => None end) (rev l).

(** The run [compress] asks for at quality [q]. *)
Definition expected_run (options : Options) (q : string) : Run :=
  if decide (toLowerCase (method options) = "ghostscript"%string) then
    RunGs (qualitySetting q) (if decide (q = "screen"%string) then 72 else 150)
  else
    RunQpdf (default true (opt_linearize options))
            (default true (opt_removeUnused options))
            (default true (opt_compressStreams options)).

Definition supported (options : Options) : Prop :=
  toLowerCase (method options) = "ghostscript"%string
  \/ toLowerCase (method options) = "qpdf"%string.

Definition is_unlink (op : FsOp) : bool :=
  match op with OpUnlink _ => true | _ => false end.

(** The file a command reads. *)
Definition command_input (c : Command) : Path :=
  match c with
  | Gs _ _ _ inputPath => inputPath
  | Qpdf inputPath _ _ _ _ => inputPath
  end.

(** A computation that settles and runs no tool. *)
Definition quiet {A} (m : M World JsError A) : Prop :=
  forall w, (m w).1 <> OutOfFuel /\ runs (log (m w).2) = runs (log w).

(** A computation that settles and runs a tool at most once, as [r]: a
    value is only returned after that run; an error may come before it or
    after it. *)
Definition runs_once (r : Run) {A} (m : M World JsError A) : Prop :=
  forall w,
    match m w with
    | (Ok _, w') => runs (log w') = runs (log w) ++ [r]
    | (Throw _, w') =>
        runs (log w') = runs (log w) \/ runs (log w') = runs (log w) ++ [r]
    | (OutOfFuel, _) => False
    end.

(** The temp files named after the timestamps drawn in a stretch of log. *)
Definition generated (tempDir : string) (l : Log) : list Path :=
  l ≫= (fun e => match e with
                 | EvNow t => [ {| dir := tempDir; kind := InputPdf; stamp := t |};
                                {| dir := tempDir; kind := CompressedPdf; stamp := t |} ]
                 | _ => []
                 end).

(** A failed deletion of [p] was reported in a stretch of log. *)
Definition warned (p : Path) (l : Log) : Prop :=
  exists error, EvConsoleWarn p error ∈ l.

(** The same, with its cause: the file system refused to delete [p]. *)
Definition reported (env : Env) (p : Path) (l : Log) : Prop :=
  warned p l /\ exists l0 f, fs_fault env l0 (OpUnlink p) = Some f.

(** *** Bookkeeping relations between worlds *)

(** The events [cleanupFiles] can leave. *)
Definition is_cleanup_event (e : Event) : Prop :=
  match e with
  | EvFs (OpUnlink _) | EvConsoleWarn _ _ => True
  | _ => False
  end.

(** Events that draw no timestamp. *)
Definition not_now (e : Event) : Prop :=
  match e with EvNow _ => False | _ => True end.

(** [w'] comes after [w], no timestamp was drawn in between, and only the
    files listed in [S] may differ. *)
Definition touches (S : list Path) (w w' : World) : Prop :=
  exists new,
    log w' = new ++ log w
    /\ Forall not_now new
    /\ forall q, q ∉ S -> files w' !! q = files w !! q.

(** A computation that settles and stays within [S]. *)
Definition confined (S : list Path) {A} (m : M World JsError A) : Prop :=
  forall w, (m w).1 <> OutOfFuel /\ touches S w (m w).2.

(** Between [w] and [w']: files outside [S] that were not generated in
    between are untouched, and every file generated in between that is not
    in [S] is gone or its failed deletion was reported.  [settled] says the
    same of the files of [S] as well. *)
Definition pending (env : Env) (d : string) (S : list Path) (w w' : World) : Prop :=
  exists new,
    log w' = new ++ log w
    /\ (forall q, q ∉ S -> q ∉ generated d new -> files w' !! q = files w !! q)
    /\ (forall p, p ∉ S -> p ∈ generated d new ->
          files w' !! p = None \/ reported env p new).

Definition settled (env : Env) (d : string) (S : list Path) (w w' : World) : Prop :=
  exists new,
    log w' = new ++ log w
    /\ (forall q, q ∉ S -> q ∉ generated d new -> files w' !! q = files w !! q)
    /\ (forall p, p ∈ S \/ p ∈ generated d new ->
          files w' !! p = None \/ reported env p new).

(** *** Sample environments *)

Definition pdf_stub : Buffer := [Byte.x25; Byte.x50; Byte.x44; Byte.x46].

(** A budget of one byte, in megabytes. *)
Definition one_byte : Q := 1 # 1048576.

(** The clock advances with the log; nothing fails; every tool writes a
    four-byte file. *)
Definition env_tools_work : Env :=
  {| date_now := fun l => Z.of_nat (length l);
     fs_fault := fun _ _ => None;
     exec := fun _ _ _ => {| exec_error := None; written := Some pdf_stub |} |}.

(** As [env_tools_work], but no file can be deleted. *)
Definition env_unlink_denied : Env :=
  {| date_now := fun l => Z.of_nat (length l);
     fs_fault := fun _ op => if is_unlink op then Some EPERM else None;
     exec := fun _ _ _ => {| exec_error := None; written := Some pdf_stub |} |}.

Definition with_budget (q : string) (mb : Q) : Options :=
  {| opt_method := None; opt_quality := Some q; opt_maxSizeMB := Some mb;
     opt_tempDir := None; opt_linearize := None; opt_removeUnused := None;
     opt_compressStreams := None |}.

Definition empty_world : World := {| files := ∅; log := [] |}.

End CompressPdf.

(** ** Further vocabulary for [BackgroundRemover] *)

Module RemoveBgExtra.
Import Js RemoveBg.

(** The requests sent so far, most recent first. *)
Definition posts (log : list Event) : list HttpRequest :=
  omap (fun e => match e with EvPost request => Some request | _ => None end) log.

(** The pauses taken between two groups of a batch. *)
Definition is_pause (e : Event) : bool :=
  match e with EvSetTimeout ms => bool_decide (ms = 1000) | _ => false end.

Definition pauses (log : list Event) : Z :=
  Z.of_nat (length (filter (fun e => is_pause e = true) log)).

(** The console warnings, most recent first. *)
Definition warnings (log : list Event) : list (string * JsError) :=
  omap (fun e => match e with
                 | EvConsoleWarn serviceName error => Some (serviceName, error)
                 | _ => None
                 end) log.

(** A request that goes to service [s] with the key configured for it and
    carries the image [imageBuffer] as it was given. *)
Definition addressed_to (s : Service) (imageBuffer : Buffer) (request : HttpRequest) : Prop :=
  req_url request = url s
  /\ apiKey s = Some (x_api_key request)
  /\ x_api_key request <> ""%string
  /\ image_file request = imageBuffer.

(** No API key was given to the constructor (or only empty ones). *)
Definition no_usable_key (apiKeys : ApiKeys) : Prop :=
  truthy (key_removebg apiKeys) = false
  /\ truthy (key_backgrounds apiKeys) = false
  /\ truthy (key_clipdrop apiKeys) = false.

(** Where a result can come from, with the price charged for it. *)
Definition resolved_by (apiKeys : ApiKeys) (names : list string) (r : RemovalResult) : Prop :=
  (service r = "Local: U^2-Net"%string /\ cost r = 0%Q /\ "local"%string ∈ names)
  \/ (service r = "Basic Transparency"%string /\ cost r = 0%Q)
  \/ (exists serviceName s,
        serviceName ∈ names /\ services apiKeys !! serviceName = Some s
        /\ service r = name s /\ cost r = costPerImage s).

(** The batch item [item] records what [autoRemoveBackground] did on
    [imageBuffer]: its result, or the error it threw. *)
Definition reports_on (env : Env) (apiKeys : ApiKeys) (options : Options)
    (imageBuffer : Buffer) (item : BatchItem) : Prop :=
  exists log,
    match (autoRemoveBackground env apiKeys imageBuffer options log).1 with
    | Ok r => item = ItemOk r (item_index item)
    | Throw e => item = ItemFailed e (item_index item)
    | OutOfFuel => False
    end.

(** Remote calls are refused for lack of credit. *)
Definition env_payment_required : Env :=
  {| axios_post := fun _ _ =>
       inl {| status := Some 402; message := "Request failed with status code 402" |};
     sharp_metadata := fun _ _ => inl "Input buffer contains unsupported image format"%string;
     sharp_toBuffer := fun _ _ => inl "Input buffer contains unsupported image format"%string |}.

Definition only_removebg_key : ApiKeys :=
  {| key_removebg := Some "key-a"%string; key_backgrounds := None;
     key_clipdrop := Some ""%string |}.

Definition with_limits (c m : Z) : Options :=
  {| opt_size := None; opt_type := None; opt_format := None;
     opt_bg_color := None; opt_priority := None;
     opt_fallbackToLocal := None; opt_maxFileSize := Some m;
     opt_concurrent := Some c |}.

End RemoveBgExtra.

(** ** Further vocabulary for [PDFCompressor] *)

Module CompressPdfExtra.
Import Js CompressPdf.

(** A computation that settles and runs a tool at most [n] times. *)
Definition bounded (n : nat) {A} (m : M World JsError A) : Prop :=
  forall w,
    (m w).1 <> OutOfFuel
    /\ (length (runs (log (m w).2)) <= length (runs (log w)) + n)%nat.

(** The file system works (but for deletions, which may fail), and the
    run [r] always ends in an error. *)
Definition tool_fails (env : Env) (r : Run) : Prop :=
  (forall l op, is_unlink op = false -> fs_fault env l op = None)
  /\ (forall l fs c, run_of c = r -> is_Some (exec_error (exec env l fs c))).

(** How the error of a tool is wrapped, by method. *)
Definition tool_error (options : Options) (cause : JsError) : JsError :=
  if decide (toLowerCase (method options) = "ghostscript"%string)
  then GhostscriptFailed cause else QpdfFailed cause.

Definition presets : list string := ["screen"; "ebook"; "printer"; "prepress"; "default"]%string.

Definition env_tool_crashes : Env :=
  {| date_now := fun l => Z.of_nat (length l);
     fs_fault := fun _ _ => None;
     exec := fun _ _ _ => {| exec_error := Some "Command failed: gs"%string;
                             written := None |} |}.

Definition with_method (m q : string) : Options :=
  {| opt_method := Some m; opt_quality := Some q; opt_maxSizeMB := None;
     opt_tempDir := None; opt_linearize := None; opt_removeUnused := None;
     opt_compressStreams := None |}.

(** The files whose deletion was reported as failed, most recent first. *)
Definition warned_paths (l : list Event) : list Path :=
  omap (fun e => match e with EvConsoleWarn p _ => Some p | _ => None end) l.

End CompressPdfExtra.

(** ** server/compress-pdf.js: the pdf-lib functions *)

Module PdfTools.

(** *** JavaScript strings and [parseInt]

The strings these functions take apart are kept as sequences of UTF-16
code units. *)
Definition JsString : Type := list N.

(** The code units of an ASCII literal. *)
Fixpoint units (s : string) : JsString :=
  match s with
  | EmptyString => []
  | String c rest => Ascii.N_of_ascii c :: units rest
  end.

(** White space and line terminators, as [parseInt] and [trim] skip them. *)
Definition whitespace : list N :=
  [9; 10; 11; 12; 13; 32; 160; 5760;
   8192; 8193; 8194; 8195; 8196; 8197; 8198; 8199; 8200; 8201; 8202;
   8232; 8233; 8239; 8287; 12288; 65279]%N.

Fixpoint trimStart (s : JsString) : JsString :=
  match s with
  | c :: rest => if bool_decide (c ∈ whitespace) then trimStart rest else s
  | [] => []
  end.

Definition trim (s : JsString) : JsString := rev (trimStart (rev (trimStart s))).

(** The value of a digit in a radix, if it is one. *)
Definition digit_value (radix : N) (c : N) : option N :=
  let v := if ((48 <=? c) && (c <=? 57))%N then Some (c - 48)%N
           else if ((97 <=? c) && (c <=? 122))%N then Some (c - 87)%N
           else if ((65 <=? c) && (c <=? 90))%N then Some (c - 55)%N
           else None in
  match v with
  | Some d => if (d <? radix)%N then Some d else None
  | None => None
  end.

(** The digits at the front of a string. *)
Fixpoint leading_digits (radix : N) (s : JsString) : list N :=
  match s with
  | c :: rest =>
      match digit_value radix c with
      | Some d => d :: leading_digits radix rest
      | None => []
      end
  | [] => []
  end.

Definition digits_value (radix : N) (digits : list N) : Z :=
  fold_left (fun acc d => acc * Z.of_N radix + Z.of_N d) digits 0.

(** [parseInt(s)] without a radix, before the conversion to a Number:
    [None] is [NaN], and [Some z] is the integer that the sign and the
    digits denote.  JavaScript returns the double nearest to that integer
    ([PdfInfo.to_number]); the two agree up to 2^53, and beyond that they
    compare alike with any page count, which is all [splitPDF] does with
    the result. *)
Definition parseInt (s : JsString) : option Z :=
  let s1 := trimStart s in
  let '(sign, s2) :=
    match s1 with
    | 45%N :: rest => (-1, rest)
    | 43%N :: rest => (1, rest)
    | _ => (1, s1)
    end in
  let '(radix, s3) :=
    match s2 with
    | 48%N :: 120%N :: rest => (16%N, rest)
    | 48%N :: 88%N :: rest => (16%N, rest)
    | _ => (10%N, s2)
    end in
  match leading_digits radix s3 with
  | [] => None
  | digits => Some (sign * digits_value radix digits)
  end.

(** [String(n)] for a count. *)
Fixpoint decimal_digits (fuel : nat) (n : N) (acc : JsString) : JsString :=
  match fuel with
  | O => acc
  | S fuel' =>
      let acc' := (48 + n mod 10)%N :: acc in
      if (n <? 10)%N then acc' else decimal_digits fuel' (n / 10)%N acc'
  end.

Definition decimal (n : nat) : JsString :=
  decimal_digits (S n) (N.of_nat n) [].

(** [s.split(sep)] for a separator of one code unit. *)
Fixpoint split_on (sep : N) (s : JsString) : list JsString :=
  match s with
  | [] => [[]]
  | c :: rest =>
      if (c =? sep)%N then [] :: split_on sep rest
      else match split_on sep rest with
           | piece :: pieces => (c :: piece) :: pieces
           | [] => [[c]]
           end
  end.

(** *** The PDF library

pdf-lib is used through [PDFDocument.load], [create], [copyPages],
[addPage], [getPageCount], [getPageIndices] and [save].  A document is the
list of its pages; [load] may reject a buffer, and [copyPages] fails on an
index that is not a page of the source. *)
Definition Page : Type := Buffer.
Definition Doc : Type := list Page.

Record PdfLibrary : Type := {
  load : Buffer -> string + Doc;
  save : Doc -> Buffer
}.

(** [doc.getPageCount()] once [doc.save()] has run.  [save] first adds a
    blank page to a document that has none, and the document keeps it;
    [save lib doc] is the buffer written for a document whose pages were
    [doc] when [save] was called. *)
Definition page_count_after_save (doc : Doc) : Z :=
  match doc with
  | [] => 1
  | _ => Z.of_nat (length doc)
  end.

Inductive PdfError : Type :=
| ModuleNotFound                          (* require('pdf-lib') *)
| LoadFailed (message : string)
| NoSuchPage (index : Z)
| InvalidPageRange (range : JsString)
| PdfMergeFailed (cause : PdfError)
| PdfSplitFailed (cause : PdfError).

(** [require('pdf-lib')]: the module may not be installed. *)
Definition require_pdf_lib (installed : option PdfLibrary) : PdfError + PdfLibrary :=
  match installed with
  | Some lib => inr lib
  | None => inl ModuleNotFound
  end.

Definition load_document (lib : PdfLibrary) (b : Buffer) : PdfError + Doc :=
  match load lib b with
  | inr doc => inr doc
  | inl message => inl (LoadFailed message)
  end.

(** [doc.getPageIndices()] *)
Definition getPageIndices (doc : Doc) : list Z := seqZ 0 (Z.of_nat (length doc)).

(** [await target.copyPages(source, indices)] *)
Fixpoint copyPages (source : Doc) (indices : list Z) : PdfError + list Page :=
  match indices with
  | [] => inr []
  | i :: rest =>
      match (if 0 <=? i then source !! Z.to_nat i else None) with
      | Some page =>
          match copyPages source rest with
          | inr pages => inr (page :: pages)
          | inl e => inl e
          end
      | None => inl (NoSuchPage i)
      end
  end.

Record MergeResult : Type := {
  m_success : bool;
  m_buffer : Buffer;
  m_pageCount : Z;
  m_size : Z
}.

(** The [for...of] loop of [mergePDFs]; [merged] is the document being
    built. *)
Fixpoint merge_loop (lib : PdfLibrary) (pdfBuffers : list Buffer) (merged : Doc)
    : PdfError + Doc :=
  match pdfBuffers with
  | [] => inr merged
  | pdfBuffer :: rest =>
      match load_document lib pdfBuffer with
      | inl e => inl e
      | inr pdf =>
          match copyPages pdf (getPageIndices pdf) with
          | inl e => inl e
          | inr copiedPages => merge_loop lib rest (merged ++ copiedPages)
          end
      end
  end.

Definition mergePDFs (installed : option PdfLibrary) (pdfBuffers : list Buffer)
    : PdfError + MergeResult :=
  let attempt :=
    match require_pdf_lib installed with
    | inl e => inl e
    | inr lib =>
        match merge_loop lib pdfBuffers [] with
        | inl e => inl e
        | inr mergedPdf =>
            let mergedBuffer := save lib mergedPdf in
            inr {| m_success := true;
                   m_buffer := mergedBuffer;
                   m_pageCount := page_count_after_save mergedPdf;
                   m_size := buffer_length mergedBuffer |}
        end
    end in
  match attempt with
  | inr result => inr result
  | inl error => inl (PdfMergeFailed error)
  end.

Record SplitOptions : Type := {
  opt_pageRanges : option (list JsString);
  opt_individualPages : option bool
}.

(** One element of [results] in [splitPDF]. *)
Inductive Part : Type :=
| PagePart (pageNumber : Z) (buffer : Buffer) (size : Z)
| RangePart (range : JsString) (pages : Z) (buffer : Buffer) (size : Z).

Record SplitResult : Type := {
  s_success : bool;
  s_results : list Part;
  s_totalPages : Z
}.

(** The body of the loop over [pageRanges], for one range. *)
Definition split_range (lib : PdfLibrary) (pdf : Doc) (range : JsString) : PdfError + Part :=
  let totalPages := Z.of_nat (length pdf) in
  let pieces := split_on 45 range in
  let startStr := pieces !! 0%nat in
  let endStr := pieces !! 1%nat in
  let start := (fun n => n - 1) <$> (startStr ≫= parseInt) in
  let end_ :=
    match endStr with
    | Some (c :: s) => (fun n => n - 1) <$> parseInt (c :: s)
    | _ => start
    end in
  match start with
  | None => inl (InvalidPageRange range)
  | Some start =>
      if (start <? 0) || (totalPages <=? start) then inl (InvalidPageRange range)
      else
        let pageIndices :=
          match end_ with
          | Some e => seqZ start (Z.min e (totalPages - 1) - start + 1)
          | None => []
          end in
        match copyPages pdf pageIndices with
        | inl e => inl e
        | inr copiedPages =>
            let rangeBuffer := save lib copiedPages in
            inr (RangePart range (Z.of_nat (length pageIndices)) rangeBuffer
                   (buffer_length rangeBuffer))
        end
  end.

Fixpoint split_ranges (lib : PdfLibrary) (pdf : Doc) (pageRanges : list JsString)
    : PdfError + list Part :=
  match pageRanges with
  | [] => inr []
  | range :: rest =>
      match split_range lib pdf range with
      | inl e => inl e
      | inr part =>
          match split_ranges lib pdf rest with
          | inl e => inl e
          | inr parts => inr (part :: parts)
          end
      end
  end.

(** The loop [for (let i = 0; i < totalPages; i++)] of [splitPDF], from
    page index [i] on; [todo] iterations are left. *)
Fixpoint split_pages (lib : PdfLibrary) (pdf : Doc) (i : Z) (todo : nat)
    : PdfError + list Part :=
  match todo with
  | O => inr []
  | S todo' =>
      match copyPages pdf [i] with
      | inr [copiedPage] =>
          let pageBuffer := save lib [copiedPage] in
          match split_pages lib pdf (i + 1) todo' with
          | inl e => inl e
          | inr parts =>
              inr (PagePart (i + 1) pageBuffer (buffer_length pageBuffer) :: parts)
          end
      | inr _ => inl (NoSuchPage i)
      | inl e => inl e
      end
  end.

Definition splitPDF (installed : option PdfLibrary) (pdfBuffer : Buffer)
    (options : SplitOptions) : PdfError + SplitResult :=
  let attempt :=
    match require_pdf_lib installed with
    | inl e => inl e
    | inr lib =>
        match load_document lib pdfBuffer with
        | inl e => inl e
        | inr pdf =>
            let totalPages := length pdf in
            let pageRanges :=
              default [units "1-" ++ decimal totalPages] (opt_pageRanges options) in
            let individualPages := default false (opt_individualPages options) in
            match (if individualPages
                   then split_pages lib pdf 0 totalPages
                   else split_ranges lib pdf pageRanges) with
            | inl e => inl e
            | inr results =>
                inr {| s_success := true;
                       s_results := results;
                       s_totalPages := Z.of_nat totalPages |}
            end
        end
    end in
  match attempt with
  | inr result => inr result
  | inl error => inl (PdfSplitFailed error)
  end.

(** *** Vocabulary of the statements *)

(** A decimal digit, as a code unit. *)
Definition is_decimal_digit (c : N) : Prop := (48 <= c <= 57)%N.

(** The part cut out of [doc] for [range]: [count] pages from page index
    [first] on, all of them pages of the document. *)
Definition part_of (lib : PdfLibrary) (doc : Doc) (range : JsString) (part : Part) : Prop :=
  exists first count : nat,
    (first + count <= length doc)%nat
    /\ part = RangePart range (Z.of_nat count)
                (save lib (take count (drop first doc)))
                (buffer_length (save lib (take count (drop first doc)))).

Definition part_buffer (part : Part) : Buffer :=
  match part with
  | PagePart _ buffer _ => buffer
  | RangePart _ _ buffer _ => buffer
  end.

Definition ranges_only (ranges : list JsString) : SplitOptions :=
  {| opt_pageRanges := Some ranges; opt_individualPages := None |}.

Definition no_split_options : SplitOptions :=
  {| opt_pageRanges := None; opt_individualPages := None |}.

Definition page_by_page : SplitOptions :=
  {| opt_pageRanges := None; opt_individualPages := Some true |}.

(** A stand-in library: every byte of a buffer is a page. *)
Definition byte_pages : PdfLibrary :=
  {| load := fun b => inr (map (fun x => [x]) b); save := fun doc => concat doc |}.

(** As [byte_pages], but the empty buffer is not a document. *)
Definition strict_pages : PdfLibrary :=
  {| load := fun b =>
       match b with
       | [] => inl "No PDF header found"%string
       | _ => inr (map (fun x => [x]) b)
       end;
     save := fun doc => concat doc |}.

End PdfTools.

(** ** server/compress-pdf.js: [getPDFInfo] *)

Module PdfInfo.
Import PdfTools.

(** [getPDFInfo] works on one file, [./temp/info_<timestamp>.pdf]; such a
    file is named by its timestamp. *)
Abbreviation InfoFiles := (gmap Z Buffer).

Inductive InfoOp : Type :=
| InfoMkdir
| InfoWriteFile (timestamp : Z)
| InfoStat (timestamp : Z)
| InfoUnlink (timestamp : Z).

Inductive InfoEvent : Type :=
| InfoFs (op : InfoOp)
| InfoNow (timestamp : Z)                      (* Date.now() *)
| InfoShowNpages (timestamp : Z).              (* qpdf --show-npages "<tempPath>" *)

Inductive InfoError : Type :=
| InfoFsError (code : CompressPdf.ErrCode)
| InfoExecError (message : string).

Record InfoWorld : Type := { info_files : InfoFiles; info_log : list InfoEvent }.

(** The outside world of [getPDFInfo].  [show_npages] is what
    [execPromise] does with the command: it rejects with a message, or
    resolves with the text the tool printed; the command reads its file and
    writes none.  [pdf_lib] is what [require('pdf-lib')] finds. *)
Record InfoEnv : Type := {
  info_date_now : list InfoEvent -> Z;
  info_fs_fault : list InfoEvent -> InfoOp -> option CompressPdf.Fault;
  show_npages : list InfoEvent -> InfoFiles -> Z -> string + JsString;
  pdf_lib : option PdfLibrary
}.

Record PDFInfo : Type := {
  i_pageCount : Double.double;
  i_fileSize : Z;
  i_isValid : bool;
  i_error : option string
}.

Section Methods.
Variable env : InfoEnv.

Local Abbreviation Async := (M InfoWorld InfoError).
Local Open Scope js_scope.

Definition info_emit (e : InfoEvent) (w : InfoWorld) : InfoWorld :=
  {| info_files := info_files w; info_log := e :: info_log w |}.

Definition info_fs_call {A} (op : InfoOp)
    (action : InfoFiles -> CompressPdf.ErrCode + (A * InfoFiles)) : Async A :=
  fun w =>
    match info_fs_fault env (info_log w) op with
    | Some f => (Throw (InfoFsError (CompressPdf.Failure f)), info_emit (InfoFs op) w)
    | None =>
        match action (info_files w) with
        | inl code => (Throw (InfoFsError code), info_emit (InfoFs op) w)
        | inr (a, files') =>
            (Ok a, {| info_files := files'; info_log := InfoFs op :: info_log w |})
        end
    end.

Definition info_mkdir : Async unit :=
  info_fs_call InfoMkdir (fun fs => inr (tt, fs)).

Definition info_writeFile (t : Z) (content : Buffer) : Async unit :=
  info_fs_call (InfoWriteFile t) (fun fs => inr (tt, <[t := content]> fs)).

Definition info_stat_size (t : Z) : Async Z :=
  info_fs_call (InfoStat t)
    (fun fs => match fs !! t with
               | Some content => inr (buffer_length content, fs)
               | None => inl CompressPdf.ENOENT
               end).

Definition info_unlink (t : Z) : Async unit :=
  info_fs_call (InfoUnlink t)
    (fun fs => match fs !! t with
               | Some _ => inr (tt, delete t fs)
               | None => inl CompressPdf.ENOENT
               end).

Definition info_now : Async Z :=
  fun w => let t := info_date_now env (info_log w) in (Ok t, info_emit (InfoNow t) w).

(** [const { stdout } = await execPromise(command)] *)
Definition exec_show_npages (t : Z) : Async JsString :=
  fun w =>
    let w' := info_emit (InfoShowNpages t) w in
    match show_npages env (info_log w) (info_files w) t with
    | inl message => (Throw (InfoExecError message), w')
    | inr stdout => (Ok stdout, w')
    end.

Definition could_not_parse (pdfBuffer : Buffer) : PDFInfo :=
  {| i_pageCount := Double.one;
     i_fileSize := buffer_length pdfBuffer;
     i_isValid := false;
     i_error := Some "Could not parse PDF"%string |}.

(** The inner [try] of the [catch] block: the answer of pdf-lib, if it is
    there and loads the buffer. *)
Definition pdf_lib_info (pdfBuffer : Buffer) : PDFInfo :=
  match require_pdf_lib (pdf_lib env) with
  | inl _ => could_not_parse pdfBuffer
  | inr lib =>
      match load_document lib pdfBuffer with
      | inl _ => could_not_parse pdfBuffer
      | inr pdfDoc =>
          {| i_pageCount := Double.of_Z (Z.of_nat (length pdfDoc));
             i_fileSize := buffer_length pdfBuffer;
             i_isValid := true;
             i_error := None |}
      end
  end.

(** The Number that [parseInt] returns: NaN when there is no digit, and
    otherwise the double nearest to the integer the digits denote, which
    [PdfTools.parseInt] gives.  (For ["-0"] JavaScript has [-0] where this
    has [0]; the two are told apart by nothing below.) *)
Definition to_number (parsed : option Z) : Double.double :=
  match parsed with
  | Some z => Double.of_Z z
  | None => SpecFloat.S754_nan
  end.

(** [pageCount || 1] *)
Definition page_count_or_one (pageCount : Double.double) : Double.double :=
  if Double.truthy pageCount then pageCount else Double.one.

(** [pageCount > 0] *)
Definition is_positive (pageCount : Double.double) : bool :=
  Double.ltb Double.zero pageCount.

#[global] Arguments to_number : simpl never.
#[global] Arguments page_count_or_one : simpl never.
#[global] Arguments is_positive : simpl never.

Definition getPDFInfo (pdfBuffer : Buffer) : Async PDFInfo :=
  info_mkdir ;;;
  timestamp <- info_now ;;
  try_catch
    (info_writeFile timestamp pdfBuffer ;;;
     stdout <- exec_show_npages timestamp ;;
     let pageCount := to_number (parseInt (trim stdout)) in
     size <- info_stat_size timestamp ;;
     info_unlink timestamp ;;;
     ret {| i_pageCount := page_count_or_one pageCount;
            i_fileSize := size;
            i_isValid := is_positive pageCount;
            i_error := None |})
    (fun _ =>
       swallow (info_unlink timestamp) ;;;
       ret (pdf_lib_info pdfBuffer)).

End Methods.

(** *** Vocabulary *)

(** The timestamp a call started in [w] draws. *)
Definition info_stamp (env : InfoEnv) (w : InfoWorld) : Z :=
  info_date_now env (InfoFs InfoMkdir :: info_log w).

Definition is_whitespace (s : JsString) : Prop := Forall (fun c => c ∈ whitespace) s.

(** Nothing fails in the file system. *)
Definition info_fs_works (env : InfoEnv) : Prop :=
  forall l op, info_fs_fault env l op = None.

(** *** Sample environments *)

(** qpdf prints [3] and a newline for every file that is there; pdf-lib is
    not installed. *)
Definition info_env_qpdf : InfoEnv :=
  {| info_date_now := fun l => Z.of_nat (length l);
     info_fs_fault := fun _ _ => None;
     show_npages := fun _ fs t =>
       match fs !! t with
       | Some _ => inr (units "3" ++ [10%N])
       | None => inl "qpdf: open failed"%string
       end;
     pdf_lib := None |}.

(** qpdf is not installed; pdf-lib is. *)
Definition info_env_pdf_lib (lib : PdfLibrary) : InfoEnv :=
  {| info_date_now := fun l => Z.of_nat (length l);
     info_fs_fault := fun _ _ => None;
     show_npages := fun _ _ _ => inl "qpdf: not found"%string;
     pdf_lib := Some lib |}.

Definition info_empty_world : InfoWorld := {| info_files := ∅; info_log := [] |}.

End PdfInfo.

(** * Properties of doubles *)

Module DoubleFacts.
Import SpecFloat Double.

Lemma digits2_pos_bounds (m : positive) :
  2 ^ (Zpos (digits2_pos m) - 1) <= Zpos m < 2 ^ Zpos (digits2_pos m).
Proof.
  induction m as [m IH|m IH|]; cbn [digits2_pos]; [| |simpl; lia].
  all: rewrite Pos2Z.inj_succ.
  all: set (d := Zpos (digits2_pos m)) in *.
  all: assert (2 ^ d = 2 * 2 ^ (d - 1)) as Hd
         by (rewrite <- Z.pow_succ_r by (subst d; lia); f_equal; lia).
  all: replace (Z.succ d - 1) with d by lia.
  all: rewrite Z.pow_succ_r by (subst d; lia).
  all: lia.
Qed.

Lemma shr_1_m mrs : 0 <= shr_m mrs -> shr_m (shr_1 mrs) = shr_m mrs / 2.
Proof.
  destruct mrs as [m r s]. cbn [shr_m]. intros Hm.
  destruct m as [|[p|p|]|p]; cbn [shr_1 shr_m]; try done; try lia.
  - apply Z.div_unique with 1; lia.
  - apply Z.div_unique with 0; lia.
Qed.

Lemma shr_1_nonneg mrs : 0 <= shr_m mrs -> 0 <= shr_m (shr_1 mrs).
Proof. intros Hm. rewrite shr_1_m by done. by apply Z.div_pos. Qed.

Lemma iter_shr_1_m (p : positive) :
  forall mrs, 0 <= shr_m mrs ->
    shr_m (iter_pos shr_1 p mrs) = shr_m mrs / 2 ^ Zpos p.
Proof.
  induction p as [p IH|p IH|]; intros mrs Hm; cbn [iter_pos].
  - assert (0 <= shr_m (shr_1 mrs)) as H1 by (by apply shr_1_nonneg).
    assert (0 <= shr_m (iter_pos shr_1 p (shr_1 mrs))) as H2
      by (rewrite IH by done; apply Z.div_pos; lia).
    rewrite (IH _ H2), (IH _ H1), shr_1_m by done.
    rewrite !Z.div_div by lia. f_equal.
    replace (Zpos p~1) with (1 + Zpos p + Zpos p) by lia.
    rewrite !Z.pow_add_r by lia. lia.
  - assert (0 <= shr_m (iter_pos shr_1 p mrs)) as H2
      by (rewrite IH by done; apply Z.div_pos; lia).
    rewrite (IH _ H2), (IH _ Hm).
    rewrite !Z.div_div by lia. f_equal.
    replace (Zpos p~0) with (Zpos p + Zpos p) by lia.
    rewrite !Z.pow_add_r by lia. lia.
  - by rewrite shr_1_m.
Qed.

(** Shifting a positive mantissa to its format exponent leaves a positive
    mantissa, at an exponent that is not smaller. *)
Lemma shr_fexp_pos (m : positive) (e : Z) l :
  -1074 <= e ->
  exists (m' : positive) r s e',
    shr_fexp 53 1024 (Zpos m) e l = ({| shr_m := Zpos m'; shr_r := r; shr_s := s |}, e')
    /\ e <= e'.
Proof.
  intros He. unfold shr_fexp, shr. cbn [Zdigits2].
  set (d := Zpos (digits2_pos m)).
  pose proof (digits2_pos_bounds m) as Hd. fold d in Hd.
  assert (0 < d) as Hdpos by (subst d; lia).
  destruct (fexp 53 1024 (d + e) - e) as [|n|n] eqn:Hn.
  - destruct l as [|[]]; simpl; eexists _, _, _, _; (split; [reflexivity|lia]).
  - assert (Zpos n <= d - 1) as Hnd.
    { rewrite <- Hn. unfold fexp, emin. lia. }
    assert (0 < Zpos m / 2 ^ Zpos n) as Hq.
    { apply Z.div_str_pos. split; [lia|].
      etransitivity; [|apply Hd]. apply Z.pow_le_mono_r; lia. }
    pose proof (iter_shr_1_m n (shr_record_of_loc (Zpos m) l)) as Hiter.
    assert (shr_m (shr_record_of_loc (Zpos m) l) = Zpos m) as Hm0
      by (by destruct l as [|[]]).
    rewrite Hm0 in Hiter. specialize (Hiter ltac:(lia)).
    destruct (iter_pos shr_1 n (shr_record_of_loc (Zpos m) l)) as [m1 r1 s1].
    cbn [shr_m] in Hiter.
    destruct (Zpos m / 2 ^ Zpos n) as [|q|q] eqn:Hquot; [lia| |lia].
    subst m1. eexists _, _, _, _. split; [reflexivity|lia].
  - destruct l as [|[]]; simpl; eexists _, _, _, _; (split; [reflexivity|lia]).
Qed.

Lemma round_nearest_even_pos (m : positive) l :
  exists m' : positive, round_nearest_even (Zpos m) l = Zpos m'.
Proof.
  destruct l as [|[]]; simpl; try by eexists.
  destruct m; simpl; by eexists.
Qed.

(** Rounding a positive mantissa gives a positive double or the positive
    infinity, at an exponent that is not smaller. *)
Lemma binary_round_aux_pos (sx : bool) (m : positive) (e : Z) l :
  -1074 <= e ->
  (exists (m' : positive) e',
     binary_round_aux 53 1024 sx (Zpos m) e l = S754_finite sx m' e' /\ e <= e')
  \/ binary_round_aux 53 1024 sx (Zpos m) e l = S754_infinity sx.
Proof.
  intros He. unfold binary_round_aux.
  destruct (shr_fexp_pos m e l He) as (m1 & r1 & s1 & e1 & -> & He1).
  cbn [shr_m].
  destruct (round_nearest_even_pos m1 (loc_of_shr_record
              {| shr_m := Zpos m1; shr_r := r1; shr_s := s1 |})) as [m2 ->].
  destruct (shr_fexp_pos m2 e1 loc_Exact ltac:(lia)) as (m3 & r3 & s3 & e3 & -> & He3).
  cbn [shr_m]. destruct (e3 <=? 1024 - 53); [left|by right].
  eexists _, _. split; [reflexivity|lia].
Qed.

Lemma shl_align_exponent (m : positive) e e' :
  snd (shl_align m e e') = Z.min e e'.
Proof.
  unfold shl_align. destruct (e' - e) as [|d|d] eqn:Hd; simpl; lia.
Qed.

(** The double of a positive integer is a positive double, at least 1, or
    the positive infinity. *)
Lemma of_Z_pos z :
  0 < z ->
  (exists (m : positive) e, of_Z z = S754_finite false m e /\ leb one (of_Z z) = true)
  \/ of_Z z = S754_infinity false.
Proof.
  intros Hz. destruct z as [|p|p]; [lia| |lia].
  destruct (decide (p = 1%positive)) as [->|Hp].
  { left. by eexists _, _. }
  unfold of_Z, binary_normalize, binary_round.
  pose proof (shl_align_exponent p 0 (fexp 53 1024 (Zpos (digits2_pos p) + 0))) as Hal.
  destruct (shl_align p 0 _) as [mz ez]. simpl in Hal.
  assert (2 <= Zpos (digits2_pos p)) as Hd.
  { destruct p; cbn [digits2_pos]; [| |done]; rewrite Pos2Z.inj_succ; lia. }
  assert (-51 <= ez) as Hez.
  { subst ez. unfold fexp, emin. lia. }
  destruct (binary_round_aux_pos false mz ez loc_Exact ltac:(lia))
    as [(m' & e' & -> & He')| ->]; [left|by right].
  eexists _, _. split; [reflexivity|].
  unfold leb, SFleb, one. cbn [SFcompare].
  by replace (-52 ?= e') with Lt by (symmetry; apply Z.compare_lt_iff; lia).
Qed.

(** The double of an integer that is not positive is not positive. *)
Lemma of_Z_nonpos z : z <= 0 -> ltb zero (of_Z z) = false.
Proof.
  intros Hz. destruct z as [|p|p]; [done|lia|].
  unfold of_Z, binary_normalize, binary_round.
  pose proof (shl_align_exponent p 0 (fexp 53 1024 (Zpos (digits2_pos p) + 0))) as Hal.
  destruct (shl_align p 0 _) as [mz ez]. simpl in Hal.
  assert (-1074 <= ez) as Hez by (subst ez; unfold fexp, emin; lia).
  by destruct (binary_round_aux_pos true mz ez loc_Exact Hez)
    as [(m' & e' & -> & He')| ->].
Qed.

Lemma of_Z_positive z : ltb zero (of_Z z) = bool_decide (0 < z).
Proof.
  case_bool_decide as Hz.
  - by destruct (of_Z_pos z Hz) as [(m & e & -> & _)| ->].
  - apply of_Z_nonpos. lia.
Qed.

Lemma of_Z_truthy z : truthy (of_Z z) = bool_decide (z <> 0).
Proof.
  destruct (Z.lt_trichotomy z 0) as [Hz|[->|Hz]].
  - rewrite bool_decide_eq_true_2 by lia.
    destruct z as [|p|p]; [lia..|].
    unfold of_Z, binary_normalize, binary_round.
    pose proof (shl_align_exponent p 0 (fexp 53 1024 (Zpos (digits2_pos p) + 0))) as Hal.
    destruct (shl_align p 0 _) as [mz ez]. simpl in Hal.
    assert (-1074 <= ez) as Hez by (subst ez; unfold fexp, emin; lia).
    by destruct (binary_round_aux_pos true mz ez loc_Exact Hez)
      as [(m' & e' & -> & He')| ->].
  - done.
  - rewrite bool_decide_eq_true_2 by lia.
    by destruct (of_Z_pos z Hz) as [(m & e & -> & _)| ->].
Qed.

(** The double of a positive integer is at least 1. *)
Lemma of_Z_at_least_one z : 0 < z -> leb one (of_Z z) = true.
Proof. intros Hz. destruct (of_Z_pos z Hz) as [(m & e & _ & Hle)| ->]; done. Qed.

(** The double of a negative integer is negative. *)
Lemma of_Z_negative z : z < 0 -> ltb (of_Z z) zero = true.
Proof.
  intros Hz. destruct z as [|p|p]; [lia..|].
  unfold of_Z, binary_normalize, binary_round.
  pose proof (shl_align_exponent p 0 (fexp 53 1024 (Zpos (digits2_pos p) + 0))) as Hal.
  destruct (shl_align p 0 _) as [mz ez]. simpl in Hal.
  assert (-1074 <= ez) as Hez by (subst ez; unfold fexp, emin; lia).
  by destruct (binary_round_aux_pos true mz ez loc_Exact Hez)
    as [(m' & e' & -> & He')| ->].
Qed.

(** Beyond 2^53 not every integer is a double: 2^53 + 1 is read as 2^53. *)
Lemma of_Z_rounds : of_Z (2 ^ 53 + 1) = of_Z (2 ^ 53).
Proof. reflexivity. Qed.

End DoubleFacts.

(** * Properties of [BackgroundRemover] *)

Module RemoveBgProofs.
Import Js RemoveBg.

(** Unfolds the monad and the logged external calls. *)
Ltac unfold_async :=
  unfold bind, ret, throw, try_catch, out_of_fuel,
         post, metadata, toBuffer, setTimeout, console_error, console_warn in *.

(** Splits on every [match] and [if] of the goal and hypotheses, keeping
    the equations. *)
Ltac split_cases := repeat (case_match; simplify_eq; try done).

Section Facts.
Variable env : Env.
Variable apiKeys : ApiKeys.

Lemma lookup_u2net :
  Js.get localModels "u2net" =
  Own {| model_name := "U^2-Net";
         description := "State-of-the-art saliency object detection";
         github := "https://github.com/xuebinqin/U-2-Net";
         size := "176MB" |}.
Proof. reflexivity. Qed.

(** A name with an own entry in [this.services] is not looked up on the
    prototype. *)
Lemma get_services_own serviceName (s : Service) :
  services apiKeys !! serviceName = Some s ->
  Js.get (services apiKeys) serviceName = Own s.
Proof. intros H. unfold Js.get. by rewrite H. Qed.

Lemma get_services_inv serviceName (s : Service) :
  Js.get (services apiKeys) serviceName = Own s ->
  services apiKeys !! serviceName = Some s.
Proof. unfold Js.get. intros H. split_cases. Qed.

(** Every result a remote service returns says [success: true] and carries
    the service's display name and price. *)
Lemma removeWithService_ok serviceName imageBuffer options log r log' :
  removeWithService env apiKeys serviceName imageBuffer options log = (Ok r, log') ->
  exists s, services apiKeys !! serviceName = Some s
            /\ success r = true /\ service r = name s /\ cost r = costPerImage s.
Proof.
  unfold removeWithService. unfold_async. intros H.
  destruct (Js.get (services apiKeys) serviceName) as [s|i|] eqn:Hget; try done.
  exists s. split; [by apply get_services_inv|].
  split_cases.
Qed.

(** The local model names itself and is free. *)
Lemma removeWithLocalModel_ok imageBuffer options log r log' :
  removeWithLocalModel env "u2net" imageBuffer options log = (Ok r, log') ->
  success r = true /\ service r = "Local: U^2-Net"%string /\ cost r = 0%Q.
Proof.
  unfold removeWithLocalModel. rewrite lookup_u2net. unfold_async. intros H.
  split_cases.
Qed.

Lemma try_provider_ok p imageBuffer options log r log' :
  try_provider env apiKeys p imageBuffer options log = (Ok (Some r), log') ->
  success r = true /\ Some (service r) = provider_label apiKeys p.
Proof.
  unfold try_provider, provider_label. intros H.
  destruct (decide (p = "local"%string)) as [->|Hp].
  - unfold bind, ret in H.
    destruct (removeWithLocalModel _ _ _ _ _) as [[r0| |] l0] eqn:Hl; simplify_eq.
    apply removeWithLocalModel_ok in Hl as (? & -> & _). done.
  - destruct (Js.get (services apiKeys) p) eqn:Hget; unfold bind, ret in H;
      try done;
      destruct (removeWithService _ _ _ _ _ _) as [[r0| |] l0] eqn:Hs; simplify_eq;
      apply removeWithService_ok in Hs as (s & -> & ? & -> & _); done.
Qed.

(** No method of the class loops: a single removal always settles. *)
Lemma removeWithService_settles serviceName imageBuffer options log :
  (removeWithService env apiKeys serviceName imageBuffer options log).1 <> OutOfFuel.
Proof. unfold removeWithService. unfold_async. split_cases. Qed.

Lemma removeWithLocalModel_settles modelName imageBuffer options log :
  (removeWithLocalModel env modelName imageBuffer options log).1 <> OutOfFuel.
Proof. unfold removeWithLocalModel. unfold_async. split_cases. Qed.

Lemma createBasicTransparency_settles imageBuffer log :
  (createBasicTransparency env imageBuffer log).1 <> OutOfFuel.
Proof. unfold createBasicTransparency. unfold_async. split_cases. Qed.

Lemma try_provider_settles p imageBuffer options log :
  (try_provider env apiKeys p imageBuffer options log).1 <> OutOfFuel.
Proof.
  unfold try_provider, bind, ret.
  pose proof (removeWithLocalModel_settles "u2net" imageBuffer options log).
  pose proof (removeWithService_settles p imageBuffer options log).
  split_cases.
Qed.

(** The loop over the priority order never throws: each failure is caught,
    logged and the loop goes on. *)
Lemma try_in_order_returns names imageBuffer options log :
  exists found log', try_in_order env apiKeys names imageBuffer options log = (Ok found, log').
Proof.
  revert log. induction names as [|p rest IH]; intros log; simpl.
  - by eexists _, _.
  - unfold bind at 1. unfold try_catch.
    pose proof (try_provider_settles p imageBuffer options log) as Hs.
    destruct (try_provider _ _ _ _ _ _) as [[[r|]| e |] l1]; simpl in *.
    + by eexists _, _.
    + apply IH.
    + unfold console_warn, bind, ret. apply IH.
    + done.
Qed.

Lemma try_in_order_ok names imageBuffer options log r log' :
  try_in_order env apiKeys names imageBuffer options log = (Ok (Some r), log') ->
  success r = true.
Proof.
  revert log. induction names as [|p rest IH]; intros log; simpl.
  - unfold ret. intros; simplify_eq.
  - unfold bind at 1. unfold try_catch.
    destruct (try_provider _ _ _ _ _ _) as [[[r0|]| e |] l1] eqn:Hp; simpl; try done.
    + unfold ret. intros; simplify_eq. by apply try_provider_ok in Hp as [? _].
    + apply IH.
    + unfold console_warn, bind, ret. apply IH.
Qed.

(** Once a provider returns, the rest of the priority order is not looked
    at: the loop ends in the very log the successful call left. *)
Lemma try_in_order_first_success before p after imageBuffer options log log1 r log2 :
  try_in_order env apiKeys before imageBuffer options log = (Ok None, log1) ->
  try_provider env apiKeys p imageBuffer options log1 = (Ok (Some r), log2) ->
  try_in_order env apiKeys (before ++ p :: after) imageBuffer options log
  = (Ok (Some r), log2).
Proof.
  revert log. induction before as [|q before IH]; intros log Hbefore Hp; simpl in *.
  - unfold ret in Hbefore. simplify_eq.
    unfold bind at 1. unfold try_catch. by rewrite Hp.
  - revert Hbefore. unfold bind at 1 3. unfold try_catch.
    destruct (try_provider env apiKeys q imageBuffer options log) as [[[r0|]| e |] l1];
      simpl; try done.
    + intros. by apply IH.
    + unfold console_warn, bind, ret. intros. by apply IH.
Qed.

(** An entry that resolves to nothing on [this.services] leaves no trace. *)
Lemma try_in_order_skips_unresolved p rest imageBuffer options log :
  p <> "local"%string ->
  Js.get (services apiKeys) p = Undefined ->
  try_in_order env apiKeys (p :: rest) imageBuffer options log
  = try_in_order env apiKeys rest imageBuffer options log.
Proof.
  intros Hp Hget. simpl. unfold bind at 1. unfold try_catch, try_provider.
  rewrite decide_False by done. by rewrite Hget.
Qed.

End Facts.

(** C7. An image buffer longer than [maxFileSize] makes
    [autoRemoveBackground] throw the file-too-large error at once: the log
    is returned as it was, so no remote call, no local-model run and no
    fallback transform took place. *)
Theorem autoRemove_rejects_oversize env apiKeys imageBuffer options log :
  maxFileSize options < buffer_length imageBuffer ->
  autoRemoveBackground env apiKeys imageBuffer options log
  = (Throw (FileTooLarge (maxFileSize options)), log).
Proof.
  intros Hsize. unfold autoRemoveBackground.
  apply Z.ltb_lt in Hsize. by rewrite Hsize.
Qed.

Lemma autoRemove_rejects_oversize_witness :
  maxFileSize (with_maxFileSize 3) < buffer_length (png_stub ++ png_stub)
  /\ autoRemoveBackground env_codec_works all_keys (png_stub ++ png_stub)
       (with_maxFileSize 3) []
     = (Throw (FileTooLarge 3), []).
Proof.
  split; [reflexivity|].
  apply (autoRemove_rejects_oversize env_codec_works all_keys (png_stub ++ png_stub)
           (with_maxFileSize 3) []).
  reflexivity.
Defined.

(** C8. Short circuit on the first success.  When the priority order is
    [before ++ p :: after], every entry of [before] failed or was skipped,
    and the call to [p] returns [r], then [autoRemoveBackground] returns
    that same [r], whose [service] field is [p]'s label, and ends in the log
    the call to [p] left: nothing of [after] was invoked. *)
Theorem autoRemove_short_circuit env apiKeys imageBuffer options
    before p after log log1 r log2 :
  priority options = before ++ p :: after ->
  buffer_length imageBuffer <= maxFileSize options ->
  try_in_order env apiKeys before imageBuffer options log = (Ok None, log1) ->
  try_provider env apiKeys p imageBuffer options log1 = (Ok (Some r), log2) ->
  autoRemoveBackground env apiKeys imageBuffer options log = (Ok r, log2)
  /\ Some (service r) = provider_label apiKeys p
  /\ success r = true.
Proof.
  intros Hprio Hsize Hbefore Hp.
  pose proof (try_provider_ok _ _ _ _ _ _ _ _ Hp) as [Hsucc Hlabel].
  split; [|done].
  unfold autoRemoveBackground.
  rewrite (proj2 (Z.ltb_ge _ _)) by lia.
  rewrite Hprio. unfold bind.
  by rewrite (try_in_order_first_success env apiKeys before p after _ _ _ _ _ _ Hbefore Hp).
Qed.

(** Providers [removebg (fails), backgrounds (succeeds), clipdrop (would
    succeed)]: the result names BackgroundRemover.ai and nothing was posted
    to Clipdrop. *)
Lemma autoRemove_short_circuit_witness :
  exists r log',
    (autoRemoveBackground env_second_answers all_keys png_stub
       (with_priority ["removebg"; "backgrounds"; "clipdrop"]%string false) []
     = (Ok r, log')
     /\ Some (service r) = provider_label all_keys "backgrounds"
     /\ success r = true)
    /\ service r = "BackgroundRemover.ai"%string
    /\ posts_to "https://clipdrop-api.co/remove-background/v1" log' = [].
Proof.
  eexists _, _. split.
  - eapply (autoRemove_short_circuit env_second_answers all_keys png_stub
              (with_priority ["removebg"; "backgrounds"; "clipdrop"]%string false)
              ["removebg"%string] "backgrounds" ["clipdrop"%string] []);
      [reflexivity | vm_compute; discriminate | reflexivity | reflexivity].
  - split; reflexivity.
Defined.

Lemma createBasicTransparency_ok env imageBuffer log r log' :
  createBasicTransparency env imageBuffer log = (Ok r, log') ->
  success r = true /\ service r = "Basic Transparency"%string /\ cost r = 0%Q.
Proof. unfold createBasicTransparency. unfold_async. intros H. split_cases. Qed.

(** C1, as the code has it.  With the buffer within [maxFileSize] and
    [fallbackToLocal] on, [autoRemoveBackground] returns a result with
    [success = true] whatever the providers do and whatever the priority
    order is, provided the basic-transparency transform itself does not
    fail on the buffer. *)
Theorem autoRemove_total_when_fallback_works env apiKeys imageBuffer options log :
  buffer_length imageBuffer <= maxFileSize options ->
  fallbackToLocal options = true ->
  (forall l, exists r l', createBasicTransparency env imageBuffer l = (Ok r, l')) ->
  exists r log',
    autoRemoveBackground env apiKeys imageBuffer options log = (Ok r, log')
    /\ success r = true.
Proof.
  intros Hsize Hfallback Hbasic. unfold autoRemoveBackground.
  rewrite (proj2 (Z.ltb_ge _ _)) by lia. unfold bind.
  destruct (try_in_order_returns env apiKeys (priority options) imageBuffer options log)
    as (found & l1 & Hloop).
  rewrite Hloop. destruct found as [r|].
  - exists r, l1. split; [done|]. by eapply try_in_order_ok.
  - rewrite Hfallback. destruct (Hbasic l1) as (r & l2 & Hr).
    exists r, l2. split; [done|]. by apply createBasicTransparency_ok in Hr as [? _].
Qed.

(** Every provider of the default priority order fails, and the fallback
    answers. *)
Lemma autoRemove_total_when_fallback_works_witness :
  exists r log',
    autoRemoveBackground env_only_fallback_works all_keys png_stub no_options []
    = (Ok r, log')
    /\ success r = true.
Proof.
  apply (autoRemove_total_when_fallback_works env_only_fallback_works all_keys
           png_stub no_options []).
  - vm_compute. discriminate.
  - reflexivity.
  - intros l. eexists _, _. reflexivity.
Defined.

(** C1 as stated fails: a buffer the codec cannot decode (here the empty
    one) is within the size limit, the default priority order is not empty
    and the fallback is on, yet the call throws, because the fallback
    transform itself asks the codec to decode the buffer. *)
Lemma autoRemove_fallback_can_throw :
  buffer_length [] <= maxFileSize no_options
  /\ priority no_options <> []
  /\ fallbackToLocal no_options = true
  /\ (autoRemoveBackground env_nothing_works all_keys [] no_options []).1
     = Throw (SharpError "Input buffer contains unsupported image format")
  /\ ~ exists r log',
         autoRemoveBackground env_nothing_works all_keys [] no_options [] = (Ok r, log')
         /\ success r = true.
Proof.
  split; [vm_compute; discriminate|].
  split; [discriminate|].
  split; [reflexivity|].
  split; [reflexivity|].
  intros (r & log' & H & _). vm_compute in H. discriminate.
Qed.

(** A priority order of names that resolve to nothing on [this.services]
    behaves as the empty one: with the fallback off, the call throws the
    all-services-failed error and leaves no trace. *)
Lemma autoRemove_skips_unresolved env apiKeys imageBuffer options log :
  buffer_length imageBuffer <= maxFileSize options ->
  Forall (fun p => p <> "local"%string /\ Js.get (services apiKeys) p = Undefined)
    (priority options) ->
  fallbackToLocal options = false ->
  autoRemoveBackground env apiKeys imageBuffer options log = (Throw AllServicesFailed, log).
Proof.
  intros Hsize Hnames Hfallback. unfold autoRemoveBackground.
  rewrite (proj2 (Z.ltb_ge _ _)) by lia. unfold bind.
  assert (try_in_order env apiKeys (priority options) imageBuffer options log
          = (Ok None, log)) as ->.
  { induction Hnames as [|p rest [Hp Hget] _ IH]; [done|].
    by rewrite try_in_order_skips_unresolved. }
  by rewrite Hfallback.
Qed.

(** C10, evaluated on a name inherited from [Object.prototype].
    ["toString"] is neither ["local"] nor a key of [this.services], but
    [this.services["toString"]] is the inherited method, which is truthy:
    [removeWithService] is called, throws for want of an API key, and the
    failure is logged.  With an empty priority order nothing is logged. *)
Theorem autoRemove_inherited_name_not_skipped env apiKeys :
  services apiKeys !! "toString"%string = None
  /\ autoRemoveBackground env apiKeys png_stub (with_priority ["toString"%string] false) []
     = (Throw AllServicesFailed, [EvConsoleWarn "toString" (ApiKeyRequired "toString")])
  /\ autoRemoveBackground env apiKeys png_stub (with_priority [] false) []
     = (Throw AllServicesFailed, []).
Proof. repeat split. Qed.

(** ** The batch runner *)

Section Batch.
Variable env : Env.
Variable apiKeys : ApiKeys.
Variable options : Options.

Lemma autoRemove_settles imageBuffer log :
  (autoRemoveBackground env apiKeys imageBuffer options log).1 <> OutOfFuel.
Proof.
  unfold autoRemoveBackground. case_match; [done|]. unfold bind.
  destruct (try_in_order_returns env apiKeys (priority options) imageBuffer options log)
    as (found & l1 & ->).
  destruct found; [done|]. case_match; [|done].
  apply createBasicTransparency_settles.
Qed.

(** A settled task never rejects, and carries the index it was given. *)
Lemma settle_returns imageBuffer index log :
  exists item log',
    settle (autoRemoveBackground env apiKeys imageBuffer options) index log = (Ok item, log')
    /\ item_index item = index.
Proof.
  unfold settle, try_catch, bind, ret.
  pose proof (autoRemove_settles imageBuffer log) as Hs.
  destruct (autoRemoveBackground _ _ _ _ _) as [[r|e|] l1]; simpl in *;
    [by eexists _, _ | by eexists _, _ | done].
Qed.

Lemma promise_all_indexed (task : nat -> Buffer -> M Log JsError BatchItem) batch i :
  (forall k x log, exists item log',
      task k x log = (Ok item, log') /\ item_index item = i + Z.of_nat k) ->
  forall log, exists items log',
    promise_all (imap task batch) log = (Ok items, log')
    /\ map item_index items = seqZ i (Z.of_nat (length batch)).
Proof.
  revert task i. induction batch as [|x rest IH]; intros task i Htask log.
  - by eexists _, _.
  - simpl imap. simpl promise_all. unfold bind at 1.
    destruct (Htask 0%nat x log) as (item & l1 & -> & Hidx).
    destruct (IH (task ∘ S) (i + 1)) with (log := l1) as (items & l2 & Hrest & Hidxs).
    { intros k y l. destruct (Htask (S k) y l) as (it & l' & ? & ?).
      exists it, l'. split; [done|]. lia. }
    unfold bind at 1. rewrite Hrest. unfold ret.
    exists (item :: items), l2. split; [done|].
    simpl map. rewrite Hidxs, Hidx.
    rewrite (seqZ_cons i) by (simpl length; lia).
    f_equal; [lia|]. f_equal; simpl length; lia.
Qed.

(** One group: its items settle in order, with the indices [i], [i+1], ... *)
Lemma group_returns batch i log :
  exists items log',
    promise_all
      (map_indexed
         (fun buffer index =>
            settle (autoRemoveBackground env apiKeys buffer options) (i + index))
         batch) log
    = (Ok items, log')
    /\ map item_index items = seqZ i (Z.of_nat (length batch)).
Proof.
  unfold map_indexed. apply promise_all_indexed.
  intros k x l. apply settle_returns.
Qed.

(** The group cut at [i] when the limit is positive. *)
Lemma length_slice_group {A} (l : list A) i c :
  0 <= i < Z.of_nat (length l) -> 1 <= c ->
  Z.of_nat (length (slice l i (i + c))) = Z.min c (Z.of_nat (length l) - i).
Proof.
  intros Hi Hc. unfold slice, relative_index.
  rewrite (proj2 (Z.ltb_ge i 0)) by lia.
  rewrite (proj2 (Z.ltb_ge (i + c) 0)) by lia.
  rewrite length_take, length_drop. lia.
Qed.

Lemma batch_loop_returns imageBuffers fuel :
  1 <= concurrent options ->
  forall i results log,
    0 <= i ->
    (Z.to_nat (Z.of_nat (length imageBuffers) - i) < fuel)%nat ->
    map item_index results = seqZ 0 (Z.min i (Z.of_nat (length imageBuffers))) ->
    exists results' log',
      batch_loop env apiKeys fuel imageBuffers options i results log = (Ok results', log')
      /\ map item_index results' = seqZ 0 (Z.of_nat (length imageBuffers)).
Proof.
  intros Hc. induction fuel as [|fuel IH]; intros i results log Hi Hfuel Hinv; [lia|].
  simpl. destruct (i <? Z.of_nat (length imageBuffers)) eqn:Hlt.
  - apply Z.ltb_lt in Hlt.
    destruct (group_returns (slice imageBuffers i (i + concurrent options)) i log)
      as (items & l1 & Hgroup & Hidx).
    unfold bind at 1. rewrite Hgroup.
    assert (exists l2,
      (if i + concurrent options <? Z.of_nat (length imageBuffers)
       then setTimeout 1000 else ret tt) l1 = (Ok tt, l2)) as [l2 Hdelay].
    { case_match; by eexists. }
    unfold bind at 1. rewrite Hdelay.
    apply IH; [lia | lia |].
    rewrite map_app, Hinv, Hidx, length_slice_group by lia.
    rewrite Z.min_l by lia.
    replace (Z.min (i + concurrent options) (Z.of_nat (length imageBuffers)))
      with (i + Z.min (concurrent options) (Z.of_nat (length imageBuffers) - i)) by lia.
    rewrite seqZ_app by lia. done.
  - apply Z.ltb_ge in Hlt. rewrite Z.min_r in Hinv by lia.
    by eexists _, _.
Qed.

Lemma length_filter_split {A} (P : A -> Prop) `{forall x, Decision (P x)} (l : list A) :
  (length (filter P l) + length (filter (fun x => ~ P x) l) = length l)%nat.
Proof.
  induction l as [|x l IH]; [done|].
  rewrite !filter_cons. destruct (decide (P x)); destruct (decide (~ P x));
    simpl; try lia; tauto.
Qed.

End Batch.

(** C2, as the code has it.  For every list of image buffers and every
    concurrency limit of at least 1, [batchRemoveBackground] returns (it
    neither throws nor loops: any loop budget above the number of images is
    enough) an outcome whose [total] is the number of images, whose results
    carry the indices [0, 1, ..., total - 1] in that order, and whose
    [successful] and [failed] counts add up to [total], whatever the single
    removals do. *)
Theorem batch_returns_in_order env apiKeys imageBuffers options log fuel :
  1 <= concurrent options ->
  (length imageBuffers < fuel)%nat ->
  exists outcome log',
    batchRemoveBackground env apiKeys fuel imageBuffers options log = (Ok outcome, log')
    /\ total outcome = Z.of_nat (length imageBuffers)
    /\ map item_index (results outcome) = seqZ 0 (Z.of_nat (length imageBuffers))
    /\ successful outcome + failed outcome = total outcome.
Proof.
  intros Hc Hfuel. unfold batchRemoveBackground, bind.
  destruct (batch_loop_returns env apiKeys options imageBuffers fuel Hc 0 [] log)
    as (rs & log' & -> & Hidx); [lia | lia | by rewrite Z.min_l by lia |].
  eexists _, _. split; [reflexivity|]. simpl.
  assert (length rs = length imageBuffers) as Hlen.
  { apply (f_equal length) in Hidx. rewrite length_map, length_seqZ in Hidx. lia. }
  split; [lia|]. split; [done|].
  pose proof (length_filter_split (fun r => item_success r = true) rs). lia.
Qed.

(** Four images in groups of three, none of which can be decoded: four
    failures, indexed 0 to 3. *)
Lemma batch_returns_in_order_witness :
  exists outcome log',
    batchRemoveBackground env_nothing_works no_keys 5
      [png_stub; png_stub; png_stub; png_stub] no_options [] = (Ok outcome, log')
    /\ total outcome = 4
    /\ map item_index (results outcome) = seqZ 0 4
    /\ successful outcome + failed outcome = total outcome.
Proof.
  apply (batch_returns_in_order env_nothing_works no_keys
           [png_stub; png_stub; png_stub; png_stub] no_options [] 5).
  - vm_compute. discriminate.
  - simpl. lia.
Defined.

Lemma batch_loop_zero_limit env apiKeys fuel results log :
  (batch_loop env apiKeys fuel [png_stub] (with_concurrent 0) 0 results log).1 = OutOfFuel.
Proof.
  revert results log. induction fuel as [|fuel IH]; intros results log; [done|].
  simpl. unfold bind, ret, setTimeout. simpl. apply IH.
Qed.

(** C2 as stated fails for the concurrency limit 0: the loop counter never
    advances, so for one image the call returns under no loop budget. *)
Lemma batch_zero_limit_never_returns :
  ~ exists fuel outcome log',
      batchRemoveBackground env_codec_works all_keys fuel [png_stub] (with_concurrent 0) []
      = (Ok outcome, log').
Proof.
  intros (fuel & outcome & log' & H).
  unfold batchRemoveBackground, bind in H.
  pose proof (batch_loop_zero_limit env_codec_works all_keys fuel [] []) as Hloop.
  destruct (batch_loop _ _ _ _ _ _ _ _) as [[rs|e|] l1]; simpl in Hloop; simplify_eq.
Qed.

(** The literal 0.02 is the quotient of 2 by 100, correctly rounded. *)
Lemma two_cents_literal : two_cents = Double.div (Double.of_Z 2) (Double.of_Z 100).
Proof. reflexivity. Qed.

(** C3, as the code has it.  The estimated cost of a batch outcome is the
    product [successful.length * 0.02], in double arithmetic, of the number
    of successful items and a flat 0.02, whichever provider resolved each
    item; the [cost] field of the results is not read. *)
Theorem batch_estimated_cost_flat env apiKeys fuel imageBuffers options log outcome log' :
  batchRemoveBackground env apiKeys fuel imageBuffers options log = (Ok outcome, log') ->
  successful outcome
  = Z.of_nat (length (filter (fun r => item_success r = true) (results outcome)))
  /\ estimatedCost outcome = Double.mul (Double.of_Z (successful outcome)) two_cents.
Proof.
  unfold batchRemoveBackground, bind, ret. intros H.
  destruct (batch_loop _ _ _ _ _ _ _ _) as [[rs| |] l1]; simplify_eq. done.
Qed.

(** Thirty-five successes are estimated at 0.7000000000000001, the double
    0x1.6666666666667p-1, one unit in the last place above the double
    nearest to 0.7. *)
Lemma batch_estimated_cost_flat_witness :
  exists outcome log',
    batchRemoveBackground env_codec_works all_keys 36 (replicate 35 png_stub) no_options []
    = (Ok outcome, log')
    /\ successful outcome = 35
    /\ estimatedCost outcome = SpecFloat.S754_finite false 6305039478318695 (-53).
Proof.
  eexists _, _. split; [vm_compute; reflexivity|].
  exact (batch_estimated_cost_flat env_codec_works all_keys 36 (replicate 35 png_stub)
           no_options [] _ _ eq_refl).
Defined.

(** C3 as stated fails: with the default priority order the local model
    resolves the image at cost 0, no paid provider is contacted, and the
    estimated cost is 0.02 all the same. *)
Lemma batch_charges_local_items :
  exists outcome log',
    batchRemoveBackground env_codec_works all_keys 2 [png_stub] no_options []
    = (Ok outcome, log')
    /\ (forall item, item ∈ results outcome ->
          exists r index, item = ItemOk r index
                          /\ service r = "Local: U^2-Net"%string /\ cost r = 0%Q)
    /\ omap (fun e => match e with EvPost request => Some request | _ => None end) log' = []
    /\ estimatedCost outcome = two_cents
    /\ estimatedCost outcome <> Double.zero.
Proof.
  eexists _, _. split; [reflexivity|]. simpl. split.
  - intros item Hin. apply list_elem_of_singleton in Hin as ->. by eexists _, _.
  - repeat split. vm_compute. discriminate.
Qed.

(** ** Background replacement *)

Lemma resize_when_dimensions_differ (fgMetadata bgMetadata : Metadata) backgroundBuffer
    foregroundBuffer :
  chain
    (chain
       (if bool_decide (width fgMetadata <> width bgMetadata)
           || bool_decide (height fgMetadata <> height bgMetadata)
        then chain (sharp backgroundBuffer)
               (Resize (width fgMetadata) (height fgMetadata) Cover)
        else sharp backgroundBuffer)
       (Composite [ {| input := foregroundBuffer; raw := None;
                       tile := false; blend := Over |} ]))
    (Jpeg 90)
  = composite_pipeline fgMetadata bgMetadata backgroundBuffer foregroundBuffer.
Proof.
  unfold composite_pipeline.
  destruct (decide (width fgMetadata = width bgMetadata)) as [Hw|Hw];
    destruct (decide (height fgMetadata = height bgMetadata)) as [Hh|Hh].
  - rewrite !bool_decide_eq_false_2 by tauto. by rewrite bool_decide_eq_true_2.
  - rewrite (bool_decide_eq_true_2 (height _ <> _)) by done.
    rewrite orb_true_r. by rewrite (bool_decide_eq_false_2 (_ /\ _)) by tauto.
  - rewrite (bool_decide_eq_true_2 (width _ <> _)) by done.
    by rewrite (bool_decide_eq_false_2 (_ /\ _)) by tauto.
  - rewrite (bool_decide_eq_true_2 (width _ <> _)) by done.
    by rewrite (bool_decide_eq_false_2 (_ /\ _)) by tauto.
Qed.

(** C9, as the code has it.  When [replaceBackground] returns, it has run
    [autoRemoveBackground] on the image, read the dimensions of the
    processed foreground and of the background, and encoded the processed
    foreground; the last thing it asked of the codec is
    [composite_pipeline]: the background, resized with cover fit to the
    foreground's dimensions only when the dimensions differ, that encoded
    foreground laid over it, encoded as JPEG at quality 90.  The buffer of
    the result is what the codec answered for this pipeline.  The result
    says [image/jpeg]; the options play no part in the encoding. *)
Theorem replaceBackground_composes_jpeg env apiKeys imageBuffer backgroundBuffer
    options log result log' :
  replaceBackground env apiKeys imageBuffer backgroundBuffer options log
  = (Ok result, log') ->
  exists foreground log0 fgMetadata bgMetadata foregroundBuffer,
    autoRemoveBackground env apiKeys imageBuffer options log = (Ok foreground, log0)
    /\ sharp_metadata env log0 (buffer foreground) = inr fgMetadata
    /\ sharp_metadata env (EvMetadata (buffer foreground) :: log0) backgroundBuffer
       = inr bgMetadata
    /\ sharp_toBuffer env
         (EvMetadata backgroundBuffer :: EvMetadata (buffer foreground) :: log0)
         (sharp (buffer foreground))
       = inr foregroundBuffer
    /\ sharp_toBuffer env
         (EvToBuffer (sharp (buffer foreground))
          :: EvMetadata backgroundBuffer :: EvMetadata (buffer foreground) :: log0)
         (composite_pipeline fgMetadata bgMetadata backgroundBuffer foregroundBuffer)
       = inr (rep_buffer result)
    /\ log' = EvToBuffer (composite_pipeline fgMetadata bgMetadata backgroundBuffer
                            foregroundBuffer)
              :: EvToBuffer (sharp (buffer foreground))
              :: EvMetadata backgroundBuffer
              :: EvMetadata (buffer foreground) :: log0
    /\ ops (composite_pipeline fgMetadata bgMetadata backgroundBuffer foregroundBuffer)
       = (if bool_decide (width fgMetadata = width bgMetadata
                          /\ height fgMetadata = height bgMetadata)
          then [] else [Resize (width fgMetadata) (height fgMetadata) Cover])
         ++ [Composite [ {| input := foregroundBuffer; raw := None;
                            tile := false; blend := Over |} ];
             Jpeg 90]
    /\ rep_success result = true
    /\ rep_contentType result = "image/jpeg"%string
    /\ rep_dimensions result = (width fgMetadata, height fgMetadata).
Proof.
  unfold replaceBackground, try_catch. intros H.
  unfold bind at 1 in H.
  destruct (autoRemoveBackground env apiKeys imageBuffer options log)
    as [[foreground|e|] log0] eqn:Hauto; [|done..].
  unfold bind at 1, metadata at 1 in H.
  destruct (sharp_metadata env log0 (buffer foreground)) as [?|fgMetadata] eqn:Hfg; [done|].
  unfold bind at 1, metadata at 1 in H.
  destruct (sharp_metadata env _ backgroundBuffer) as [?|bgMetadata] eqn:Hbg; [done|].
  unfold bind at 1, toBuffer at 1 in H.
  destruct (sharp_toBuffer env _ (sharp (buffer foreground)))
    as [?|foregroundBuffer] eqn:Hfgbuf; [done|].
  rewrite resize_when_dimensions_differ in H.
  unfold bind, toBuffer, ret in H.
  destruct (sharp_toBuffer env _ (composite_pipeline _ _ _ _)) as [?|out] eqn:Hout; [done|].
  simplify_eq.
  by exists foreground, log0, fgMetadata, bgMetadata, foregroundBuffer.
Qed.

(** The processed foreground is 4 bytes wide, the background 8: the
    background is resized. *)
Lemma replaceBackground_composes_jpeg_witness :
  exists result log',
    replaceBackground env_codec_measures all_keys png_stub (png_stub ++ png_stub)
      no_options [] = (Ok result, log')
    /\ head log'
       = Some (EvToBuffer
                 {| source := FromBuffer (png_stub ++ png_stub);
                    ops := [Resize 4 1 Cover;
                            Composite [ {| input := png_stub; raw := None;
                                           tile := false; blend := Over |} ];
                            Jpeg 90] |})
    /\ rep_contentType result = "image/jpeg"%string.
Proof.
  eexists _, _. split; [reflexivity|].
  destruct (replaceBackground_composes_jpeg env_codec_measures all_keys png_stub
              (png_stub ++ png_stub) no_options [] _ _ eq_refl)
    as (fg & l0 & fgm & bgm & fgb & _ & _ & _ & _ & _ & _ & _ & _ & Htype & _).
  split; [reflexivity | exact Htype].
Defined.

(** C9 as stated fails on the output format: the caller asks for PNG in
    the options, and the composite is still encoded as JPEG and labelled
    [image/jpeg]. *)
Lemma replaceBackground_ignores_format :
  exists result p rest,
    opt_format (with_format "png") = Some "png"%string
    /\ replaceBackground env_codec_works all_keys png_stub png_stub
         (with_format "png") [] = (Ok result, EvToBuffer p :: rest)
    /\ last (ops p) = Some (Jpeg 90)
    /\ (Png ∉ ops p)
    /\ rep_contentType result = "image/jpeg"%string.
Proof.
  eexists _, _, _. split; [reflexivity|]. split; [reflexivity|].
  split; [reflexivity|]. split; [|reflexivity].
  simpl. intros Hin. repeat (apply elem_of_cons in Hin as [Hin|Hin]; [discriminate|]).
  by apply elem_of_nil in Hin.
Qed.

End RemoveBgProofs.

(** * Properties of [PDFCompressor] *)

Module CompressPdfProofs.
Import Js CompressPdf.

Lemma runs_cons_exec c l : runs (EvExec c :: l) = runs l ++ [run_of c].
Proof. unfold runs. simpl. by rewrite omap_app. Qed.

Lemma runs_cons_other e l :
  (forall c, e <> EvExec c) -> runs (e :: l) = runs l.
Proof.
  intros He. unfold runs. simpl. rewrite omap_app. simpl.
  destruct e; try by rewrite app_nil_r. by destruct (He command).
Qed.

Lemma runs_app new old : runs (new ++ old) = runs old ++ runs new.
Proof. unfold runs. by rewrite rev_app_distr, omap_app. Qed.

(** ** Cleanup, whatever the environment does *)

Lemma cleanup_event_not_now e : is_cleanup_event e -> not_now e.
Proof. by destruct e. Qed.

Lemma generated_app d l1 l2 : generated d (l1 ++ l2) = generated d l1 ++ generated d l2.
Proof. unfold generated. apply bind_app. Qed.

Lemma generated_not_now d l : Forall not_now l -> generated d l = [].
Proof.
  induction 1 as [|e l He _ IH]; [done|].
  change (e :: l) with ([e] ++ l). rewrite generated_app, IH.
  by destruct e.
Qed.

Lemma runs_cleanup l : Forall is_cleanup_event l -> runs l = [].
Proof.
  induction 1 as [|e l He _ IH]; [done|].
  rewrite runs_cons_other; [done|]. intros c ->. done.
Qed.

Lemma reported_app_l env p l1 l2 : reported env p l1 -> reported env p (l1 ++ l2).
Proof. intros [[e He] ?]. split; [|done]. exists e. apply elem_of_app. by left. Qed.

Lemma reported_app_r env p l1 l2 : reported env p l2 -> reported env p (l1 ++ l2).
Proof. intros [[e He] ?]. split; [|done]. exists e. apply elem_of_app. by right. Qed.

Section Cleanup.
Variable env : Env.

(** Deleting one file never throws; afterwards the file is gone, or the
    failure to delete it has been reported.  No other file is touched. *)
Lemma cleanup_one_spec p w :
  exists new w',
    cleanup_one env p w = (Ok tt, w')
    /\ log w' = new ++ log w
    /\ Forall is_cleanup_event new
    /\ (forall q, q <> p -> files w' !! q = files w !! q)
    /\ (files w' !! p = None \/ reported env p new).
Proof.
  unfold cleanup_one, try_catch, unlink, fs_call.
  destruct (fs_fault env (log w) (OpUnlink p)) as [f|] eqn:Hfault.
  - exists [EvConsoleWarn p (FsError (Failure f)); EvFs (OpUnlink p)]. eexists.
    split; [reflexivity|]. simpl. split; [done|].
    split; [by repeat constructor|]. split; [done|].
    right. split; [|by exists (log w), f]. eexists. apply elem_of_cons. by left.
  - destruct (files w !! p) as [content|] eqn:Hp.
    + exists [EvFs (OpUnlink p)]. eexists. split; [reflexivity|]. simpl.
      split; [done|]. split; [by repeat constructor|]. split.
      * intros q Hq. by apply lookup_delete_ne.
      * left. apply lookup_delete_eq.
    + exists [EvFs (OpUnlink p)]. eexists. split; [reflexivity|]. simpl.
      split; [done|]. split; [by repeat constructor|]. split; [done|]. by left.
Qed.

Lemma cleanup_all_spec ps w :
  exists new w' settled,
    promise_all (map (cleanup_one env) ps) w = (Ok settled, w')
    /\ log w' = new ++ log w
    /\ Forall is_cleanup_event new
    /\ (forall q, q ∉ ps -> files w' !! q = files w !! q)
    /\ (forall p, p ∈ ps -> files w' !! p = None \/ reported env p new).
Proof.
  revert w. induction ps as [|a rest IH]; intros w.
  - exists [], w, []. repeat split; try done. intros p Hp. by apply elem_of_nil in Hp.
  - destruct (cleanup_one_spec a w) as (new1 & w1 & Hrun1 & Hlog1 & Hev1 & Hframe1 & Hgone1).
    destruct (IH w1) as (new2 & w2 & settled2 & Hrun2 & Hlog2 & Hev2 & Hframe2 & Hgone2).
    exists (new2 ++ new1), w2, (tt :: settled2).
    split. { simpl. unfold bind at 1. rewrite Hrun1. unfold bind, ret. by rewrite Hrun2. }
    split. { by rewrite Hlog2, Hlog1, app_assoc. }
    split. { by apply Forall_app. }
    split.
    + intros q Hq. apply not_elem_of_cons in Hq as [Hqa Hq].
      by rewrite Hframe2, Hframe1.
    + intros p Hp. destruct (decide (p ∈ rest)) as [Hin|Hout].
      * destruct (Hgone2 p Hin); [by left|]. right. by apply reported_app_l.
      * apply elem_of_cons in Hp as [->|?]; [|done].
        rewrite (Hframe2 a Hout).
        destruct Hgone1; [by left|]. right. by apply reported_app_r.
Qed.

(** [cleanupFiles] never throws: a failed deletion is reported and
    swallowed.  Each listed file is afterwards gone or reported. *)
Lemma cleanupFiles_spec ps w :
  exists new w',
    cleanupFiles env ps w = (Ok tt, w')
    /\ log w' = new ++ log w
    /\ Forall is_cleanup_event new
    /\ (forall q, q ∉ ps -> files w' !! q = files w !! q)
    /\ (forall p, p ∈ ps -> files w' !! p = None \/ reported env p new).
Proof.
  destruct (cleanup_all_spec ps w) as (new & w' & settled & Hrun & Hrest).
  exists new, w'. split; [|done].
  unfold cleanupFiles, bind, ret. by rewrite Hrun.
Qed.

End Cleanup.

(** ** One attempt, and what follows it *)

Lemma try_catch_bind {W E A B} (m : M W E A) (k : A -> M W E B) (h : E -> M W E B) w :
  try_catch (bind m k) h w
  = match m w with
    | (Ok a, w') => try_catch (k a) h w'
    | (Throw e, w') => h e w'
    | (OutOfFuel, w') => (OutOfFuel, w')
    end.
Proof. unfold try_catch, bind. by destruct (m w) as [[a|e|] w']. Qed.

Lemma bind_ext {W E A B} (m : M W E A) (k k' : A -> M W E B) w :
  (forall a w', k a w' = k' a w') -> bind m k w = bind m k' w.
Proof. intros H. unfold bind. destruct (m w) as [[a|e|] w']; auto. Qed.

Lemma try_catch_ext {W E A} (m m' : M W E A) h w :
  m w = m' w -> try_catch m h w = try_catch m' h w.
Proof. unfold try_catch. by intros ->. Qed.

Section Attempt.
Variable env : Env.

Lemma quiet_ret {A} (a : A) : quiet (ret a).
Proof. by intros w. Qed.

Lemma quiet_throw {A} e : quiet (@throw World JsError A e).
Proof. by intros w. Qed.

Lemma quiet_bind {A B} (m : M World JsError A) (k : A -> M World JsError B) :
  quiet m -> (forall a, quiet (k a)) -> quiet (bind m k).
Proof.
  intros Hm Hk w. unfold bind. destruct (Hm w) as [Hs Hr].
  destruct (m w) as [[a|e|] w1]; simpl in *; [|done..].
  destruct (Hk a w1) as [Hs' Hr']. split; [done | congruence].
Qed.

Lemma quiet_try_catch {A} (m : M World JsError A) (h : JsError -> M World JsError A) :
  quiet m -> (forall e, quiet (h e)) -> quiet (try_catch m h).
Proof.
  intros Hm Hh w. unfold try_catch. destruct (Hm w) as [Hs Hr].
  destruct (m w) as [[a|e|] w1]; simpl in *; [done| |done].
  destruct (Hh e w1) as [Hs' Hr']. split; [done | congruence].
Qed.

Lemma quiet_fs_call {A} op (action : Files -> ErrCode + (A * Files)) :
  quiet (fs_call env op action).
Proof.
  intros w. unfold fs_call.
  destruct (fs_fault env (log w) op); [|destruct (action (files w)) as [?|[? ?]]];
    simpl; by rewrite runs_cons_other.
Qed.

Lemma quiet_now : quiet (now env).
Proof. intros w. unfold now. simpl. by rewrite runs_cons_other. Qed.

Lemma quiet_console_log n : quiet (console_log n).
Proof. intros w. simpl. by rewrite runs_cons_other. Qed.

Lemma quiet_cleanupFiles ps : quiet (cleanupFiles env ps).
Proof.
  intros w. destruct (cleanupFiles_spec env ps w) as (new & w' & -> & Hlog & Hev & _).
  simpl. by rewrite Hlog, runs_app, (runs_cleanup new Hev), app_nil_r.
Qed.

Lemma runs_once_throw r {A} e : runs_once r (@throw World JsError A e).
Proof. intros w. by left. Qed.

Lemma runs_once_bind_l r {A B} (m : M World JsError A) (k : A -> M World JsError B) :
  quiet m -> (forall a, runs_once r (k a)) -> runs_once r (bind m k).
Proof.
  intros Hm Hk w. unfold bind. destruct (Hm w) as [Hs Hr].
  destruct (m w) as [[a|e|] w1]; simpl in *; [|by left|done].
  specialize (Hk a w1). rewrite Hr in Hk. done.
Qed.

Lemma runs_once_bind_r r {A B} (m : M World JsError A) (k : A -> M World JsError B) :
  runs_once r m -> (forall a, quiet (k a)) -> runs_once r (bind m k).
Proof.
  intros Hm Hk w. unfold bind. specialize (Hm w).
  destruct (m w) as [[a|e|] w1]; [|done..].
  destruct (Hk a w1) as [Hs Hr].
  destruct (k a w1) as [[b|e|] w2]; simpl in *; [congruence|right; congruence|done].
Qed.

(** A handler that does not run a tool and throws. *)
Lemma runs_once_try_rethrow r {A} (m : M World JsError A) (h : JsError -> M World JsError A) :
  runs_once r m ->
  (forall e w, exists e' w', h e w = (Throw e', w') /\ runs (log w') = runs (log w)) ->
  runs_once r (try_catch m h).
Proof.
  intros Hm Hh w. unfold try_catch. specialize (Hm w).
  destruct (m w) as [[a|e|] w1]; [done| |done].
  destruct (Hh e w1) as (e' & w' & -> & Hr). rewrite Hr. done.
Qed.

Lemma runs_once_tool_call c outputPath wrap :
  runs_once (run_of c)
    (try_catch
       (bind (execPromise env c)
          (fun _ => bind (stat_size env outputPath)
             (fun size => ret {| tool_success := true; tool_size := size |})))
       (fun error => throw (wrap error))).
Proof.
  apply runs_once_try_rethrow; [|intros e w; by eexists _, _].
  apply runs_once_bind_r.
  - intros w. unfold execPromise. cbv zeta.
    destruct (exec_error _); simpl; rewrite runs_cons_exec; [by right|done].
  - intros _. apply quiet_bind; [apply quiet_fs_call | intros; apply quiet_ret].
Qed.

(** The [switch] on the method runs the tool as [expected_run] says, or
    throws at once. *)
Lemma runs_once_tool inputPath outputPath options :
  runs_once (expected_run options (quality options))
    (if decide (toLowerCase (method options) = "ghostscript"%string) then
       compressWithGhostscript env inputPath outputPath (quality options)
     else if decide (toLowerCase (method options) = "qpdf"%string) then
       compressWithQPdf env inputPath outputPath options
     else throw (UnsupportedMethod (method options))).
Proof.
  unfold expected_run.
  destruct (decide (toLowerCase (method options) = "ghostscript"%string)).
  - apply (runs_once_tool_call (Gs _ _ _ _)).
  - destruct (decide (toLowerCase (method options) = "qpdf"%string)).
    + apply (runs_once_tool_call (Qpdf _ _ _ _ _)).
    + apply runs_once_throw.
Qed.

Lemma handler_rethrows ps e {A} w :
  exists e' w',
    bind (swallow (cleanupFiles env ps)) (fun _ => @throw World JsError A e) w
    = (Throw e', w')
    /\ e' = e /\ runs (log w') = runs (log w).
Proof.
  unfold bind, swallow, try_catch.
  destruct (cleanupFiles_spec env ps w) as (new & w' & -> & Hlog & Hev & _).
  eexists _, _. split; [reflexivity|]. split; [done|].
  by rewrite Hlog, runs_app, (runs_cleanup new Hev), app_nil_r.
Qed.

(** An attempt runs the tool once, as [expected_run] says, before it
    returns. *)
Lemma attempt_runs_once inputBuffer options :
  runs_once (expected_run options (quality options)) (attempt env inputBuffer options).
Proof.
  unfold attempt.
  apply runs_once_bind_l; [apply quiet_fs_call|]. intros _.
  apply runs_once_bind_l; [apply quiet_now|]. intros t.
  apply runs_once_bind_l; [apply quiet_fs_call|]. intros _.
  apply runs_once_bind_r; [apply runs_once_tool|]. intros result.
  apply quiet_bind; [apply quiet_fs_call|]. intros compressedBuffer.
  apply quiet_bind; [apply quiet_cleanupFiles|]. intros _. apply quiet_ret.
Qed.

(** At quality ["screen"] the recursive call is dead code: one level of
    [compress] is all there is, and it runs the tool at most once. *)
Lemma compress_screen_fuel fuel inputBuffer options w :
  quality options = "screen"%string ->
  compress env (S fuel) inputBuffer options w = compress env 1 inputBuffer options w.
Proof.
  intros Hq. cbn [compress].
  apply bind_ext; intros _ w0. apply bind_ext; intros t w1.
  apply try_catch_ext. apply bind_ext; intros _ w2. apply bind_ext; intros result w3.
  apply bind_ext; intros compressedBuffer w4. apply bind_ext; intros _ w5.
  rewrite Hq. rewrite bool_decide_eq_true_2 by done. by rewrite andb_false_r.
Qed.

Lemma compress_screen_runs_once inputBuffer options :
  quality options = "screen"%string ->
  runs_once (expected_run options "screen") (compress env 1 inputBuffer options).
Proof.
  intros Hq. cbn [compress].
  apply runs_once_bind_l; [apply quiet_fs_call|]. intros _.
  apply runs_once_bind_l; [apply quiet_now|]. intros t.
  apply runs_once_try_rethrow.
  2:{ intros e w.
      match goal with |- context [cleanupFiles env ?ps] =>
        destruct (handler_rethrows ps e (A:=CompressResult) w) as (e' & w' & -> & _ & Hr)
      end.
      by eexists _, _. }
  apply runs_once_bind_l; [apply quiet_fs_call|]. intros _.
  apply runs_once_bind_r; [rewrite <- Hq; apply runs_once_tool|]. intros result.
  apply quiet_bind; [apply quiet_fs_call|]. intros compressedBuffer.
  apply quiet_bind; [apply quiet_cleanupFiles|]. intros _.
  rewrite Hq. rewrite bool_decide_eq_true_2 by done. rewrite andb_false_r.
  apply quiet_ret.
Qed.

(** What [compress] does once its first attempt has gone through: it returns
    the output, or it logs the size and calls itself with quality
    ["screen"]; an error of that call passes through the [catch] block. *)
Lemma compress_after_attempt fuel inputBuffer options w out w1 :
  attempt env inputBuffer options w = (Ok out, w1) ->
  exists inputPath outputPath,
    compress env (S fuel) inputBuffer options w
    = if exceeds (buffer_length out) (maxSizeMB options)
         && negb (bool_decide (quality options = "screen"%string))
      then
        match compress env fuel inputBuffer (with_quality "screen" options)
                (emit (EvConsoleLog (buffer_length out)) w1) with
        | (Throw e, w') =>
            bind (swallow (cleanupFiles env [inputPath; outputPath]))
              (fun _ => throw e) w'
        | settled => settled
        end
      else
        (Ok {| success := true;
               originalSize := buffer_length inputBuffer;
               compressedSize := buffer_length out;
               reduction :=
                 if decide (buffer_length inputBuffer = 0) then None
                 else Some ((inject_Z (buffer_length inputBuffer - buffer_length out)
                             / inject_Z (buffer_length inputBuffer) * 100)%Q);
               buffer := out;
               methodUsed := method options |}, w1).
Proof.
  unfold attempt. cbn [compress]. intros H.
  unfold bind at 1 in H. unfold bind at 1.
  destruct (mkdir env (tempDir options) w) as [[[]|e|] w0]; [|done..].
  unfold bind at 1 in H. unfold bind at 1. unfold now at 1 in H. unfold now at 1.
  cbv zeta in *.
  set (inputPath := {| dir := _; kind := InputPdf |}) in *.
  set (outputPath := {| dir := _; kind := CompressedPdf |}) in *.
  exists inputPath, outputPath.
  rewrite try_catch_bind. unfold bind at 1 in H.
  destruct (writeFile env inputPath inputBuffer _) as [[[]|e|] w2]; [|done..].
  rewrite try_catch_bind. unfold bind at 1 in H.
  match type of H with
  | context [match ?tool w2 with _ => _ end] =>
      destruct (tool w2) as [[result|e|] w3]; [|done..]
  end.
  rewrite try_catch_bind. unfold bind at 1 in H.
  destruct (readFile env outputPath w3) as [[compressedBuffer|e|] w4]; [|done..].
  rewrite try_catch_bind. unfold bind at 1 in H.
  destruct (cleanupFiles env [inputPath; outputPath] w4) as [[[]|e|] w5]; [|done..].
  unfold ret in H. simplify_eq.
  destruct (exceeds _ _ && _); [|done].
  rewrite try_catch_bind. unfold console_log at 1.
  unfold try_catch.
  by destruct (compress env fuel _ _ _) as [[r|e|] w'].
Qed.

Lemma tool_call_output c (outputPath : Path) wrap w result w' :
  command_output c = outputPath ->
  try_catch
    (bind (execPromise env c)
       (fun _ => bind (stat_size env outputPath)
          (fun size => ret {| tool_success := true; tool_size := size |})))
    (fun error => throw (wrap error)) w = (Ok result, w') ->
  exec_error (exec env (log w) (files w) c) = None
  /\ files w' = match written (exec env (log w) (files w) c) with
                | Some content => <[outputPath := content]> (files w)
                | None => files w
                end.
Proof.
  intros Hc. unfold try_catch, bind, execPromise, stat_size, fs_call, ret, throw.
  cbv zeta. rewrite Hc.
  destruct (exec_error _) as [msg|]; [done|]. simpl.
  destruct (fs_fault env _ _); [done|].
  destruct (_ !! outputPath); [|done]. intros ?; by simplify_eq.
Qed.

(** The output of an attempt comes from the tool: the command ran on the
    input as it was written to the input file, exited normally, and what it
    wrote to its output file, if it wrote it, is the output. *)
Lemma attempt_output inputBuffer options w out w1 :
  attempt env inputBuffer options w = (Ok out, w1) ->
  exists l fs c,
    run_of c = expected_run options (quality options)
    /\ fs !! command_input c = Some inputBuffer
    /\ exec_error (exec env l fs c) = None
    /\ (forall content, written (exec env l fs c) = Some content -> out = content).
Proof.
  unfold attempt. intros H.
  unfold bind at 1 in H.
  destruct (mkdir env (tempDir options) w) as [[[]|e|] w0]; [|done..].
  unfold bind at 1, now at 1 in H. cbv zeta in H.
  set (inputPath := {| dir := _; kind := InputPdf |}) in *.
  set (outputPath := {| dir := _; kind := CompressedPdf |}) in *.
  unfold bind at 1, writeFile at 1, fs_call at 1 in H.
  destruct (fs_fault env _ (OpWriteFile inputPath)); [done|].
  set (w2 := {| files := <[inputPath:=inputBuffer]> _ |}) in H.
  unfold bind at 1 in H.
  assert (forall c wrap result w3,
            command_output c = outputPath -> command_input c = inputPath ->
            run_of c = expected_run options (quality options) ->
            try_catch
              (bind (execPromise env c)
                 (fun _ => bind (stat_size env outputPath)
                    (fun size => ret {| tool_success := true; tool_size := size |})))
              (fun error => throw (wrap error)) w2 = (Ok result, w3) ->
            bind (readFile env outputPath)
              (fun compressedBuffer =>
                 bind (cleanupFiles env [inputPath; outputPath])
                   (fun _ => ret compressedBuffer)) w3 = (Ok out, w1) ->
            exists l fs c,
              run_of c = expected_run options (quality options)
              /\ fs !! command_input c = Some inputBuffer
              /\ exec_error (exec env l fs c) = None
              /\ (forall content, written (exec env l fs c) = Some content -> out = content))
    as Htool.
  { intros c wrap result w3 Hout Hin Hrun Hcall Hrest.
    destruct (tool_call_output c outputPath wrap w2 result w3 Hout Hcall) as [Herr Hfiles].
    exists (log w2), (files w2), c. split; [done|]. split.
    { rewrite Hin. subst w2. simpl. apply lookup_insert_eq. }
    split; [done|]. intros content Hcontent. rewrite Hcontent in Hfiles.
    unfold bind at 1, readFile, fs_call in Hrest.
    destruct (fs_fault env _ _); [done|]. rewrite Hfiles, lookup_insert_eq in Hrest.
    unfold bind in Hrest.
    destruct (cleanupFiles env _ _) as [[[]|?|] ?]; [|done..].
    unfold ret in Hrest. by simplify_eq. }
  unfold expected_run in *.
  destruct (decide (toLowerCase (method options) = "ghostscript"%string)).
  - unfold compressWithGhostscript in H. cbv zeta in H.
    match type of H with context [execPromise env ?c] => pose (c0 := c) end.
    destruct (try_catch _ _ w2) as [[result|?|] w3] eqn:Hcall; [|done..].
    by apply (Htool c0 GhostscriptFailed result w3).
  - destruct (decide (toLowerCase (method options) = "qpdf"%string)).
    + unfold compressWithQPdf in H. cbv zeta in H.
      match type of H with context [execPromise env ?c] => pose (c0 := c) end.
      destruct (try_catch _ _ w2) as [[result|?|] w3] eqn:Hcall; [|done..].
      by apply (Htool c0 QpdfFailed result w3).
    + done.
Qed.

End Attempt.

Lemma expected_run_with_quality options q q' :
  expected_run (with_quality q options) q' = expected_run options q'.
Proof. done. Qed.

(** C4, as the code has it.  Whenever an attempt has gone through with an
    output that exceeds the budget, at a quality other than ["screen"],
    [compress] calls itself once with quality ["screen"], whatever the
    starting quality was: its outcome is the outcome of that one call, which
    never calls itself again.  The tool has run once at the starting
    quality; after that it runs at most once more, as ["screen"] asks (for
    Ghostscript the preset [/screen] at 72 dpi), and exactly once more when
    the call returns a result.  No level in between is tried. *)
Theorem compress_retries_at_screen env fuel inputBuffer options w out w1 :
  attempt env inputBuffer options w = (Ok out, w1) ->
  exceeds (buffer_length out) (maxSizeMB options) = true ->
  quality options <> "screen"%string ->
  (2 <= fuel)%nat ->
  let retry :=
    compress env 1 inputBuffer (with_quality "screen" options)
      (emit (EvConsoleLog (buffer_length out)) w1) in
  (compress env fuel inputBuffer options w).1 = retry.1
  /\ retry.1 <> OutOfFuel
  /\ exists rest,
       runs (log (compress env fuel inputBuffer options w).2)
       = runs (log w) ++ expected_run options (quality options) :: rest
       /\ (rest = [] \/ rest = [expected_run options "screen"])
       /\ (forall r, retry.1 = Ok r -> rest = [expected_run options "screen"]).
Proof.
  intros Hattempt Hbig Hq Hfuel retry. destruct fuel as [|[|fuel]]; [lia..|].
  destruct (compress_after_attempt env (S fuel) inputBuffer options w out w1 Hattempt)
    as (inputPath & outputPath & ->).
  rewrite Hbig, bool_decide_eq_false_2 by done. cbn [andb negb].
  rewrite compress_screen_fuel by done. fold retry.
  pose proof (attempt_runs_once env inputBuffer options w) as Hfirst.
  rewrite Hattempt in Hfirst.
  pose proof (compress_screen_runs_once env inputBuffer (with_quality "screen" options)
                eq_refl (emit (EvConsoleLog (buffer_length out)) w1)) as Hretry.
  fold retry in Hretry. rewrite expected_run_with_quality in Hretry.
  assert (runs (log (emit (EvConsoleLog (buffer_length out)) w1))
          = runs (log w) ++ [expected_run options (quality options)]) as Hw2.
  { simpl. by rewrite runs_cons_other. }
  rewrite Hw2 in Hretry.
  destruct retry as [[r|e|] w'] eqn:Hr; [| |done].
  - split; [done|]. split; [done|]. exists [expected_run options "screen"].
    simpl. rewrite Hretry, <- app_assoc. split; [done|]. split; [by right|done].
  - destruct (handler_rethrows env [inputPath; outputPath] e (A:=CompressResult) w')
      as (e' & w'' & -> & -> & Hruns).
    split; [done|]. split; [done|]. simpl. rewrite Hruns.
    destruct Hretry as [->| ->].
    + exists []. split; [done|]. split; [by left|done].
    + exists [expected_run options "screen"]. rewrite <- app_assoc.
      split; [done|]. split; [by right|done].
Qed.

Lemma compress_retries_at_screen_witness :
  exists r w',
    compress env_tools_work 2 pdf_stub (with_budget "printer" one_byte) empty_world
    = (Ok r, w')
    /\ runs (log w') = [RunGs "/printer" 150; RunGs "/screen" 72].
Proof.
  set (options := with_budget "printer" one_byte).
  pose (w1 := (attempt env_tools_work pdf_stub options empty_world).2).
  assert (attempt env_tools_work pdf_stub options empty_world = (Ok pdf_stub, w1))
    as Hfirst by (vm_compute; reflexivity).
  destruct (compress_retries_at_screen env_tools_work 2 pdf_stub options empty_world
              pdf_stub w1 Hfirst)
    as (Hsame & _ & rest & Hruns & _ & Hrest); [done|discriminate|lia|].
  assert (exists r,
            (compress env_tools_work 1 pdf_stub (with_quality "screen" options)
               (emit (EvConsoleLog (buffer_length pdf_stub)) w1)).1 = Ok r)
    as [r Hr] by (vm_compute; by eexists).
  rewrite (Hrest r Hr) in Hruns. rewrite Hr in Hsame.
  destruct (compress env_tools_work 2 pdf_stub options empty_world) as [res w'].
  cbn [fst snd] in Hsame, Hruns. subst res.
  exists r, w'. split; [reflexivity | exact Hruns].
Defined.

(** C4 as stated fails: from ["prepress"] the next more aggressive level
    would be ["printer"], but the retry is at ["screen"]; the preset
    [/printer] is never run. *)
Lemma compress_skips_levels :
  exists r w',
    compress env_tools_work 5 pdf_stub (with_budget "prepress" one_byte) empty_world
    = (Ok r, w')
    /\ runs (log w') = [RunGs "/prepress" 150; RunGs "/screen" 72]
    /\ RunGs "/printer" 150 ∉ runs (log w').
Proof.
  eexists _, _. split; [vm_compute; reflexivity|]. split; [vm_compute; reflexivity|].
  vm_compute runs. intros Hin.
  repeat (apply elem_of_cons in Hin as [Hin|Hin]; [discriminate|]).
  by apply elem_of_nil in Hin.
Qed.

(** C5, as the code has it.  Take an attempt that has gone through with an
    output over the budget.  Started at quality ["screen"], [compress]
    returns that output as a successful result after this single run, with
    no further attempt.  Started at another quality, when the attempt it
    then makes at ["screen"] goes through with an output over the budget
    again, [compress] returns that second output as a successful result (it
    does not throw): the buffer is what the run at ["screen"] wrote, the
    sizes are the lengths of the input and of that buffer, and the tool has
    run twice, at the starting quality and at ["screen"].  A loop budget of
    2 is enough in both cases: the recursion is one level deep. *)
Theorem compress_over_budget_terminates env fuel inputBuffer options w out w1 :
  attempt env inputBuffer options w = (Ok out, w1) ->
  exceeds (buffer_length out) (maxSizeMB options) = true ->
  (2 <= fuel)%nat ->
  let result_with (last : Buffer) :=
    {| success := true;
       originalSize := buffer_length inputBuffer;
       compressedSize := buffer_length last;
       reduction :=
         if decide (buffer_length inputBuffer = 0) then None
         else Some ((inject_Z (buffer_length inputBuffer - buffer_length last)
                     / inject_Z (buffer_length inputBuffer) * 100)%Q);
       buffer := last;
       methodUsed := method options |} in
  (quality options = "screen"%string ->
   compress env fuel inputBuffer options w = (Ok (result_with out), w1)
   /\ runs (log w1) = runs (log w) ++ [expected_run options "screen"])
  /\ (quality options <> "screen"%string ->
      forall out' w',
        attempt env inputBuffer (with_quality "screen" options)
          (emit (EvConsoleLog (buffer_length out)) w1) = (Ok out', w') ->
        exceeds (buffer_length out') (maxSizeMB options) = true ->
        compress env fuel inputBuffer options w = (Ok (result_with out'), w')
        /\ exceeds (compressedSize (result_with out')) (maxSizeMB options) = true
        /\ runs (log w')
           = runs (log w) ++ [expected_run options (quality options);
                              expected_run options "screen"]
        /\ exists l fs c,
             run_of c = expected_run options "screen"
             /\ fs !! command_input c = Some inputBuffer
             /\ exec_error (exec env l fs c) = None
             /\ (forall content,
                   written (exec env l fs c) = Some content -> out' = content)).
Proof.
  intros Hattempt Hbig Hfuel result_with. destruct fuel as [|[|fuel]]; [lia..|].
  pose proof (attempt_runs_once env inputBuffer options w) as Hfirst.
  rewrite Hattempt in Hfirst.
  destruct (compress_after_attempt env (S fuel) inputBuffer options w out w1 Hattempt)
    as (inputPath & outputPath & Hcompress).
  split.
  - intros Hq. rewrite Hcompress, Hq.
    rewrite bool_decide_eq_true_2, andb_false_r by done.
    split; [done|]. by rewrite Hfirst, Hq.
  - intros Hq out' w' Hretry Hbig'.
    rewrite Hcompress, Hbig, bool_decide_eq_false_2 by done. cbn [andb negb].
    destruct (compress_after_attempt env fuel inputBuffer (with_quality "screen" options)
                _ out' w' Hretry) as (ip & op & ->).
    rewrite bool_decide_eq_true_2, andb_false_r by done.
    split; [done|]. split; [done|].
    pose proof (attempt_runs_once env inputBuffer (with_quality "screen" options)
                  (emit (EvConsoleLog (buffer_length out)) w1)) as Hsecond.
    rewrite Hretry in Hsecond. rewrite Hsecond. simpl.
    rewrite runs_cons_other by done. split; [by rewrite Hfirst, <- app_assoc|].
    apply (attempt_output env inputBuffer (with_quality "screen" options) _ out' w' Hretry).
Qed.

Lemma compress_over_budget_terminates_witness :
  exists w',
    compress env_tools_work 2 pdf_stub (with_budget "ebook" one_byte) empty_world
    = (Ok {| success := true; originalSize := 4; compressedSize := 4;
             reduction := Some ((inject_Z 0 / inject_Z 4 * 100)%Q);
             buffer := pdf_stub; methodUsed := "ghostscript" |}, w')
    /\ exceeds 4 one_byte = true
    /\ runs (log w') = [RunGs "/ebook" 150; RunGs "/screen" 72].
Proof.
  set (options := with_budget "ebook" one_byte).
  pose (w1 := (attempt env_tools_work pdf_stub options empty_world).2).
  assert (attempt env_tools_work pdf_stub options empty_world = (Ok pdf_stub, w1))
    as Hfirst by (vm_compute; reflexivity).
  pose (w2 := (attempt env_tools_work pdf_stub (with_quality "screen" options)
                 (emit (EvConsoleLog (buffer_length pdf_stub)) w1)).2).
  assert (attempt env_tools_work pdf_stub (with_quality "screen" options)
            (emit (EvConsoleLog (buffer_length pdf_stub)) w1) = (Ok pdf_stub, w2))
    as Hsecond by (vm_compute; reflexivity).
  destruct (compress_over_budget_terminates env_tools_work 2 pdf_stub options empty_world
              pdf_stub w1 Hfirst)
    as [_ Hretry]; [done|lia|].
  destruct (Hretry ltac:(discriminate) pdf_stub w2 Hsecond eq_refl)
    as (Hrun & Hbig & Hruns & _).
  exists w2. split; [exact Hrun|]. split; [exact Hbig | exact Hruns].
Defined.

(** C5 as stated fails when the starting quality is ["screen"]: the output
    is over the budget, and the most aggressive level is not tried once
    more; the single run is all. *)
Lemma compress_at_screen_tries_once :
  exists r w',
    compress env_tools_work 5 pdf_stub (with_budget "screen" one_byte) empty_world
    = (Ok r, w')
    /\ exceeds (compressedSize r) one_byte = true
    /\ runs (log w') = [RunGs "/screen" 72].
Proof.
  eexists _, _. split; [vm_compute; reflexivity|]. split; reflexivity.
Qed.

(** ** Temp files on every exit path *)

Section Confinement.
Variable env : Env.

Lemma touches_refl S w : touches S w w.
Proof. by exists []. Qed.

Lemma touches_trans S w1 w2 w3 : touches S w1 w2 -> touches S w2 w3 -> touches S w1 w3.
Proof.
  intros (n1 & Hl1 & Hn1 & Hf1) (n2 & Hl2 & Hn2 & Hf2).
  exists (n2 ++ n1). split; [by rewrite Hl2, Hl1, app_assoc|].
  split; [by apply Forall_app|]. intros q Hq. by rewrite Hf2, Hf1.
Qed.

Lemma confined_ret S {A} (a : A) : confined S (ret a).
Proof. intros w. split; [done|]. apply touches_refl. Qed.

Lemma confined_throw S {A} e : confined S (@throw World JsError A e).
Proof. intros w. split; [done|]. apply touches_refl. Qed.

Lemma confined_bind S {A B} (m : M World JsError A) (k : A -> M World JsError B) :
  confined S m -> (forall a, confined S (k a)) -> confined S (bind m k).
Proof.
  intros Hm Hk w. unfold bind. destruct (Hm w) as [Hs Ht].
  destruct (m w) as [[a|e|] w1]; simpl in *; [|done..].
  destruct (Hk a w1) as [Hs' Ht']. split; [done|]. by eapply touches_trans.
Qed.

Lemma confined_try_catch S {A} (m : M World JsError A) (h : JsError -> M World JsError A) :
  confined S m -> (forall e, confined S (h e)) -> confined S (try_catch m h).
Proof.
  intros Hm Hh w. unfold try_catch. destruct (Hm w) as [Hs Ht].
  destruct (m w) as [[a|e|] w1]; simpl in *; [done| |done].
  destruct (Hh e w1) as [Hs' Ht']. split; [done|]. by eapply touches_trans.
Qed.

Lemma confined_fs_call S {A} op (action : Files -> ErrCode + (A * Files)) :
  (forall fs a fs', action fs = inr (a, fs') -> forall q, q ∉ S -> fs' !! q = fs !! q) ->
  confined S (fs_call env op action).
Proof.
  intros Haction w. unfold fs_call.
  destruct (fs_fault env (log w) op).
  { split; [done|]. exists [EvFs op]. by repeat constructor. }
  destruct (action (files w)) as [code|[a fs']] eqn:Hact.
  { split; [done|]. exists [EvFs op]. by repeat constructor. }
  split; [done|]. exists [EvFs op]. split; [done|]. split; [by repeat constructor|].
  simpl. by eapply Haction.
Qed.

Lemma confined_mkdir d : confined [] (mkdir env d).
Proof. apply confined_fs_call. intros; by simplify_eq. Qed.

Lemma confined_writeFile S p content : p ∈ S -> confined S (writeFile env p content).
Proof.
  intros Hp. apply confined_fs_call. intros fs a fs' Heq q Hq. simplify_eq.
  apply lookup_insert_ne. by intros ->.
Qed.

Lemma confined_stat_size S p : confined S (stat_size env p).
Proof. apply confined_fs_call. intros fs a fs' Heq q Hq. by case_match; simplify_eq. Qed.

Lemma confined_readFile S p : confined S (readFile env p).
Proof. apply confined_fs_call. intros fs a fs' Heq q Hq. by case_match; simplify_eq. Qed.

Lemma confined_execPromise S c : command_output c ∈ S -> confined S (execPromise env c).
Proof.
  intros Hc w. unfold execPromise.
  assert (touches S w
            {| files := match written (exec env (log w) (files w) c) with
                        | Some content => <[command_output c:=content]> (files w)
                        | None => files w
                        end;
               log := EvExec c :: log w |}) as Ht.
  { exists [EvExec c]. split; [done|]. split; [by repeat constructor|].
    intros q Hq. simpl. case_match; [|done]. apply lookup_insert_ne. by intros <-. }
  cbv zeta. destruct (exec_error _); (split; [done | exact Ht]).
Qed.

(** The [switch] on the method stays within the two temp files. *)
Lemma confined_tool inputPath outputPath options :
  confined [inputPath; outputPath]
    (if decide (toLowerCase (method options) = "ghostscript"%string) then
       compressWithGhostscript env inputPath outputPath (quality options)
     else if decide (toLowerCase (method options) = "qpdf"%string) then
       compressWithQPdf env inputPath outputPath options
     else throw (UnsupportedMethod (method options))).
Proof.
  assert (outputPath ∈ [inputPath; outputPath]) as Hout by set_solver.
  repeat case_match.
  - apply confined_try_catch; [|intros; apply confined_throw].
    apply confined_bind; [by apply confined_execPromise|]. intros _.
    apply confined_bind; [apply confined_stat_size|]. intros; apply confined_ret.
  - apply confined_try_catch; [|intros; apply confined_throw].
    apply confined_bind; [by apply confined_execPromise|]. intros _.
    apply confined_bind; [apply confined_stat_size|]. intros; apply confined_ret.
  - apply confined_throw.
Qed.

End Confinement.

Section ExitPaths.
Variable env : Env.
Variable d : string.

Local Abbreviation pending := (CompressPdf.pending env d).
Local Abbreviation settled := (CompressPdf.settled env d).

Lemma touches_pending S w w' : touches S w w' -> pending S w w'.
Proof.
  intros (new & Hlog & Hnow & Hframe). exists new. split; [done|].
  rewrite (generated_not_now d new Hnow). split; [by auto|].
  intros p _ Hp. by apply elem_of_nil in Hp.
Qed.

Lemma settled_pending S w w' : settled S w w' -> pending S w w'.
Proof.
  intros (new & Hlog & Hframe & Hgone). exists new. by auto.
Qed.

(** Running [cleanupFiles S] settles what was pending. *)
Lemma pending_cleanup S w w2 :
  pending S w w2 -> settled S w (cleanupFiles env S w2).2.
Proof.
  intros (new & Hlog & Hframe & Hgone).
  destruct (cleanupFiles_spec env S w2) as (new' & w3 & -> & Hlog' & Hev & Hframe' & Hgone').
  simpl. exists (new' ++ new). split; [by rewrite Hlog', Hlog, app_assoc|].
  rewrite generated_app, (generated_not_now d new')
    by (eapply Forall_impl; [done | apply cleanup_event_not_now]).
  simpl. split.
  - intros q Hq Hgen. by rewrite Hframe', Hframe.
  - intros p Hp. destruct (decide (p ∈ S)) as [Hin|Hout].
    + destruct (Hgone' p Hin); [by left|]. right. by apply reported_app_l.
    + destruct Hp as [?|Hp]; [done|]. rewrite (Hframe' p Hout).
      destruct (Hgone p Hout Hp); [by left|]. right. by apply reported_app_r.
Qed.

(** A nested invocation that settles its own files keeps the files of [S]
    settled. *)
Lemma settled_nested S w w3 e w4 :
  settled S w w3 -> not_now e -> settled [] (emit e w3) w4 -> settled S w w4.
Proof.
  intros (n1 & Hl1 & Hf1 & Hg1) He (n2 & Hl2 & Hf2 & Hg2).
  exists (n2 ++ e :: n1). split.
  { rewrite Hl2. simpl. rewrite Hl1. by rewrite <- app_assoc. }
  assert (generated d (n2 ++ e :: n1) = generated d n2 ++ generated d n1) as ->.
  { rewrite generated_app. change (e :: n1) with ([e] ++ n1).
    rewrite generated_app. by destruct e. }
  assert (forall q, q ∉ generated d n2 -> files w4 !! q = files w3 !! q) as Hsame.
  { intros q Hq. rewrite Hf2; [done | apply not_elem_of_nil | done]. }
  split.
  - intros q Hq Hgen. apply not_elem_of_app in Hgen as [Hg2' Hg1'].
    by rewrite Hsame, Hf1.
  - intros p Hp. destruct (decide (p ∈ generated d n2)) as [Hin|Hout].
    + destruct (Hg2 p (or_intror Hin)); [by left|]. right. by apply reported_app_l.
    + rewrite (Hsame p Hout).
      assert (p ∈ S \/ p ∈ generated d n1) as Hp1.
      { destruct Hp as [?|Hp]; [by left|]. apply elem_of_app in Hp as [?|?]; [done|by right]. }
      destruct (Hg1 p Hp1); [by left|]. right.
      apply reported_app_r. change (e :: n1) with ([e] ++ n1). by apply reported_app_r.
Qed.

(** The catch block of [compress]. *)
Lemma handler_settles S w w2 e {A} :
  pending S w w2 ->
  settled S w (bind (swallow (cleanupFiles env S)) (fun _ => @throw _ _ A e) w2).2.
Proof.
  intros Hp. apply pending_cleanup in Hp.
  unfold bind, swallow, try_catch.
  destruct (cleanupFiles_spec env S w2) as (new' & w3 & Heq & _).
  rewrite Heq in *. done.
Qed.

(** From the files of one invocation to the invocation as a whole. *)
Lemma settled_invocation t w w0 w' :
  touches [] w w0 ->
  settled (generated d [EvNow t]) (emit (EvNow t) w0) w' ->
  settled [] w w'.
Proof.
  intros (n0 & Hl0 & Hn0 & Hf0) (n & Hl & Hf & Hg).
  exists (n ++ EvNow t :: n0). split.
  { rewrite Hl. simpl. rewrite Hl0. by rewrite <- app_assoc. }
  assert (generated d (n ++ EvNow t :: n0) = generated d n ++ generated d [EvNow t]) as ->.
  { rewrite generated_app. change (EvNow t :: n0) with ([EvNow t] ++ n0).
    rewrite generated_app, (generated_not_now d n0 Hn0). by rewrite app_nil_r. }
  split.
  - intros q _ Hq. apply not_elem_of_app in Hq as [Hq1 Hq2].
    rewrite Hf by done. simpl. apply Hf0, not_elem_of_nil.
  - intros p [Hp|Hp]; [by apply elem_of_nil in Hp|].
    assert (p ∈ generated d [EvNow t] \/ p ∈ generated d n) as Hp'.
    { apply elem_of_app in Hp as [?|?]; [by right|by left]. }
    destruct (Hg p Hp'); [by left|]. right. by apply reported_app_l.
Qed.

Lemma touches_settled w w' : touches [] w w' -> settled [] w w'.
Proof.
  intros (new & Hlog & Hnow & Hframe). exists new. split; [done|].
  rewrite (generated_not_now d new Hnow). split; [by auto|].
  intros p [Hp|Hp]; by apply elem_of_nil in Hp.
Qed.

(** One step of a [try] block that stays within [S]: either it throws and
    the catch block takes over, or the rest of the block runs. *)
Lemma try_step S {A B} (m : M World JsError A) (k : A -> M World JsError B)
    (h : JsError -> M World JsError B) w1 w2 (P : World -> Prop) :
  confined S m ->
  touches S w1 w2 ->
  (forall e w3, touches S w1 w3 -> P (h e w3).2) ->
  (forall a w3, touches S w1 w3 -> P (try_catch (k a) h w3).2) ->
  P (try_catch (bind m k) h w2).2.
Proof.
  intros Hm Ht Hthrow Hok. rewrite try_catch_bind.
  destruct (Hm w2) as [Hs Ht'].
  destruct (m w2) as [[a|e|] w3]; simpl in *; [| |done].
  - apply Hok. by eapply touches_trans.
  - apply Hthrow. by eapply touches_trans.
Qed.

Lemma compress_settles fuel inputBuffer options w :
  tempDir options = d ->
  settled [] w (compress env fuel inputBuffer options w).2.
Proof.
  revert options w. induction fuel as [|fuel IH]; intros options w Hd.
  { apply touches_settled, touches_refl. }
  cbn [compress]. unfold bind at 1.
  destruct (confined_mkdir env (tempDir options) w) as [Hs0 Ht0].
  destruct (mkdir env (tempDir options) w) as [[[]|e|] w0]; simpl in Hs0, Ht0;
    [|by apply touches_settled|done].
  unfold bind at 1, now at 1. cbv zeta. rewrite Hd.
  set (t := date_now env (log w0)).
  apply (settled_invocation t w w0); [done|].
  set (inputPath := {| dir := d; kind := InputPdf; stamp := t |}).
  set (outputPath := {| dir := d; kind := CompressedPdf; stamp := t |}).
  change (generated d [EvNow t]) with [inputPath; outputPath].
  set (S := [inputPath; outputPath]).
  set (w1 := emit (EvNow t) w0).
  set (h := fun error : JsError => _).
  assert (forall e w3, touches S w1 w3 -> settled S w1 (h e w3).2) as Hcatch.
  { intros e w3 Ht. apply handler_settles. by apply touches_pending. }
  apply (try_step S _ _ h w1 w1);
    [apply confined_writeFile; set_solver | apply touches_refl | done |].
  intros _ w2 Ht2.
  apply (try_step S _ _ h w1 w2); [apply confined_tool | done | done |].
  intros result w3 Ht3.
  apply (try_step S _ _ h w1 w3); [apply confined_readFile | done | done |].
  intros compressedBuffer w4 Ht4.
  rewrite try_catch_bind.
  pose proof (pending_cleanup S w1 w4 (touches_pending S w1 w4 Ht4)) as Hs5.
  destruct (cleanupFiles_spec env S w4) as (new5 & w5 & Heq & _).
  rewrite Heq in *. simpl in Hs5.
  destruct (exceeds _ _ && _).
  - rewrite try_catch_bind. unfold console_log at 1.
    pose proof (IH (with_quality "screen" options)
                  (emit (EvConsoleLog (buffer_length compressedBuffer)) w5) Hd) as Hin.
    apply (settled_nested S w1 w5) in Hin; [|done..].
    unfold try_catch.
    destruct (compress env fuel _ _ _) as [[r|e|] w6]; simpl in Hin; [done| |done].
    apply handler_settles. by apply settled_pending.
  - done.
Qed.
End ExitPaths.

(** C6, as the code has it.  Whatever the environment does and however the
    invocation ends (result, thrown error, or the retry), in the world
    [compress] leaves: every temp file named after a timestamp drawn during
    the invocation is absent, or else the file system refused to delete it
    and that failure was reported on the console; in particular all of them
    are absent when no [unlink] fails.  No other file has changed.  And
    [cleanupFiles] never throws, so a failed cleanup cannot replace the
    result or the error of the invocation. *)
Theorem compress_cleans_up_on_every_exit env fuel inputBuffer options w :
  exists new,
    log (compress env fuel inputBuffer options w).2 = new ++ log w
    /\ (forall p, p ∈ generated (tempDir options) new ->
          files (compress env fuel inputBuffer options w).2 !! p = None
          \/ reported env p new)
    /\ ((forall l p, fs_fault env l (OpUnlink p) = None) ->
        forall p, p ∈ generated (tempDir options) new ->
          files (compress env fuel inputBuffer options w).2 !! p = None)
    /\ (forall q, q ∉ generated (tempDir options) new ->
          files (compress env fuel inputBuffer options w).2 !! q = files w !! q)
    /\ (forall paths w0, exists w1, cleanupFiles env paths w0 = (Ok tt, w1)).
Proof.
  destruct (compress_settles env (tempDir options) fuel inputBuffer options w eq_refl)
    as (new & Hlog & Hframe & Hgone).
  exists new. split; [done|]. split; [by auto|]. split; [|split].
  - intros Hnofault p Hp. destruct (Hgone p (or_intror Hp)) as [?|[_ (l & f & Hf)]]; [done|].
    by rewrite Hnofault in Hf.
  - intros q Hq. apply Hframe; [apply not_elem_of_nil | done].
  - intros paths w0. destruct (cleanupFiles_spec env paths w0) as (? & w1 & ? & _).
    by exists w1.
Qed.

(** C6 as stated fails when the file system refuses the deletions:
    [compress] returns its result, and both temp files of the invocation
    are still there. *)
Lemma compress_leaves_files_when_unlink_fails :
  exists r w' t,
    compress env_unlink_denied 2 pdf_stub no_options empty_world = (Ok r, w')
    /\ EvNow t ∈ log w'
    /\ files w' !! {| dir := "./temp"; kind := InputPdf; stamp := t |} = Some pdf_stub
    /\ is_Some (files w' !! {| dir := "./temp"; kind := CompressedPdf; stamp := t |}).
Proof.
  eexists _, _, 1. split; [vm_compute; reflexivity|].
  split; [|split].
  - vm_compute log. set_solver.
  - vm_compute. reflexivity.
  - eexists. vm_compute. reflexivity.
Qed.

End CompressPdfProofs.

(** * Further properties of [BackgroundRemover] *)

Module RemoveBgExtraProofs.
Import Js RemoveBg RemoveBgExtra RemoveBgProofs.

Lemma posts_cons_other e log :
  (forall request, e <> EvPost request) -> posts (e :: log) = posts log.
Proof. intros He. destruct e; try done. by destruct (He request). Qed.

(** The three registered services, and nothing else. *)
Lemma services_lookup apiKeys serviceName s :
  services apiKeys !! serviceName = Some s ->
  (serviceName = "removebg"%string /\ apiKey s = key_removebg apiKeys
   /\ name s = "Remove.bg"%string /\ costPerImage s = (2 # 100)%Q)
  \/ (serviceName = "backgrounds"%string /\ apiKey s = key_backgrounds apiKeys
      /\ name s = "BackgroundRemover.ai"%string /\ costPerImage s = (3 # 100)%Q)
  \/ (serviceName = "clipdrop"%string /\ apiKey s = key_clipdrop apiKeys
      /\ name s = "Clipdrop by Stability AI"%string /\ costPerImage s = (10 # 100)%Q).
Proof.
  unfold services. rewrite !lookup_insert_Some, lookup_empty.
  intros [[<- <-]|[_ [[<- <-]|[_ [[<- <-]|[_ ?]]]]]]; try done;
    [by left | by right; left | by right; right].
Qed.

Lemma truthy_nonempty key : truthy (Some key) = true -> key <> ""%string.
Proof. simpl. intros H ->. done. Qed.

Section Requests.
Variable env : Env.
Variable apiKeys : ApiKeys.

(** A call to a remote service sends at most one request, and that one is
    addressed to the service asked for. *)
Lemma removeWithService_posts serviceName imageBuffer options log :
  let out := removeWithService env apiKeys serviceName imageBuffer options log in
  posts out.2 = posts log
  \/ exists s request,
       services apiKeys !! serviceName = Some s
       /\ addressed_to s imageBuffer request
       /\ posts out.2 = request :: posts log.
Proof.
  cbv zeta. unfold removeWithService.
  destruct (Js.get (services apiKeys) serviceName) as [s|i|] eqn:Hget;
    [|by left|by left].
  apply get_services_inv in Hget.
  destruct (apiKey s) as [key|] eqn:Hkey; [|by left].
  destruct (truthy (Some key)) eqn:Htruthy; [|by left].
  right. eexists s, _. split; [done|].
  unfold bind at 1, post at 1.
  split; last first.
  { destruct (axios_post env log _) as [error|response]; [|reflexivity].
    unfold_async. split_cases. }
  split; [done|]. split; [by rewrite Hkey|]. split; [|done]. by apply truthy_nonempty.
Qed.

Lemma removeWithLocalModel_posts modelName imageBuffer options log :
  posts (removeWithLocalModel env modelName imageBuffer options log).2 = posts log.
Proof. unfold removeWithLocalModel. unfold_async. split_cases. Qed.

Lemma createBasicTransparency_posts imageBuffer log :
  posts (createBasicTransparency env imageBuffer log).2 = posts log.
Proof. unfold createBasicTransparency. unfold_async. split_cases. Qed.

Lemma try_provider_posts p imageBuffer options log :
  let out := try_provider env apiKeys p imageBuffer options log in
  posts out.2 = posts log
  \/ exists s request,
       services apiKeys !! p = Some s
       /\ addressed_to s imageBuffer request
       /\ posts out.2 = request :: posts log.
Proof.
  cbv zeta. unfold try_provider. case_decide.
  - left. unfold bind, ret.
    pose proof (removeWithLocalModel_posts "u2net" imageBuffer options log) as H'.
    by destruct (removeWithLocalModel _ _ _ _ _) as [[?|?|] ?].
  - pose proof (removeWithService_posts p imageBuffer options log) as H'.
    destruct (Js.get (services apiKeys) p); [| |by left]; unfold bind, ret;
      by destruct (removeWithService _ _ _ _ _ _) as [[?|?|] ?].
Qed.

(** The loop over the priority order sends at most one request per entry,
    each to a registered service named in the order, with its own key. *)
Lemma try_in_order_posts names imageBuffer options log :
  exists new,
    posts (try_in_order env apiKeys names imageBuffer options log).2 = new ++ posts log
    /\ (length new <= length names)%nat
    /\ Forall (fun request =>
                 exists serviceName s,
                   serviceName ∈ names /\ services apiKeys !! serviceName = Some s
                   /\ addressed_to s imageBuffer request) new.
Proof.
  revert log. induction names as [|p rest IH]; intros log.
  { by exists []. }
  simpl try_in_order. unfold bind at 1. unfold try_catch.
  pose proof (try_provider_posts p imageBuffer options log) as Hp.
  pose proof (try_provider_settles env apiKeys p imageBuffer options log) as Hs.
  destruct (try_provider env apiKeys p imageBuffer options log) as [[[r|]|e|] l1];
    simpl in Hp, Hs; [| | |done].
  - simpl. destruct Hp as [->|(s & request & Hs' & Hto & ->)].
    + exists []. split; [done|]. split; [simpl; lia | done].
    + exists [request]. split; [done|]. split; [simpl; lia|].
      repeat constructor. exists p, s. split; [by apply elem_of_cons; left | done].
  - destruct (IH l1) as (new & -> & Hlen & Hall).
    assert (Forall (fun request => exists serviceName s,
                serviceName ∈ p :: rest /\ services apiKeys !! serviceName = Some s
                /\ addressed_to s imageBuffer request) new) as Hall'.
    { eapply Forall_impl; [done|]. intros request (n & s & ? & ?). exists n, s.
      split; [by apply elem_of_cons; right | done]. }
    destruct Hp as [->|(s & request & Hs' & Hto & ->)].
    + exists new. split; [done|]. split; [simpl; lia | done].
    + exists (new ++ [request]). split; [by rewrite <- app_assoc|].
      split; [rewrite length_app; simpl; lia|].
      apply Forall_app. split; [done|]. repeat constructor.
      exists p, s. split; [by apply elem_of_cons; left | done].
  - unfold console_warn, bind, ret.
    destruct (IH (EvConsoleWarn p e :: l1)) as (new & -> & Hlen & Hall).
    rewrite posts_cons_other by done.
    assert (Forall (fun request => exists serviceName s,
                serviceName ∈ p :: rest /\ services apiKeys !! serviceName = Some s
                /\ addressed_to s imageBuffer request) new) as Hall'.
    { eapply Forall_impl; [done|]. intros request (n & s & ? & ?). exists n, s.
      split; [by apply elem_of_cons; right | done]. }
    destruct Hp as [->|(s & request & Hs' & Hto & ->)].
    + exists new. split; [done|]. split; [simpl; lia | done].
    + exists (new ++ [request]). split; [by rewrite <- app_assoc|].
      split; [rewrite length_app; simpl; lia|].
      apply Forall_app. split; [done|]. repeat constructor.
      exists p, s. split; [by apply elem_of_cons; left | done].
Qed.

End Requests.

(** ** What leaves the machine *)

(** X1. [removeWithService] called for a registered service whose API key
    is missing or empty throws "API key for <service name> is required"
    before anything else happens: no request is sent and nothing is
    logged. *)
Theorem removeWithService_without_key env apiKeys serviceName s imageBuffer options log :
  services apiKeys !! serviceName = Some s ->
  truthy (apiKey s) = false ->
  removeWithService env apiKeys serviceName imageBuffer options log
  = (Throw (ApiKeyRequired (name s)), log).
Proof.
  intros Hs Hkey. unfold removeWithService.
  rewrite (get_services_own apiKeys serviceName s Hs).
  destruct (apiKey s) as [key|]; [|done]. by rewrite Hkey.
Qed.

Lemma removeWithService_without_key_witness :
  removeWithService env_second_answers only_removebg_key "clipdrop" png_stub no_options []
  = (Throw (ApiKeyRequired "Clipdrop by Stability AI"), []).
Proof.
  apply (removeWithService_without_key env_second_answers only_removebg_key "clipdrop"
           {| name := "Clipdrop by Stability AI";
              url := "https://clipdrop-api.co/remove-background/v1";
              apiKey := Some ""%string;
              costPerImage := 10 # 100 |} png_stub no_options []);
    reflexivity.
Defined.

(** X2. Whatever the providers answer, one call of [autoRemoveBackground]
    sends at most one HTTP request per entry of the priority order, and
    every request it sends goes to the URL of a registered service that is
    named in the order, carries that service's own non-empty API key and the
    image buffer as it was given. *)
Theorem autoRemove_requests env apiKeys imageBuffer options log :
  exists new,
    posts (autoRemoveBackground env apiKeys imageBuffer options log).2 = new ++ posts log
    /\ (length new <= length (priority options))%nat
    /\ Forall (fun request =>
                 exists serviceName s,
                   serviceName ∈ priority options
                   /\ services apiKeys !! serviceName = Some s
                   /\ addressed_to s imageBuffer request) new.
Proof.
  unfold autoRemoveBackground. case_match.
  { exists []. split; [done|]. split; [simpl; lia | done]. }
  unfold bind.
  destruct (try_in_order_posts env apiKeys (priority options) imageBuffer options log)
    as (new & Hposts & Hlen & Hall).
  destruct (try_in_order_returns env apiKeys (priority options) imageBuffer options log)
    as (found & l1 & Hloop).
  rewrite Hloop in *. simpl in Hposts.
  exists new. split; [|done].
  destruct found as [r|]; [done|]. case_match; [|done].
  by rewrite createBasicTransparency_posts.
Qed.

(** X3. When no usable API key was given to the constructor (each key is
    missing or empty), [autoRemoveBackground] sends no HTTP request,
    whatever the priority order and the options. *)
Theorem autoRemove_no_key_no_request env apiKeys imageBuffer options log :
  no_usable_key apiKeys ->
  posts (autoRemoveBackground env apiKeys imageBuffer options log).2 = posts log.
Proof.
  intros (Ha & Hb & Hc).
  destruct (try_in_order_posts env apiKeys (priority options) imageBuffer options log)
    as (new & Hposts & _ & Hall).
  assert (new = []) as ->.
  { destruct new as [|request new]; [done|].
    apply Forall_cons in Hall as [(n & s & _ & Hs & _ & Hkey & Hne & _) _].
    apply services_lookup in Hs as [(_ & Hk & _)|[(_ & Hk & _)|(_ & Hk & _)]];
      rewrite Hk in Hkey; [rewrite Hkey in Ha|rewrite Hkey in Hb|rewrite Hkey in Hc];
      simpl in *; by destruct (x_api_key request). }
  unfold autoRemoveBackground. case_match; [done|]. unfold bind.
  destruct (try_in_order_returns env apiKeys (priority options) imageBuffer options log)
    as (found & l1 & Hloop).
  rewrite Hloop in *. simpl in Hposts.
  destruct found as [r|]; [done|]. case_match; [|done].
  by rewrite createBasicTransparency_posts.
Qed.

Lemma autoRemove_no_key_no_request_witness :
  posts (autoRemoveBackground env_second_answers no_keys png_stub no_options []).2 = [].
Proof.
  apply (autoRemove_no_key_no_request env_second_answers no_keys png_stub no_options []).
  by repeat split.
Defined.

(** ** Results and errors *)

Lemma try_provider_resolved env apiKeys p imageBuffer options log r log' :
  try_provider env apiKeys p imageBuffer options log = (Ok (Some r), log') ->
  resolved_by apiKeys [p] r.
Proof.
  unfold try_provider. intros H.
  destruct (decide (p = "local"%string)) as [->|Hp].
  - unfold bind, ret in H.
    destruct (removeWithLocalModel _ _ _ _ _) as [[r0| |] l0] eqn:Hl; simplify_eq.
    apply removeWithLocalModel_ok in Hl as (_ & ? & ?).
    left. split; [done|]. split; [done|]. by apply list_elem_of_singleton.
  - destruct (Js.get (services apiKeys) p) eqn:Hget; unfold bind, ret in H;
      try done;
      destruct (removeWithService _ _ _ _ _ _) as [[r0| |] l0] eqn:Hs; simplify_eq;
      apply removeWithService_ok in Hs as (s & ? & _ & ? & ?);
      right; right; exists p, s; (split; [by apply list_elem_of_singleton | done]).
Qed.

Lemma resolved_by_mono apiKeys names names' r :
  names ⊆ names' -> resolved_by apiKeys names r -> resolved_by apiKeys names' r.
Proof.
  intros Hsub [(? & ? & ?)|[?|(n & s & ? & ?)]].
  - left. auto.
  - right. by left.
  - right. right. exists n, s. auto.
Qed.

Lemma try_in_order_resolved env apiKeys names imageBuffer options log r log' :
  try_in_order env apiKeys names imageBuffer options log = (Ok (Some r), log') ->
  resolved_by apiKeys names r.
Proof.
  revert log. induction names as [|p rest IH]; intros log; simpl.
  - unfold ret. intros; simplify_eq.
  - unfold bind at 1. unfold try_catch.
    destruct (try_provider _ _ _ _ _ _) as [[[r0|]| e |] l1] eqn:Hp; simpl; try done.
    + unfold ret. intros; simplify_eq.
      apply try_provider_resolved in Hp.
      eapply resolved_by_mono; [|done]. intros x Hx.
      apply list_elem_of_singleton in Hx as ->. by apply elem_of_cons; left.
    + intros H. eapply resolved_by_mono; [|by eapply IH].
      intros x Hx. by apply elem_of_cons; right.
    + unfold console_warn, bind, ret. intros H.
      eapply resolved_by_mono; [|by eapply IH].
      intros x Hx. by apply elem_of_cons; right.
Qed.

(** X4. A result returned by [autoRemoveBackground] has [success] true,
    belongs to a buffer within [maxFileSize], and comes from the local model
    (if ['local'] is in the priority order), from the basic-transparency
    fallback, or from a registered service named in the priority order, with
    that provider's label and price: its [cost] is 0, 0.02, 0.03 or 0.10. *)
Theorem autoRemove_result_resolved env apiKeys imageBuffer options log r log' :
  autoRemoveBackground env apiKeys imageBuffer options log = (Ok r, log') ->
  success r = true
  /\ buffer_length imageBuffer <= maxFileSize options
  /\ resolved_by apiKeys (priority options) r
  /\ (cost r == 0 \/ cost r == 2 # 100 \/ cost r == 3 # 100 \/ cost r == 10 # 100)%Q.
Proof.
  unfold autoRemoveBackground. case_match eqn:Hsize; [done|].
  apply Z.ltb_ge in Hsize. unfold bind.
  destruct (try_in_order _ _ _ _ _ _) as [[[r0|]|e|] l1] eqn:Hloop; try done.
  - unfold ret. intros ?; simplify_eq.
    pose proof (try_in_order_ok _ _ _ _ _ _ _ _ Hloop) as Hsucc.
    pose proof (try_in_order_resolved _ _ _ _ _ _ _ _ Hloop) as Hres.
    split; [done|]. split; [done|]. split; [done|].
    destruct Hres as [(_ & -> & _)|[(_ & ->)|(n & s & _ & Hs & _ & ->)]];
      [by left | by left |].
    apply services_lookup in Hs as [(_ & _ & _ & ->)|[(_ & _ & _ & ->)|(_ & _ & _ & ->)]];
      right; [by left | by right; left | by right; right].
  - case_match; [|done]. intros Hbasic.
    apply createBasicTransparency_ok in Hbasic as (? & ? & Hcost).
    split; [done|]. split; [done|]. split; [right; by left|]. left. by rewrite Hcost.
Qed.

Lemma autoRemove_result_resolved_witness :
  exists r log',
    autoRemoveBackground env_second_answers all_keys png_stub no_options [] = (Ok r, log')
    /\ service r = "BackgroundRemover.ai"%string
    /\ (cost r == 3 # 100)%Q.
Proof.
  eexists _, _. split; [reflexivity|].
  destruct (autoRemove_result_resolved env_second_answers all_keys png_stub no_options []
              _ _ eq_refl) as (_ & _ & _ & _).
  split; reflexivity.
Defined.

(** X5. [autoRemoveBackground] throws in three ways only: "File too large"
    for a buffer longer than [maxFileSize], with nothing done; "All
    background removal services failed" when the fallback is switched off;
    or, with the fallback on, the image codec's own error from
    [createBasicTransparency].  A provider's error never reaches the
    caller. *)
Theorem autoRemove_errors env apiKeys imageBuffer options log e log' :
  autoRemoveBackground env apiKeys imageBuffer options log = (Throw e, log') ->
  (e = FileTooLarge (maxFileSize options)
   /\ maxFileSize options < buffer_length imageBuffer /\ log' = log)
  \/ (buffer_length imageBuffer <= maxFileSize options
      /\ ((e = AllServicesFailed /\ fallbackToLocal options = false)
          \/ (exists msg, e = SharpError msg /\ fallbackToLocal options = true))).
Proof.
  unfold autoRemoveBackground. case_match eqn:Hsize.
  { apply Z.ltb_lt in Hsize. unfold throw. intros ?; simplify_eq. by left. }
  apply Z.ltb_ge in Hsize. unfold bind. right. split; [done|].
  destruct (try_in_order_returns env apiKeys (priority options) imageBuffer options log)
    as (found & l1 & Hloop).
  rewrite Hloop in H. destruct found as [r|]; [done|].
  destruct (fallbackToLocal options).
  - right. unfold createBasicTransparency in H. unfold_async. split_cases; by eexists.
  - left. unfold throw in H. by simplify_eq.
Qed.

Lemma autoRemove_errors_witness :
  exists log',
    autoRemoveBackground env_payment_required all_keys png_stub
      (with_priority ["removebg"; "clipdrop"]%string false) []
    = (Throw AllServicesFailed, log')
    /\ warnings log' = [("clipdrop"%string, PaymentRequired "Clipdrop by Stability AI");
                        ("removebg"%string, PaymentRequired "Remove.bg")].
Proof.
  eexists. split; [reflexivity|].
  destruct (autoRemove_errors env_payment_required all_keys png_stub
              (with_priority ["removebg"; "clipdrop"]%string false) [] _ _ eq_refl)
    as [_|_]; reflexivity.
Defined.

Lemma autoRemove_throw_kind env apiKeys imageBuffer options log e log' :
  autoRemoveBackground env apiKeys imageBuffer options log = (Throw e, log') ->
  e = FileTooLarge (maxFileSize options) \/ e = AllServicesFailed
  \/ exists msg, e = SharpError msg.
Proof.
  unfold autoRemoveBackground. case_match.
  { unfold throw. intros ?; simplify_eq. by left. }
  unfold bind.
  destruct (try_in_order_returns env apiKeys (priority options) imageBuffer options log)
    as (found & l1 & ->).
  destruct found as [r|]; [done|]. case_match.
  - intros H'. right. right. unfold createBasicTransparency in H'. unfold_async.
    split_cases; by eexists.
  - unfold throw. intros ?; simplify_eq. right. by left.
Qed.

(** X6. [replaceBackground] always settles.  A result has [success] true
    and content type image/jpeg; an error is always "Background replacement
    failed: <cause>", the cause being a too large file, the failure of all
    providers, or an error of the image codec. *)
Theorem replaceBackground_outcomes env apiKeys imageBuffer backgroundBuffer options log :
  match (replaceBackground env apiKeys imageBuffer backgroundBuffer options log).1 with
  | Ok result =>
      rep_success result = true /\ rep_contentType result = "image/jpeg"%string
  | Throw e =>
      exists cause,
        e = BackgroundReplacementFailed cause
        /\ (cause = FileTooLarge (maxFileSize options) \/ cause = AllServicesFailed
            \/ exists msg, cause = SharpError msg)
  | OutOfFuel => False
  end.
Proof.
  unfold replaceBackground, try_catch. unfold bind at 1.
  pose proof (autoRemove_settles env apiKeys options imageBuffer log) as Hsettles.
  destruct (autoRemoveBackground env apiKeys imageBuffer options log)
    as [[foreground|e|] log0] eqn:Hauto; simpl in Hsettles; [| |done].
  - assert (forall msg, exists cause,
              BackgroundReplacementFailed (SharpError msg)
              = BackgroundReplacementFailed cause
              /\ (cause = FileTooLarge (maxFileSize options) \/ cause = AllServicesFailed
                  \/ exists msg, cause = SharpError msg)) as Hcodec.
    { intros msg. eexists. split; [done|]. right. right. by eexists. }
    unfold bind at 1, metadata at 1.
    destruct (sharp_metadata env log0 _) as [msg|fgMetadata]; [by apply Hcodec|].
    unfold bind at 1, metadata at 1.
    destruct (sharp_metadata env _ backgroundBuffer) as [msg|bgMetadata];
      [by apply Hcodec|].
    unfold bind at 1, toBuffer at 1.
    destruct (sharp_toBuffer env _ (sharp _)) as [msg|foregroundBuffer];
      [by apply Hcodec|].
    unfold bind, toBuffer, ret.
    destruct (sharp_toBuffer env _ _) as [msg|out]; [by apply Hcodec|]. done.
  - simpl. exists e. split; [done|]. by eapply autoRemove_throw_kind.
Qed.

(** ** Batches *)

Section BatchMore.
Variable env : Env.
Variable apiKeys : ApiKeys.
Variable options : Options.

Lemma pauses_cons_other e log : is_pause e = false -> pauses (e :: log) = pauses log.
Proof. intros He. unfold pauses. rewrite filter_cons. by rewrite decide_False by (by rewrite He). Qed.

Lemma pauses_cons_pause log : pauses (EvSetTimeout 1000 :: log) = pauses log + 1.
Proof. unfold pauses. rewrite filter_cons. rewrite decide_True by done. simpl length. lia. Qed.

Lemma try_provider_pauses p imageBuffer log :
  pauses (try_provider env apiKeys p imageBuffer options log).2 = pauses log.
Proof.
  unfold try_provider, removeWithLocalModel, removeWithService. unfold_async.
  split_cases; simpl; by rewrite ?pauses_cons_other by done.
Qed.

Lemma try_in_order_pauses names imageBuffer log :
  pauses (try_in_order env apiKeys names imageBuffer options log).2 = pauses log.
Proof.
  revert log. induction names as [|p rest IH]; intros log; [done|].
  simpl try_in_order. unfold bind at 1. unfold try_catch.
  pose proof (try_provider_pauses p imageBuffer log) as Hp.
  destruct (try_provider env apiKeys p imageBuffer options log) as [[[r|]|e|] l1];
    simpl in Hp; [done| |..|done].
  - by rewrite IH.
  - unfold console_warn, bind, ret. rewrite IH. by rewrite pauses_cons_other.
Qed.

Lemma autoRemove_pauses imageBuffer log :
  pauses (autoRemoveBackground env apiKeys imageBuffer options log).2 = pauses log.
Proof.
  unfold autoRemoveBackground. case_match; [done|]. unfold bind.
  pose proof (try_in_order_pauses (priority options) imageBuffer log) as Hp.
  destruct (try_in_order_returns env apiKeys (priority options) imageBuffer options log)
    as (found & l1 & Hloop).
  rewrite Hloop in *. simpl in Hp. destruct found; [done|]. case_match; [|done].
  rewrite <- Hp. unfold createBasicTransparency. unfold_async.
  split_cases; simpl; by rewrite ?pauses_cons_other by done.
Qed.

Lemma settle_reports imageBuffer index log :
  exists item log',
    settle (autoRemoveBackground env apiKeys imageBuffer options) index log = (Ok item, log')
    /\ item_index item = index
    /\ reports_on env apiKeys options imageBuffer item
    /\ pauses log' = pauses log.
Proof.
  unfold settle, try_catch, bind, ret.
  pose proof (autoRemove_settles env apiKeys options imageBuffer log) as Hs.
  pose proof (autoRemove_pauses imageBuffer log) as Hp.
  destruct (autoRemoveBackground _ _ _ _ _) as [[r|e|] l1] eqn:Hauto; simpl in *;
    [| |done].
  - eexists _, _. split; [done|]. split; [done|]. split; [|done].
    exists log. by rewrite Hauto.
  - eexists _, _. split; [done|]. split; [done|]. split; [|done].
    exists log. by rewrite Hauto.
Qed.

Lemma promise_all_pointwise (task : nat -> Buffer -> M Log JsError BatchItem) batch i :
  (forall k x log, exists item log',
      task k x log = (Ok item, log') /\ item_index item = i + Z.of_nat k
      /\ reports_on env apiKeys options x item /\ pauses log' = pauses log) ->
  forall log, exists items log',
    promise_all (imap task batch) log = (Ok items, log')
    /\ map item_index items = seqZ i (Z.of_nat (length batch))
    /\ Forall2 (reports_on env apiKeys options) batch items
    /\ pauses log' = pauses log.
Proof.
  revert task i. induction batch as [|x rest IH]; intros task i Htask log.
  - eexists _, _. by repeat split.
  - simpl imap. simpl promise_all. unfold bind at 1.
    destruct (Htask 0%nat x log) as (item & l1 & -> & Hidx & Hrep & Hp1).
    destruct (IH (task ∘ S) (i + 1)) with (log := l1)
      as (items & l2 & Hrest & Hidxs & Hreps & Hp2).
    { intros k y l. destruct (Htask (S k) y l) as (it & l' & ? & ? & ? & ?).
      exists it, l'. split; [done|]. split; [lia | done]. }
    unfold bind at 1. rewrite Hrest. unfold ret.
    exists (item :: items), l2. split; [done|]. split; [|split].
    + simpl map. rewrite Hidxs, Hidx.
      rewrite (seqZ_cons i) by (simpl length; lia).
      f_equal; [lia|]. f_equal; simpl length; lia.
    + by constructor.
    + by rewrite Hp2.
Qed.

Lemma slice_group (l : list Buffer) i c :
  0 <= i < Z.of_nat (length l) -> 1 <= c ->
  slice l i (i + c)
  = take (Z.to_nat (Z.min c (Z.of_nat (length l) - i))) (drop (Z.to_nat i) l).
Proof.
  intros Hi Hc. unfold slice, relative_index.
  rewrite (proj2 (Z.ltb_ge i 0)) by lia.
  rewrite (proj2 (Z.ltb_ge (i + c) 0)) by lia.
  f_equal; [|f_equal]; lia.
Qed.

Lemma batch_loop_pointwise imageBuffers fuel :
  1 <= concurrent options ->
  forall i results log,
    0 <= i ->
    (Z.to_nat (Z.of_nat (length imageBuffers) - i) < fuel)%nat ->
    map item_index results = seqZ 0 (Z.min i (Z.of_nat (length imageBuffers))) ->
    Forall2 (reports_on env apiKeys options) (take (Z.to_nat i) imageBuffers) results ->
    exists results' log',
      batch_loop env apiKeys fuel imageBuffers options i results log = (Ok results', log')
      /\ map item_index results' = seqZ 0 (Z.of_nat (length imageBuffers))
      /\ Forall2 (reports_on env apiKeys options) imageBuffers results'
      /\ pauses log'
         = pauses log
           + (if i <? Z.of_nat (length imageBuffers)
              then (Z.of_nat (length imageBuffers) - 1 - i) / concurrent options
              else 0).
Proof.
  intros Hc. induction fuel as [|fuel IH]; intros i results log Hi Hfuel Hinv Hrep; [lia|].
  simpl. destruct (i <? Z.of_nat (length imageBuffers)) eqn:Hlt.
  - apply Z.ltb_lt in Hlt.
    set (n := Z.of_nat (length imageBuffers)) in *.
    set (c := concurrent options) in *.
    destruct (promise_all_pointwise
                (fun index buffer =>
                   settle (autoRemoveBackground env apiKeys buffer options)
                     (i + Z.of_nat index))
                (slice imageBuffers i (i + c)) i) with (log := log)
      as (items & l1 & Hgroup & Hidx & Hreps & Hp1).
    { intros k x l. apply settle_reports. }
    unfold map_indexed. unfold bind at 1. rewrite Hgroup.
    assert (Z.of_nat (length (slice imageBuffers i (i + c))) = Z.min c (n - i)) as Hlen.
    { by apply length_slice_group. }
    assert (exists l2,
      (if i + c <? n then setTimeout 1000 else ret tt) l1 = (Ok tt, l2)
      /\ pauses l2 = pauses l1 + (if i + c <? n then 1 else 0)) as (l2 & Hdelay & Hp2).
    { case_match; eexists; (split; [done|]); [apply pauses_cons_pause | simpl; lia]. }
    unfold bind at 1. rewrite Hdelay.
    destruct (IH (i + c) (results ++ items) l2) as (rs & l3 & Hloop & Hidx' & Hrep' & Hp3).
    + lia.
    + lia.
    + rewrite map_app, Hinv, Hidx, Hlen. rewrite Z.min_l by lia.
      replace (Z.min (i + c) n) with (i + Z.min c (n - i)) by lia.
      rewrite seqZ_app by lia. done.
    + rewrite slice_group in Hreps by done. fold n in Hreps.
      destruct (decide (i + c <= n)) as [Hle|Hgt].
      * replace (Z.to_nat (i + c)) with (Z.to_nat i + Z.to_nat (Z.min c (n - i)))%nat by lia.
        rewrite <- take_take_drop. by apply Forall2_app.
      * rewrite take_ge by lia.
        rewrite <- (take_drop (Z.to_nat i) imageBuffers) at 1.
        apply Forall2_app; [done|].
        rewrite take_ge in Hreps; [done|]. rewrite length_drop. lia.
    + exists rs, l3. split; [done|]. split; [done|]. split; [done|].
      rewrite Hp3, Hp2, Hp1.
      destruct (i + c <? n) eqn:Hnext.
      * apply Z.ltb_lt in Hnext.
        replace (n - 1 - i) with ((n - 1 - (i + c)) + 1 * c) by lia.
        rewrite Z.div_add by lia. lia.
      * apply Z.ltb_ge in Hnext. rewrite Z.div_small by lia. lia.
  - apply Z.ltb_ge in Hlt. rewrite Z.min_r in Hinv by lia.
    rewrite take_ge in Hrep by lia.
    eexists _, _. split; [done|]. split; [done|]. split; [done|]. lia.
Qed.

End BatchMore.

(** X7. With a concurrency limit of at least 1, the k-th item of a batch
    outcome records what [autoRemoveBackground] does on the k-th buffer: its
    result, or the error it threw.  In particular a buffer longer than
    [maxFileSize] fails on its own, as "File too large" at its index, and
    the rest of the batch goes on. *)
Theorem batch_items_report env apiKeys imageBuffers options log fuel :
  1 <= concurrent options ->
  (length imageBuffers < fuel)%nat ->
  exists outcome log',
    batchRemoveBackground env apiKeys fuel imageBuffers options log = (Ok outcome, log')
    /\ Forall2 (reports_on env apiKeys options) imageBuffers (results outcome)
    /\ (forall k imageBuffer,
          imageBuffers !! k = Some imageBuffer ->
          maxFileSize options < buffer_length imageBuffer ->
          results outcome !! k
          = Some (ItemFailed (FileTooLarge (maxFileSize options)) (Z.of_nat k))).
Proof.
  intros Hc Hfuel. unfold batchRemoveBackground, bind.
  destruct (batch_loop_pointwise env apiKeys options imageBuffers fuel Hc 0 [] log)
    as (rs & log' & -> & Hidx & Hrep & _);
    [lia | lia | by rewrite Z.min_l by lia | by constructor |].
  eexists _, _. split; [reflexivity|]. simpl. split; [done|].
  intros k imageBuffer Hk Hsize.
  destruct (Forall2_lookup_l _ _ _ _ _ Hrep Hk) as (item & Hitem & [l Hl]).
  rewrite Hitem. f_equal.
  assert (item_index item = Z.of_nat k) as Hik.
  { assert (map item_index rs !! k = Some (item_index item)) as Hm
      by (by rewrite list_lookup_fmap, Hitem).
    rewrite Hidx in Hm. apply lookup_seqZ in Hm as [Hm _]. lia. }
  unfold autoRemoveBackground in Hl. apply Z.ltb_lt in Hsize. rewrite Hsize in Hl.
  simpl in Hl. by rewrite Hl, Hik.
Qed.

Lemma batch_items_report_witness :
  exists outcome log',
    batchRemoveBackground env_codec_works no_keys 4 [png_stub; png_stub ++ png_stub; png_stub]
      (with_limits 2 5) [] = (Ok outcome, log')
    /\ results outcome !! 1%nat = Some (ItemFailed (FileTooLarge 5) 1)
    /\ successful outcome = 2.
Proof.
  destruct (batch_items_report env_codec_works no_keys
              [png_stub; png_stub ++ png_stub; png_stub] (with_limits 2 5) [] 4)
    as (outcome & log' & Hrun & _ & Hbig); [vm_compute; discriminate | simpl; lia |].
  exists outcome, log'. split; [done|]. split.
  - apply (Hbig 1%nat (png_stub ++ png_stub)); reflexivity.
  - vm_compute in Hrun. by simplify_eq.
Defined.

(** X8. With a concurrency limit [c] of at least 1, a batch of [n] images
    takes a one-second pause between two groups and none after the last:
    no pause for an empty batch, and [(n - 1) / c] (rounded down) pauses
    otherwise. *)
Theorem batch_pauses env apiKeys imageBuffers options log fuel :
  1 <= concurrent options ->
  (length imageBuffers < fuel)%nat ->
  exists outcome log',
    batchRemoveBackground env apiKeys fuel imageBuffers options log = (Ok outcome, log')
    /\ pauses log'
       = pauses log
         + (if decide (imageBuffers = []) then 0
            else (Z.of_nat (length imageBuffers) - 1) / concurrent options).
Proof.
  intros Hc Hfuel. unfold batchRemoveBackground, bind.
  destruct (batch_loop_pointwise env apiKeys options imageBuffers fuel Hc 0 [] log)
    as (rs & log' & -> & _ & _ & Hp);
    [lia | lia | by rewrite Z.min_l by lia | by constructor |].
  eexists _, _. split; [reflexivity|]. rewrite Hp. f_equal.
  destruct imageBuffers; [done|]. rewrite decide_False by done.
  rewrite (proj2 (Z.ltb_lt _ _)) by (simpl length; lia). f_equal. lia.
Qed.

Lemma batch_pauses_witness :
  exists outcome log',
    batchRemoveBackground env_nothing_works no_keys 8
      [png_stub; png_stub; png_stub; png_stub; png_stub; png_stub; png_stub] no_options []
    = (Ok outcome, log')
    /\ pauses log' = 2.
Proof.
  apply (batch_pauses env_nothing_works no_keys
           [png_stub; png_stub; png_stub; png_stub; png_stub; png_stub; png_stub]
           no_options [] 8).
  - vm_compute. discriminate.
  - simpl. lia.
Defined.

Lemma batch_loop_stuck env apiKeys imageBuffers options fuel :
  concurrent options <= 0 -> imageBuffers <> [] ->
  forall i results log,
    i <= 0 ->
    (batch_loop env apiKeys fuel imageBuffers options i results log).1 = OutOfFuel.
Proof.
  intros Hc Hne. induction fuel as [|fuel IH]; intros i results log Hi; [done|].
  simpl. rewrite (proj2 (Z.ltb_lt _ _)) by (destruct imageBuffers; [done|simpl length; lia]).
  destruct (group_returns env apiKeys options
              (slice imageBuffers i (i + concurrent options)) i log)
    as (items & l1 & Hgroup & _).
  unfold bind at 1. rewrite Hgroup. unfold bind at 1.
  destruct (i + concurrent options <? _); unfold setTimeout, ret; apply IH; lia.
Qed.

(** X9. With a concurrency limit of zero or less and at least one image,
    [batchRemoveBackground] never returns: the loop counter does not
    advance past the length of the list, whatever the loop budget. *)
Theorem batch_nonpositive_limit_diverges env apiKeys imageBuffers options log fuel :
  concurrent options <= 0 ->
  imageBuffers <> [] ->
  (batchRemoveBackground env apiKeys fuel imageBuffers options log).1 = OutOfFuel.
Proof.
  intros Hc Hne. unfold batchRemoveBackground, bind.
  pose proof (batch_loop_stuck env apiKeys imageBuffers options fuel Hc Hne 0 [] log
                (Z.le_refl 0)) as H.
  by destruct (batch_loop _ _ _ _ _ _ _ _) as [[rs|e|] l1].
Qed.

Lemma batch_nonpositive_limit_diverges_witness :
  (batchRemoveBackground env_codec_works no_keys 50 [png_stub; png_stub; png_stub]
     (with_limits (-1) 100) []).1 = OutOfFuel.
Proof.
  apply (batch_nonpositive_limit_diverges env_codec_works no_keys
           [png_stub; png_stub; png_stub] (with_limits (-1) 100) [] 50).
  - vm_compute. discriminate.
  - discriminate.
Defined.

End RemoveBgExtraProofs.

(** * Further properties of [PDFCompressor] *)

Module CompressPdfExtraProofs.
Import Js CompressPdf CompressPdfExtra CompressPdfProofs.

Section Bounded.
Variable env : Env.

Lemma bounded_weaken n n' {A} (m : M World JsError A) :
  (n <= n')%nat -> bounded n m -> bounded n' m.
Proof. intros Hn Hm w. destruct (Hm w). split; [done | lia]. Qed.

Lemma bounded_ret {A} (a : A) : bounded 0 (ret a).
Proof. intros w. split; [done | simpl; lia]. Qed.

Lemma bounded_throw {A} e : bounded 0 (@throw World JsError A e).
Proof. intros w. split; [done | simpl; lia]. Qed.

Lemma bounded_bind n1 n2 {A B} (m : M World JsError A) (k : A -> M World JsError B) :
  bounded n1 m -> (forall a, bounded n2 (k a)) -> bounded (n1 + n2) (bind m k).
Proof.
  intros Hm Hk w. unfold bind. destruct (Hm w) as [Hs Hr].
  destruct (m w) as [[a|e|] w1]; simpl in *; [|split; [done|lia]|done].
  destruct (Hk a w1) as [Hs' Hr']. split; [done | lia].
Qed.

Lemma bounded_try_catch n1 n2 {A} (m : M World JsError A) (h : JsError -> M World JsError A) :
  bounded n1 m -> (forall e, bounded n2 (h e)) -> bounded (n1 + n2) (try_catch m h).
Proof.
  intros Hm Hh w. unfold try_catch. destruct (Hm w) as [Hs Hr].
  destruct (m w) as [[a|e|] w1]; simpl in *; [split; [done|lia]| |done].
  destruct (Hh e w1) as [Hs' Hr']. split; [done | lia].
Qed.

Lemma bounded_fs_call {A} op (action : Files -> ErrCode + (A * Files)) :
  bounded 0 (fs_call env op action).
Proof.
  intros w. unfold fs_call.
  destruct (fs_fault env (log w) op); [|destruct (action (files w)) as [?|[? ?]]];
    simpl; rewrite runs_cons_other by done; (split; [done | lia]).
Qed.

Lemma bounded_now : bounded 0 (now env).
Proof. intros w. unfold now. simpl. rewrite runs_cons_other by done. split; [done|lia]. Qed.

Lemma bounded_console_log n : bounded 0 (console_log n).
Proof. intros w. simpl. rewrite runs_cons_other by done. split; [done|lia]. Qed.

Lemma bounded_execPromise c : bounded 1 (execPromise env c).
Proof.
  intros w. unfold execPromise. cbv zeta.
  destruct (exec_error _); simpl; rewrite runs_cons_exec, length_app; simpl;
    (split; [done | lia]).
Qed.

Lemma bounded_cleanupFiles ps : bounded 0 (cleanupFiles env ps).
Proof.
  intros w. destruct (cleanupFiles_spec env ps w) as (new & w' & -> & Hlog & Hev & _).
  simpl. rewrite Hlog, runs_app, (runs_cleanup new Hev), app_nil_r. split; [done|lia].
Qed.

Lemma bounded_tool inputPath outputPath options :
  bounded 1
    (if decide (toLowerCase (method options) = "ghostscript"%string) then
       compressWithGhostscript env inputPath outputPath (quality options)
     else if decide (toLowerCase (method options) = "qpdf"%string) then
       compressWithQPdf env inputPath outputPath options
     else throw (UnsupportedMethod (method options))).
Proof.
  assert (forall c wrap,
    bounded 1
      (try_catch
         (bind (execPromise env c)
            (fun _ => bind (stat_size env outputPath)
               (fun size => ret {| tool_success := true; tool_size := size |})))
         (fun error => throw (wrap error)))) as Htool.
  { intros c wrap. apply (bounded_try_catch 1 0); [|intros; apply bounded_throw].
    apply (bounded_bind 1 0); [apply bounded_execPromise|]. intros _.
    apply (bounded_bind 0 0); [apply bounded_fs_call|]. intros; apply bounded_ret. }
  repeat case_match; [apply Htool | apply Htool |].
  apply (bounded_weaken 0); [lia | apply bounded_throw].
Qed.

Lemma bounded_handler ps e {A} :
  bounded 0 (bind (swallow (cleanupFiles env ps)) (fun _ => @throw World JsError A e)).
Proof.
  apply (bounded_bind 0 0); [|intros; apply bounded_throw].
  apply (bounded_try_catch 0 0); [apply bounded_cleanupFiles | intros; apply bounded_ret].
Qed.

(** At quality ["screen"] one level of [compress] is all there is. *)
Lemma bounded_compress_screen fuel inputBuffer options :
  quality options = "screen"%string ->
  bounded 1 (compress env (S fuel) inputBuffer options).
Proof.
  intros Hq. cbn [compress].
  apply (bounded_bind 0 1); [apply bounded_fs_call|]. intros _.
  apply (bounded_bind 0 1); [apply bounded_now|]. intros t.
  apply (bounded_try_catch 1 0); [|intros; apply bounded_handler].
  apply (bounded_bind 0 1); [apply bounded_fs_call|]. intros _.
  apply (bounded_bind 1 0); [apply bounded_tool|]. intros result.
  apply (bounded_bind 0 0); [apply bounded_fs_call|]. intros compressedBuffer.
  apply (bounded_bind 0 0); [apply bounded_cleanupFiles|]. intros _.
  rewrite Hq. rewrite bool_decide_eq_true_2 by done. rewrite andb_false_r.
  apply bounded_ret.
Qed.

Lemma bounded_compress fuel inputBuffer options :
  bounded 2 (compress env (S (S fuel)) inputBuffer options).
Proof.
  cbn [compress].
  apply (bounded_bind 0 2); [apply bounded_fs_call|]. intros _.
  apply (bounded_bind 0 2); [apply bounded_now|]. intros t.
  apply (bounded_try_catch 2 0); [|intros; apply bounded_handler].
  apply (bounded_bind 0 2); [apply bounded_fs_call|]. intros _.
  apply (bounded_bind 1 1); [apply bounded_tool|]. intros result.
  apply (bounded_bind 0 1); [apply bounded_fs_call|]. intros compressedBuffer.
  apply (bounded_bind 0 1); [apply bounded_cleanupFiles|]. intros _.
  case_match.
  - apply (bounded_bind 0 1); [apply bounded_console_log|]. intros _.
    by apply (bounded_compress_screen fuel inputBuffer (with_quality "screen" options)).
  - apply (bounded_weaken 0); [lia | apply bounded_ret].
Qed.

End Bounded.

(** X10. [compress] runs an external tool at most twice per call and
    always settles, whatever the tools and the file system do: a loop
    budget of 2 is enough for any input and any options. *)
Theorem compress_runs_at_most_twice env fuel inputBuffer options w :
  (2 <= fuel)%nat ->
  (compress env fuel inputBuffer options w).1 <> OutOfFuel
  /\ (length (runs (log (compress env fuel inputBuffer options w).2))
      <= length (runs (log w)) + 2)%nat.
Proof.
  intros Hfuel. destruct fuel as [|[|fuel]]; [lia..|].
  apply bounded_compress.
Qed.

Lemma compress_runs_at_most_twice_witness :
  (compress env_unlink_denied 2 pdf_stub (with_budget "printer" one_byte) empty_world).1
  <> OutOfFuel
  /\ (length (runs (log (compress env_unlink_denied 2 pdf_stub
                          (with_budget "printer" one_byte) empty_world).2))
      <= length (runs (log empty_world)) + 2)%nat.
Proof.
  apply (compress_runs_at_most_twice env_unlink_denied 2 pdf_stub
           (with_budget "printer" one_byte) empty_world).
  lia.
Defined.

(** X11. A method other than ghostscript or qpdf (compared without regard
    to letter case) makes [compress] throw without ever running a tool: the
    error is "Unsupported method: <method>", unless the file system failed
    before the method was looked at.  This holds for ['pdf-lib'] too, which
    the constructor lists in [supportedMethods]. *)
Theorem compress_unsupported_method env fuel inputBuffer options w :
  ~ supported options ->
  (1 <= fuel)%nat ->
  exists e w',
    compress env fuel inputBuffer options w = (Throw e, w')
    /\ runs (log w') = runs (log w)
    /\ (e = UnsupportedMethod (method options) \/ exists f, e = FsError (Failure f))
    /\ ((forall l op, is_unlink op = false -> fs_fault env l op = None) ->
        e = UnsupportedMethod (method options)).
Proof.
  intros Hsup Hfuel. destruct fuel as [|fuel]; [lia|].
  assert (toLowerCase (method options) <> "ghostscript"%string
          /\ toLowerCase (method options) <> "qpdf"%string) as [Hgs Hq].
  { split; intros ?; apply Hsup; [by left | by right]. }
  cbn [compress]. unfold bind at 1. unfold mkdir, fs_call at 1.
  destruct (fs_fault env (log w) (OpMkdir (tempDir options))) as [f|] eqn:Hmk.
  { eexists _, _. split; [done|]. simpl. rewrite runs_cons_other by done.
    split; [done|]. split; [right; by eexists|]. intros Hfs. by rewrite Hfs in Hmk. }
  unfold bind at 1, now at 1. cbv zeta.
  set (w1 := emit (EvNow _) _).
  set (inputPath := {| kind := InputPdf |}). set (outputPath := {| kind := CompressedPdf |}).
  assert (runs (log w1) = runs (log w)) as Hruns1.
  { subst w1. simpl. by rewrite !runs_cons_other by done. }
  assert (forall e w2, runs (log w2) = runs (log w) ->
            exists w',
              bind (swallow (cleanupFiles env [inputPath; outputPath]))
                (fun _ => @throw _ _ CompressResult e) w2 = (Throw e, w')
              /\ runs (log w') = runs (log w)) as Hhandler.
  { intros e w2 Hw2. unfold bind, swallow, try_catch.
    destruct (cleanupFiles_spec env [inputPath; outputPath] w2)
      as (new & w3 & -> & Hlog & Hev & _).
    exists w3. split; [done|].
    by rewrite Hlog, runs_app, (runs_cleanup new Hev), app_nil_r. }
  rewrite try_catch_bind. unfold writeFile, fs_call at 1.
  destruct (fs_fault env (log w1) (OpWriteFile inputPath)) as [f|] eqn:Hwr.
  { destruct (Hhandler (FsError (Failure f)) (emit (EvFs (OpWriteFile inputPath)) w1))
      as (w' & Hrun & Hruns); [simpl; by rewrite runs_cons_other|].
    eexists _, w'. split; [done|]. split; [done|]. split; [right; by eexists|].
    intros Hfs. by rewrite Hfs in Hwr. }
  rewrite try_catch_bind.
  rewrite decide_False by done. rewrite decide_False by done. unfold throw at 1.
  match goal with |- context [bind _ _ ?w2] =>
    destruct (Hhandler (UnsupportedMethod (method options)) w2) as (w' & Hrun & Hruns) end.
  { simpl. by rewrite runs_cons_other. }
  eexists _, w'. split; [done|]. split; [done|]. split; [by left | done].
Qed.

Lemma compress_unsupported_method_witness :
  exists w',
    compress env_tools_work 1 pdf_stub (with_method "pdf-lib" "ebook") empty_world
    = (Throw (UnsupportedMethod "pdf-lib"), w')
    /\ runs (log w') = [] /\ files w' = ∅.
Proof.
  destruct (compress_unsupported_method env_tools_work 1 pdf_stub
              (with_method "pdf-lib" "ebook") empty_world)
    as (e & w' & Hrun & Hruns & _ & He); [by intros [?|?] | lia |].
  exists w'. rewrite (He (fun _ _ _ => eq_refl)) in Hrun.
  split; [done|]. split; [done|]. vm_compute in Hrun. by simplify_eq.
Defined.

(** X12. When the file system works and the tool exits with an error,
    [compress] (with a supported method) runs it once and
    throws that error wrapped by method ("Ghostscript compression failed:
    ..." or "qPDF compression failed: ..."); a failed run is not retried at
    a lower quality. *)
Theorem compress_tool_failure_is_fatal env fuel inputBuffer options w :
  tool_fails env (expected_run options (quality options)) ->
  supported options ->
  (1 <= fuel)%nat ->
  exists msg w',
    compress env fuel inputBuffer options w
    = (Throw (tool_error options (ExecError msg)), w')
    /\ runs (log w') = runs (log w) ++ [expected_run options (quality options)].
Proof.
  intros [Hfs Hexec] Hsup Hfuel. destruct fuel as [|fuel]; [lia|].
  cbn [compress]. unfold bind at 1. unfold mkdir, fs_call at 1. rewrite Hfs by done.
  unfold bind at 1, now at 1. cbv zeta.
  set (w1 := emit (EvNow _) _).
  set (inputPath := {| kind := InputPdf |}). set (outputPath := {| kind := CompressedPdf |}).
  assert (runs (log w1) = runs (log w)) as Hruns1.
  { subst w1. simpl. by rewrite !runs_cons_other by done. }
  rewrite try_catch_bind. unfold writeFile, fs_call at 1. rewrite Hfs by done.
  set (w2 := {| files := <[inputPath:=inputBuffer]> (files w1) |}).
  assert (runs (log w2) = runs (log w)) as Hruns2.
  { rewrite <- Hruns1. subst w2. simpl. by rewrite runs_cons_other by done. }
  rewrite try_catch_bind.
  assert (forall c wrap,
    run_of c = expected_run options (quality options) ->
    exists msg,
      try_catch
        (bind (execPromise env c)
           (fun _ => bind (stat_size env outputPath)
              (fun size => ret {| tool_success := true; tool_size := size |})))
        (fun error => throw (wrap error)) w2
      = (Throw (wrap (ExecError msg)),
         {| files := match written (exec env (log w2) (files w2) c) with
                     | Some content => <[command_output c:=content]> (files w2)
                     | None => files w2
                     end;
            log := EvExec c :: log w2 |})) as Htool.
  { intros c wrap Hc. destruct (Hexec (log w2) (files w2) c Hc) as [msg Hmsg].
    exists msg. unfold try_catch, bind, execPromise. cbv zeta. by rewrite Hmsg. }
  assert (forall e w3 c, log w3 = EvExec c :: log w2 ->
            run_of c = expected_run options (quality options) ->
            exists w',
              bind (swallow (cleanupFiles env [inputPath; outputPath]))
                (fun _ => @throw _ _ CompressResult e) w3 = (Throw e, w')
              /\ runs (log w')
                 = runs (log w) ++ [expected_run options (quality options)]) as Hhandler.
  { intros e w3 c Hw3 Hc. unfold bind, swallow, try_catch.
    destruct (cleanupFiles_spec env [inputPath; outputPath] w3)
      as (new & w4 & -> & Hlog & Hev & _).
    exists w4. split; [done|].
    rewrite Hlog, runs_app, (runs_cleanup new Hev), app_nil_r, Hw3, runs_cons_exec.
    by rewrite Hruns2, Hc. }
  unfold tool_error, expected_run in *.
  destruct (decide (toLowerCase (method options) = "ghostscript"%string)) as [Hgs|Hgs].
  - unfold compressWithGhostscript. cbv zeta.
    match goal with |- context [execPromise env ?c] =>
      destruct (Htool c GhostscriptFailed) as [msg ->]; [done|]; cbv beta iota;
      match goal with |- context [bind (swallow _) _ ?w3] =>
        destruct (Hhandler (GhostscriptFailed (ExecError msg)) w3 c) as (w' & Hrun & Hruns);
          [reflexivity | done |] end end.
    exists msg, w'. by rewrite Hrun.
  - destruct Hsup as [?|Hq]; [done|]. rewrite decide_True by done.
    unfold compressWithQPdf. cbv zeta.
    match goal with |- context [execPromise env ?c] =>
      destruct (Htool c QpdfFailed) as [msg ->]; [done|]; cbv beta iota;
      match goal with |- context [bind (swallow _) _ ?w3] =>
        destruct (Hhandler (QpdfFailed (ExecError msg)) w3 c) as (w' & Hrun & Hruns);
          [reflexivity | done |] end end.
    exists msg, w'. by rewrite Hrun.
Qed.

Lemma compress_tool_failure_is_fatal_witness :
  exists msg w',
    compress env_tool_crashes 2 pdf_stub (with_method "GhostScript" "printer") empty_world
    = (Throw (GhostscriptFailed (ExecError msg)), w')
    /\ runs (log w') = [RunGs "/printer" 150].
Proof.
  apply (compress_tool_failure_is_fatal env_tool_crashes 2 pdf_stub
           (with_method "GhostScript" "printer") empty_world).
  - split; [done|]. intros l fs c _. by eexists.
  - by left.
  - lia.
Defined.

(** X13. When an attempt has gone through with an output that fits in
    [maxSizeMB], [compress] returns after that single run at the quality
    asked for: the result has [success] true, the buffer is the output,
    which the tool wrote when it ran on the input, [originalSize] and
    [compressedSize] are the lengths of input and output, and [methodUsed]
    is the method option as the caller wrote it. *)
Theorem compress_within_budget env fuel inputBuffer options w out w1 :
  attempt env inputBuffer options w = (Ok out, w1) ->
  exceeds (buffer_length out) (maxSizeMB options) = false ->
  (1 <= fuel)%nat ->
  compress env fuel inputBuffer options w
  = (Ok {| success := true;
           originalSize := buffer_length inputBuffer;
           compressedSize := buffer_length out;
           reduction :=
             if decide (buffer_length inputBuffer = 0) then None
             else Some ((inject_Z (buffer_length inputBuffer - buffer_length out)
                         / inject_Z (buffer_length inputBuffer) * 100)%Q);
           buffer := out;
           methodUsed := method options |}, w1)
  /\ runs (log w1) = runs (log w) ++ [expected_run options (quality options)]
  /\ exists l fs c,
       run_of c = expected_run options (quality options)
       /\ fs !! command_input c = Some inputBuffer
       /\ exec_error (exec env l fs c) = None
       /\ (forall content, written (exec env l fs c) = Some content -> out = content).
Proof.
  intros Hattempt Hfits Hfuel. destruct fuel as [|fuel]; [lia|].
  destruct (compress_after_attempt env fuel inputBuffer options w out w1 Hattempt)
    as (inputPath & outputPath & ->).
  rewrite Hfits. cbn [andb]. split; [done|]. split.
  - pose proof (attempt_runs_once env inputBuffer options w) as Hfirst.
    by rewrite Hattempt in Hfirst.
  - by apply (attempt_output env inputBuffer options w out w1).
Qed.

Lemma compress_within_budget_witness :
  exists w',
    compress env_tools_work 1 pdf_stub (with_method "QPDF" "ebook") empty_world
    = (Ok {| success := true; originalSize := 4; compressedSize := 4;
             reduction := Some ((inject_Z 0 / inject_Z 4 * 100)%Q);
             buffer := pdf_stub; methodUsed := "QPDF" |}, w')
    /\ runs (log w') = [RunQpdf true true true].
Proof.
  set (options := with_method "QPDF" "ebook").
  pose (w1 := (attempt env_tools_work pdf_stub options empty_world).2).
  assert (attempt env_tools_work pdf_stub options empty_world = (Ok pdf_stub, w1))
    as Hfirst by (vm_compute; reflexivity).
  destruct (compress_within_budget env_tools_work 1 pdf_stub options empty_world
              pdf_stub w1 Hfirst)
    as (Hrun & Hruns & _); [done|lia|].
  exists w1. split; [exact Hrun | exact Hruns].
Defined.

(** X14. For a quality name that is not a property inherited from
    [Object.prototype], the Ghostscript [-dPDFSETTINGS] value is the name
    with a slash in front when it is one of the five presets, and [/ebook]
    for any other name. *)
Theorem ghostscript_preset (q : string) :
  Js.object_prototype q = None ->
  qualitySetting q = (if decide (q ∈ presets) then String.append "/" q else "/ebook"%string).
Proof.
  intros Hproto. destruct (decide (q ∈ presets)) as [Hin|Hout].
  - unfold presets in Hin.
    repeat (apply elem_of_cons in Hin as [->|Hin]; [reflexivity|]).
    by apply elem_of_nil in Hin.
  - unfold qualitySetting, Js.get, qualityMap.
    rewrite !lookup_insert_ne, lookup_empty, Hproto; [done|..];
      intros <-; apply Hout; unfold presets; repeat constructor.
Qed.

Lemma ghostscript_preset_witness :
  qualitySetting "medium" = "/ebook"%string /\ qualitySetting "prepress" = "/prepress"%string.
Proof.
  split.
  - apply (ghostscript_preset "medium"). reflexivity.
  - apply (ghostscript_preset "prepress"). reflexivity.
Defined.

Section CleanupMore.
Variable env : Env.

Lemma cleanup_one_effect p w :
  exists w',
    cleanup_one env p w = (Ok tt, w')
    /\ (forall q, q <> p -> files w' !! q = files w !! q)
    /\ (files w' !! p = files w !! p \/ files w' !! p = None)
    /\ (fs_fault env (log w) (OpUnlink p) = None ->
        files w' !! p = None /\ warned_paths (log w') = warned_paths (log w)).
Proof.
  unfold cleanup_one, try_catch, unlink, fs_call.
  destruct (fs_fault env (log w) (OpUnlink p)) as [f|] eqn:Hfault.
  - eexists. split; [reflexivity|]. simpl. split; [done|]. split; [by left|]. done.
  - destruct (files w !! p) as [content|] eqn:Hp.
    + eexists. split; [reflexivity|]. simpl. split; [|split].
      * intros q Hq. by apply lookup_delete_ne.
      * right. apply lookup_delete_eq.
      * intros _. split; [apply lookup_delete_eq | done].
    + eexists. split; [reflexivity|]. simpl. rewrite Hp. by auto.
Qed.

Lemma cleanup_all_effect ps w :
  exists w' settled,
    promise_all (map (cleanup_one env) ps) w = (Ok settled, w')
    /\ (forall q, q ∉ ps -> files w' !! q = files w !! q)
    /\ (forall q, files w' !! q = files w !! q \/ files w' !! q = None)
    /\ ((forall l p, fs_fault env l (OpUnlink p) = None) ->
        (forall p, p ∈ ps -> files w' !! p = None)
        /\ warned_paths (log w') = warned_paths (log w)).
Proof.
  revert w. induction ps as [|a rest IH]; intros w.
  - exists w, []. split; [done|]. split; [done|]. split; [by left|].
    intros _. split; [|done]. intros p Hp. by apply elem_of_nil in Hp.
  - destruct (cleanup_one_effect a w) as (w1 & Hrun1 & Hframe1 & Hmono1 & Hgone1).
    destruct (IH w1) as (w2 & settled2 & Hrun2 & Hframe2 & Hmono2 & Hgone2).
    exists w2, (tt :: settled2).
    split. { simpl. unfold bind at 1. rewrite Hrun1. unfold bind, ret. by rewrite Hrun2. }
    split; [|split].
    + intros q Hq. apply not_elem_of_cons in Hq as [Hqa Hq]. by rewrite Hframe2, Hframe1.
    + intros q. destruct (Hmono2 q) as [Hq|Hq]; rewrite Hq; [|by right].
      destruct (decide (q = a)) as [->|Hne]; [done|]. left. by apply Hframe1.
    + intros Hnofault. destruct (Hgone1 (Hnofault _ _)) as [Ha Hw1].
      destruct (Hgone2 Hnofault) as [Hrest Hw2]. split; [|by rewrite Hw2].
      intros p Hp. destruct (decide (p ∈ rest)) as [Hin|Hout]; [by apply Hrest|].
      apply elem_of_cons in Hp as [->|?]; [|done].
      destruct (Hmono2 a) as [Hq|Hq]; by rewrite Hq.
Qed.

End CleanupMore.

(** X15. [cleanupFiles] never throws and changes nothing but the files it
    is given: every other file is left as it was, a listed file is deleted
    or left as it was, and when no [unlink] fails every listed file is gone
    and no warning is printed. *)
Theorem cleanupFiles_deletes_only_listed env filePaths w :
  exists w',
    cleanupFiles env filePaths w = (Ok tt, w')
    /\ (forall q, q ∉ filePaths -> files w' !! q = files w !! q)
    /\ (forall q, files w' !! q = files w !! q \/ files w' !! q = None)
    /\ ((forall l p, fs_fault env l (OpUnlink p) = None) ->
        (forall p, p ∈ filePaths -> files w' !! p = None)
        /\ warned_paths (log w') = warned_paths (log w)).
Proof.
  destruct (cleanup_all_effect env filePaths w) as (w' & settled & Hrun & Hrest).
  exists w'. split; [|done]. unfold cleanupFiles, bind, ret. by rewrite Hrun.
Qed.

End CompressPdfExtraProofs.

(** * Properties of the pdf-lib functions *)

Module PdfToolsProofs.
Import PdfTools.

(** ** Decimal numerals and [parseInt] *)

Lemma digit_value_decimal c :
  is_decimal_digit c -> digit_value 10 c = Some (c - 48)%N.
Proof.
  intros [Hlo Hhi]. unfold digit_value.
  rewrite (proj2 (N.leb_le 48 c)), (proj2 (N.leb_le c 57)) by done. simpl.
  by rewrite (proj2 (N.ltb_lt _ _)) by lia.
Qed.

Lemma digit_not_whitespace c : is_decimal_digit c -> c ∉ whitespace.
Proof.
  intros [Hlo Hhi] Hin. unfold whitespace in Hin.
  repeat (apply elem_of_cons in Hin as [->|Hin]; [lia|]).
  by apply elem_of_nil in Hin.
Qed.

Lemma leading_digits_decimal ds :
  Forall is_decimal_digit ds ->
  leading_digits 10 ds = map (fun c => (c - 48)%N) ds.
Proof.
  induction 1 as [|c ds Hc _ IH]; [done|].
  simpl. by rewrite digit_value_decimal, IH.
Qed.

Lemma digits_value_snoc radix ds d :
  digits_value radix (ds ++ [d]) = digits_value radix ds * Z.of_N radix + Z.of_N d.
Proof. unfold digits_value. by rewrite fold_left_app. Qed.

(** The numeral written by [decimal_digits] in front of [acc]. *)
Lemma decimal_digits_spec fuel :
  forall n acc,
    (n < 10 ^ N.of_nat fuel)%N ->
    exists ds,
      decimal_digits fuel n acc = ds ++ acc
      /\ (fuel <> O -> ds <> [])
      /\ Forall is_decimal_digit ds
      /\ digits_value 10 (map (fun c => (c - 48)%N) ds) = Z.of_N n.
Proof.
  induction fuel as [|fuel IH]; intros n acc Hn.
  { exists []. change (N.of_nat 0) with 0%N in Hn. rewrite N.pow_0_r in Hn.
    repeat split; try done. unfold digits_value. simpl. lia. }
  simpl decimal_digits. destruct (n <? 10)%N eqn:Hsmall.
  - apply N.ltb_lt in Hsmall. exists [(48 + n mod 10)%N].
    rewrite N.mod_small by done.
    split; [done|]. split; [done|]. split.
    + repeat constructor; lia.
    + unfold digits_value. simpl. lia.
  - apply N.ltb_ge in Hsmall.
    destruct (IH (n / 10)%N ((48 + n mod 10)%N :: acc)) as (ds & Heq & _ & Hds & Hval).
    { apply N.Div0.div_lt_upper_bound.
      by rewrite Nat2N.inj_succ, N.pow_succ_r' in Hn. }
    exists (ds ++ [(48 + n mod 10)%N]).
    split; [by rewrite Heq, <- app_assoc|].
    split; [by destruct ds|]. split.
    + apply Forall_app. split; [done|]. repeat constructor.
      * apply N.le_add_r.
      * pose proof (N.mod_upper_bound n 10 ltac:(done)) as Hm.
        revert Hm. generalize (n mod 10)%N. intros m Hm. lia.
    + rewrite map_app. simpl map. rewrite digits_value_snoc, Hval.
      rewrite N.add_comm, N.add_sub.
      rewrite (N.div_mod n 10) at 3 by done. lia.
Qed.

Lemma of_nat_lt_pow10 (n : nat) : (N.of_nat n < 10 ^ N.of_nat (S n))%N.
Proof.
  induction n as [|n IH]; [done|].
  rewrite (Nat2N.inj_succ (S n)), N.pow_succ_r'. lia.
Qed.

Lemma decimal_spec (n : nat) :
  exists c ds,
    decimal n = c :: ds
    /\ Forall is_decimal_digit (c :: ds)
    /\ digits_value 10 (map (fun c => (c - 48)%N) (c :: ds)) = Z.of_nat n.
Proof.
  unfold decimal.
  destruct (decimal_digits_spec (S n) (N.of_nat n) [] (of_nat_lt_pow10 n))
    as (ds & Heq & Hne & Hds & Hval).
  rewrite app_nil_r in Heq. destruct ds as [|c ds]; [by destruct Hne|].
  exists c, ds. rewrite Heq. split; [done|]. split; [done|]. rewrite Hval. lia.
Qed.

Lemma digit_cases c :
  is_decimal_digit c -> c ∈ [48; 49; 50; 51; 52; 53; 54; 55; 56; 57]%N.
Proof.
  intros [Hlo Hhi].
  assert (c = 48 \/ c = 49 \/ c = 50 \/ c = 51 \/ c = 52 \/ c = 53 \/ c = 54
          \/ c = 55 \/ c = 56 \/ c = 57)%N as Hc by lia.
  repeat (destruct Hc as [->|Hc]; [repeat constructor|]). subst. repeat constructor.
Qed.

(** Round trip: a count printed in a template literal and read back with
    [parseInt]. *)
Lemma parseInt_decimal (n : nat) : parseInt (decimal n) = Some (Z.of_nat n).
Proof.
  destruct (decimal_spec n) as (c & ds & -> & Hds & Hval).
  rewrite <- Hval. rewrite <- (leading_digits_decimal (c :: ds) Hds).
  pose proof (digit_cases c (Forall_inv Hds)) as Hc.
  apply Forall_inv_tail in Hds.
  repeat (apply elem_of_cons in Hc as [->|Hc]);
    [|unfold parseInt; simpl; f_equal; lia..|by apply elem_of_nil in Hc].
  destruct ds as [|c2 ds]; [done|].
  pose proof (digit_cases c2 (Forall_inv Hds)) as Hc2.
  repeat (apply elem_of_cons in Hc2 as [->|Hc2]);
    [unfold parseInt; simpl; f_equal; lia..|by apply elem_of_nil in Hc2].
Qed.

(** ** Copying pages *)

(** Copying a run of page indices that lies within the document gives that
    stretch of the document. *)
Lemma copyPages_run (doc : Doc) (count : nat) :
  forall first : nat,
    (first + count <= length doc)%nat ->
    copyPages doc (seqZ (Z.of_nat first) (Z.of_nat count)) = inr (take count (drop first doc)).
Proof.
  induction count as [|count IH]; intros first Hlen; [done|].
  rewrite seqZ_cons by lia. simpl copyPages.
  rewrite (proj2 (Z.leb_le 0 _)) by lia. rewrite Nat2Z.id.
  destruct (doc !! first) as [page|] eqn:Hpage;
    [|apply lookup_ge_None in Hpage; lia].
  replace (Z.succ (Z.of_nat first)) with (Z.of_nat (S first)) by lia.
  replace (Z.pred (Z.of_nat (S count))) with (Z.of_nat count) by lia.
  rewrite IH by lia.
  rewrite (drop_S _ _ _ Hpage). done.
Qed.

Lemma copyPages_all (doc : Doc) : copyPages doc (getPageIndices doc) = inr doc.
Proof.
  unfold getPageIndices. change 0 with (Z.of_nat 0).
  rewrite (copyPages_run doc (length doc) 0) by lia.
  by rewrite drop_0, firstn_all.
Qed.

(** ** Merging *)

Lemma merge_loop_loaded lib pdfBuffers docs merged :
  Forall2 (fun b doc => load lib b = inr doc) pdfBuffers docs ->
  merge_loop lib pdfBuffers merged = inr (merged ++ concat docs).
Proof.
  intros Hload. revert merged. induction Hload as [|b doc bs ds Hb _ IH]; intros merged.
  - simpl. by rewrite app_nil_r.
  - simpl. unfold load_document. rewrite Hb, copyPages_all, IH. by rewrite <- app_assoc.
Qed.

Lemma merge_loop_fails lib pdfBuffers merged e :
  merge_loop lib pdfBuffers merged = inl e ->
  exists loaded b rest docs message,
    pdfBuffers = loaded ++ b :: rest
    /\ Forall2 (fun b doc => load lib b = inr doc) loaded docs
    /\ load lib b = inl message
    /\ e = LoadFailed message.
Proof.
  revert merged. induction pdfBuffers as [|b bs IH]; intros merged; [done|].
  simpl. unfold load_document. destruct (load lib b) as [message|doc] eqn:Hb.
  - intros ?; simplify_eq. exists [], b, bs, [], message. by repeat split.
  - rewrite copyPages_all. intros Hrest.
    destruct (IH _ Hrest) as (loaded & b' & rest & docs & message & -> & Hl & Hb' & ->).
    exists (b :: loaded), b', rest, (doc :: docs), message.
    repeat split; try done. by constructor.
Qed.

Lemma page_count_after_save_max (doc : Doc) :
  page_count_after_save doc = Z.max 1 (Z.of_nat (length doc)).
Proof. destruct doc; simpl; lia. Qed.

(** X16. When every buffer loads, [mergePDFs] returns the document made of
    the pages of all inputs, in input order: [buffer] is that document
    saved and [size] its length.  [pageCount] is the sum of the inputs'
    page counts, except that it is 1 when the inputs have no page at all
    (the empty list, or documents without pages): saving a document without
    pages adds a blank page to it, and the count is read after the
    document was saved. *)
Theorem mergePDFs_concatenates lib pdfBuffers docs :
  Forall2 (fun b doc => load lib b = inr doc) pdfBuffers docs ->
  mergePDFs (Some lib) pdfBuffers
  = inr {| m_success := true;
           m_buffer := save lib (concat docs);
           m_pageCount := Z.max 1 (Z.of_nat (length (concat docs)));
           m_size := buffer_length (save lib (concat docs)) |}
  /\ Z.of_nat (length (concat docs)) = foldr Z.add 0 (map (fun doc => Z.of_nat (length doc)) docs).
Proof.
  intros Hload. split.
  - unfold mergePDFs. cbn [require_pdf_lib].
    rewrite (merge_loop_loaded lib pdfBuffers docs []) by done. cbn [app]. cbv zeta.
    by rewrite page_count_after_save_max.
  - clear. induction docs as [|doc docs IH]; [done|].
    simpl. rewrite length_app. lia.
Qed.

(** Two documents without pages merge into a document that counts one
    page. *)
Lemma mergePDFs_concatenates_witness :
  mergePDFs (Some byte_pages) [[]; []]
  = inr {| m_success := true;
           m_buffer := [];
           m_pageCount := 1;
           m_size := 0 |}
  /\ 0 = 0 + (0 + 0).
Proof.
  refine (mergePDFs_concatenates byte_pages [[]; []] [[]; []] _).
  repeat constructor.
Defined.

(** X17. [mergePDFs] fails in two ways only, both reported as "PDF merge
    failed: ...": pdf-lib is not installed, or some buffer does not load,
    and then the error is the one of the first such buffer.  Copying the
    pages of a loaded document never fails. *)
Theorem mergePDFs_failure installed pdfBuffers e :
  mergePDFs installed pdfBuffers = inl e ->
  (installed = None /\ e = PdfMergeFailed ModuleNotFound)
  \/ exists lib loaded b rest docs message,
       installed = Some lib
       /\ pdfBuffers = loaded ++ b :: rest
       /\ Forall2 (fun b doc => load lib b = inr doc) loaded docs
       /\ load lib b = inl message
       /\ e = PdfMergeFailed (LoadFailed message).
Proof.
  unfold mergePDFs. destruct installed as [lib|]; simpl.
  - destruct (merge_loop lib pdfBuffers []) as [cause|merged] eqn:Hloop; [|done].
    intros ?; simplify_eq. right.
    destruct (merge_loop_fails _ _ _ _ Hloop)
      as (loaded & b & rest & docs & message & ? & ? & ? & ->).
    by exists lib, loaded, b, rest, docs, message.
  - intros ?; simplify_eq. by left.
Qed.

Lemma mergePDFs_failure_witness :
  (Some strict_pages = None
   /\ PdfMergeFailed (LoadFailed "No PDF header found") = PdfMergeFailed ModuleNotFound)
  \/ exists lib loaded b rest docs message,
       Some strict_pages = Some lib
       /\ [[Byte.x25]; []; [Byte.x50]] = loaded ++ b :: rest
       /\ Forall2 (fun b doc => load lib b = inr doc) loaded docs
       /\ load lib b = inl message
       /\ PdfMergeFailed (LoadFailed "No PDF header found")
          = PdfMergeFailed (LoadFailed message).
Proof.
  exact (mergePDFs_failure (Some strict_pages) [[Byte.x25]; []; [Byte.x50]]
           (PdfMergeFailed (LoadFailed "No PDF header found")) eq_refl).
Defined.

(** ** Splitting *)

Lemma seqZ_to_nat m len : seqZ m len = seqZ m (Z.of_nat (Z.to_nat len)).
Proof. unfold seqZ. by rewrite Nat2Z.id. Qed.

Lemma copyPages_within (doc : Doc) start len :
  0 <= start <= Z.of_nat (length doc) -> start + len <= Z.of_nat (length doc) ->
  copyPages doc (seqZ start len)
  = inr (take (Z.to_nat len) (drop (Z.to_nat start) doc)).
Proof.
  intros [Hstart Hin] Hlen.
  replace (seqZ start len)
    with (seqZ (Z.of_nat (Z.to_nat start)) (Z.of_nat (Z.to_nat len)))
    by (rewrite Z2Nat.id by done; symmetry; apply seqZ_to_nat).
  apply copyPages_run. lia.
Qed.

Lemma split_range_outcome lib doc range :
  split_range lib doc range = inl (InvalidPageRange range)
  \/ exists part, split_range lib doc range = inr part /\ part_of lib doc range part.
Proof.
  unfold split_range. cbv zeta.
  destruct ((fun n => n - 1) <$> (split_on 45 range !! 0%nat ≫= parseInt))
    as [start|]; [|by left].
  destruct ((start <? 0) || (Z.of_nat (length doc) <=? start)) eqn:Hbad; [by left|].
  apply orb_false_iff in Hbad as [Hlo Hhi].
  apply Z.ltb_ge in Hlo. apply Z.leb_gt in Hhi.
  right.
  assert (forall len,
    start + len <= Z.of_nat (length doc) ->
    exists part,
      match copyPages doc (seqZ start len) with
      | inl e => inl e
      | inr copiedPages =>
          inr (RangePart range (Z.of_nat (length (seqZ start len)))
                 (save lib copiedPages) (buffer_length (save lib copiedPages)))
      end = inr part /\ part_of lib doc range part) as Hrun.
  { intros len Hlen. rewrite length_seqZ, copyPages_within by lia.
    eexists. split; [done|]. exists (Z.to_nat start), (Z.to_nat len).
    split; [lia | done]. }
  destruct (match split_on 45 range !! 1%nat with
            | Some (c :: s) => (fun n => n - 1) <$> parseInt (c :: s)
            | _ => Some start
            end) as [e|]; [apply Hrun; lia|].
  eexists. split; [done|]. exists (Z.to_nat start), 0%nat. split; [lia | done].
Qed.

Lemma split_ranges_outcome lib doc ranges :
  (exists range, range ∈ ranges
                 /\ split_ranges lib doc ranges = inl (InvalidPageRange range))
  \/ exists parts, split_ranges lib doc ranges = inr parts
                   /\ Forall2 (part_of lib doc) ranges parts.
Proof.
  induction ranges as [|range rest IH]; [right; by exists []|].
  simpl. destruct (split_range_outcome lib doc range) as [->|(part & -> & Hpart)].
  { left. exists range. split; [by apply elem_of_cons; left | done]. }
  destruct IH as [(bad & Hin & ->)|(parts & -> & Hparts)].
  - left. exists bad. split; [by apply elem_of_cons; right | done].
  - right. exists (part :: parts). split; [done | by constructor].
Qed.

Lemma split_on_single sep s :
  Forall (fun c => c <> sep) s -> split_on sep s = [s].
Proof.
  induction 1 as [|c s Hc _ IH]; [done|].
  simpl. rewrite (proj2 (N.eqb_neq c sep)) by done. by rewrite IH.
Qed.

Lemma split_on_app sep s1 s2 :
  Forall (fun c => c <> sep) s1 ->
  split_on sep (s1 ++ sep :: s2) = s1 :: split_on sep s2.
Proof.
  induction 1 as [|c s Hc _ IH]; simpl.
  - by rewrite N.eqb_refl.
  - rewrite (proj2 (N.eqb_neq c sep)) by done. by rewrite IH.
Qed.

Lemma decimal_no_dash n : Forall (fun c => c <> 45%N) (decimal n).
Proof.
  destruct (decimal_spec n) as (c & ds & -> & Hds & _).
  eapply Forall_impl; [done|]. intros x [Hlo Hhi]. lia.
Qed.

(** How a range written with two numerals is read. *)
Lemma split_range_numerals lib doc (a b : nat) :
  split_range lib doc (decimal a ++ units "-" ++ decimal b)
  = if decide (1 <= a <= length doc)%nat then
      let count := (Nat.min b (length doc) + 1 - a)%nat in
      inr (RangePart (decimal a ++ units "-" ++ decimal b) (Z.of_nat count)
             (save lib (take count (drop (a - 1) doc)))
             (buffer_length (save lib (take count (drop (a - 1) doc)))))
    else inl (InvalidPageRange (decimal a ++ units "-" ++ decimal b)).
Proof.
  unfold split_range. cbv zeta. simpl units. simpl app.
  rewrite split_on_app by apply decimal_no_dash.
  rewrite split_on_single by apply decimal_no_dash.
  simpl lookup. simpl mbind. rewrite parseInt_decimal.
  destruct (decimal_spec b) as (c & ds & Hb & _).
  destruct (decimal b) as [|c' ds'] eqn:Hb'; [done|].
  rewrite <- Hb', parseInt_decimal. simpl fmap.
  destruct (decide (1 <= a <= length doc)%nat) as [Ha|Ha].
  - rewrite (proj2 (orb_false_iff _ _))
      by (split; [apply Z.ltb_ge | apply Z.leb_gt]; lia).
    cbv zeta.
    rewrite length_seqZ, copyPages_within by lia.
    replace (Z.to_nat (Z.min (Z.of_nat b - 1) (Z.of_nat (length doc) - 1)
                       - (Z.of_nat a - 1) + 1))
      with (Nat.min b (length doc) + 1 - a)%nat by lia.
    replace (Z.to_nat (Z.of_nat a - 1)) with (a - 1)%nat by lia. done.
  - rewrite (proj2 (orb_true_iff _ _)); [done|].
    destruct (decide (a = 0%nat)); [left; apply Z.ltb_lt | right; apply Z.leb_le]; lia.
Qed.

Lemma split_ranges_one lib doc range :
  split_ranges lib doc [range]
  = match split_range lib doc range with
    | inl e => inl e
    | inr part => inr [part]
    end.
Proof. simpl. by destruct (split_range lib doc range). Qed.

(** X18. Splitting by ranges never reads outside the document: either some
    range of the list is rejected as "Invalid page range: <range>", or
    there is one part per range, in order, each holding a stretch of
    consecutive pages of the document ([pages] of them, possibly none). *)
Theorem splitPDF_ranges_stay_in_bounds lib pdfBuffer doc options :
  load lib pdfBuffer = inr doc ->
  default false (opt_individualPages options) = false ->
  let pageRanges :=
    default [units "1-" ++ decimal (length doc)] (opt_pageRanges options) in
  (exists range,
     range ∈ pageRanges
     /\ splitPDF (Some lib) pdfBuffer options = inl (PdfSplitFailed (InvalidPageRange range)))
  \/ (exists parts,
        splitPDF (Some lib) pdfBuffer options
        = inr {| s_success := true; s_results := parts;
                 s_totalPages := Z.of_nat (length doc) |}
        /\ Forall2 (part_of lib doc) pageRanges parts).
Proof.
  intros Hload Hind pageRanges. unfold splitPDF. simpl require_pdf_lib. cbv zeta.
  unfold load_document. rewrite Hload, Hind. fold pageRanges.
  destruct (split_ranges_outcome lib doc pageRanges)
    as [(bad & Hin & ->)|(parts & -> & Hparts)].
  - left. by exists bad.
  - right. by exists parts.
Qed.

Lemma splitPDF_ranges_stay_in_bounds_witness :
  splitPDF (Some byte_pages) [Byte.x01; Byte.x02; Byte.x03]
    (ranges_only [units " 2 - 9"; units "3"; units "2-1"; units "1-x"])
  = inr {| s_success := true;
           s_results :=
             [RangePart (units " 2 - 9") 2 [Byte.x02; Byte.x03] 2;
              RangePart (units "3") 1 [Byte.x03] 1;
              RangePart (units "2-1") 0 [] 0;
              RangePart (units "1-x") 0 [] 0];
           s_totalPages := 3 |}.
Proof.
  destruct (splitPDF_ranges_stay_in_bounds byte_pages [Byte.x01; Byte.x02; Byte.x03]
              (map (fun x => [x]) [Byte.x01; Byte.x02; Byte.x03])
              (ranges_only [units " 2 - 9"; units "3"; units "2-1"; units "1-x"])
              eq_refl eq_refl) as [(bad & _ & Hbad)|(parts & Hparts & _)].
  - vm_compute in Hbad. discriminate.
  - vm_compute. reflexivity.
Defined.

(** X19. For a range written ["a-b"] with decimal numerals, [splitPDF]
    rejects the range unless [1 <= a <= totalPages]; otherwise the part
    holds the pages [a] to [min b totalPages] (one-based, inclusive), so an
    end beyond the last page is clamped and an end before the start gives
    a part of no pages. *)
Theorem splitPDF_numeral_range lib pdfBuffer doc (a b : nat) :
  load lib pdfBuffer = inr doc ->
  splitPDF (Some lib) pdfBuffer (ranges_only [decimal a ++ units "-" ++ decimal b])
  = if decide (1 <= a <= length doc)%nat then
      let count := (Nat.min b (length doc) + 1 - a)%nat in
      inr {| s_success := true;
             s_results :=
               [RangePart (decimal a ++ units "-" ++ decimal b) (Z.of_nat count)
                  (save lib (take count (drop (a - 1) doc)))
                  (buffer_length (save lib (take count (drop (a - 1) doc))))];
             s_totalPages := Z.of_nat (length doc) |}
    else inl (PdfSplitFailed (InvalidPageRange (decimal a ++ units "-" ++ decimal b))).
Proof.
  intros Hload. unfold splitPDF. simpl require_pdf_lib. cbv zeta.
  unfold load_document. rewrite Hload.
  cbn [ranges_only opt_pageRanges opt_individualPages default from_option id].
  rewrite split_ranges_one, split_range_numerals. by case_decide.
Qed.

Lemma splitPDF_numeral_range_witness :
  splitPDF (Some byte_pages) [Byte.x01; Byte.x02; Byte.x03; Byte.x04] (ranges_only [units "2-3"])
  = inr {| s_success := true;
           s_results := [RangePart (units "2-3") 2 [Byte.x02; Byte.x03] 2];
           s_totalPages := 4 |}.
Proof.
  exact (splitPDF_numeral_range byte_pages [Byte.x01; Byte.x02; Byte.x03; Byte.x04]
           (map (fun x => [x]) [Byte.x01; Byte.x02; Byte.x03; Byte.x04]) 2 3 eq_refl).
Defined.

(** X20. Without options, [splitPDF] returns the whole document as the
    single part ["1-<totalPages>"]; for a document of no pages the default
    range is ["1-0"], which is rejected as an invalid page range. *)
Theorem splitPDF_default_range lib pdfBuffer doc :
  load lib pdfBuffer = inr doc ->
  splitPDF (Some lib) pdfBuffer no_split_options
  = if decide (doc = []) then inl (PdfSplitFailed (InvalidPageRange (units "1-0")))
    else inr {| s_success := true;
                s_results :=
                  [RangePart (units "1-" ++ decimal (length doc)) (Z.of_nat (length doc))
                     (save lib doc) (buffer_length (save lib doc))];
                s_totalPages := Z.of_nat (length doc) |}.
Proof.
  intros Hload. unfold splitPDF. simpl require_pdf_lib. cbv zeta.
  unfold load_document. rewrite Hload.
  cbn [no_split_options opt_pageRanges opt_individualPages default from_option id].
  change (units "1-" ++ decimal (length doc))
    with (decimal 1 ++ units "-" ++ decimal (length doc)).
  rewrite split_ranges_one, split_range_numerals.
  destruct doc as [|page doc]; [done|].
  rewrite decide_True by (simpl length; lia). rewrite decide_False by done.
  cbv zeta. rewrite Nat.min_id.
  replace (length (page :: doc) + 1 - 1)%nat with (length (page :: doc)) by lia.
  by rewrite drop_0, firstn_all.
Qed.

Lemma splitPDF_default_range_witness :
  splitPDF (Some byte_pages) [] no_split_options
  = inl (PdfSplitFailed (InvalidPageRange (units "1-0"))).
Proof.
  exact (splitPDF_default_range byte_pages [] [] eq_refl).
Defined.

Lemma copyPages_one (doc : Doc) (i : nat) page :
  doc !! i = Some page -> copyPages doc [Z.of_nat i] = inr [page].
Proof.
  intros Hpage. simpl. rewrite (proj2 (Z.leb_le 0 _)) by lia.
  rewrite Nat2Z.id. unfold Doc in *. by rewrite Hpage.
Qed.

Lemma split_pages_spec lib doc (todo : nat) :
  forall i : nat,
    (i + todo = length doc)%nat ->
    split_pages lib doc (Z.of_nat i) todo
    = inr (imap (fun k page =>
                   PagePart (Z.of_nat (i + k) + 1) (save lib [page])
                     (buffer_length (save lib [page])))
             (drop i doc)).
Proof.
  induction todo as [|todo IH]; intros i Hi.
  - rewrite drop_ge by lia. done.
  - destruct (doc !! i) as [page|] eqn:Hpage; [|apply lookup_ge_None in Hpage; lia].
    cbn [split_pages]. rewrite (copyPages_one _ _ _ Hpage). cbv zeta.
    replace (Z.of_nat i + 1) with (Z.of_nat (S i)) by lia.
    rewrite IH by lia. rewrite (drop_S _ _ _ Hpage). simpl imap.
    f_equal. f_equal; [f_equal; lia|].
    apply imap_ext. intros k x _. simpl. do 2 f_equal. lia.
Qed.

Lemma splitPDF_individual lib pdfBuffer doc options :
  load lib pdfBuffer = inr doc ->
  opt_individualPages options = Some true ->
  splitPDF (Some lib) pdfBuffer options
  = inr {| s_success := true;
           s_results :=
             imap (fun k page =>
                     PagePart (Z.of_nat k + 1) (save lib [page])
                       (buffer_length (save lib [page]))) doc;
           s_totalPages := Z.of_nat (length doc) |}.
Proof.
  intros Hload Hind. unfold splitPDF. simpl require_pdf_lib. cbv zeta.
  unfold load_document. rewrite Hload, Hind. simpl default.
  change 0 with (Z.of_nat 0). rewrite split_pages_spec by done.
  by rewrite drop_0.
Qed.

(** X21. With [individualPages] set, [splitPDF] succeeds on every buffer
    that loads and returns one part per page, in order: part [k] (from 0)
    has page number [k + 1] and holds page [k] alone; [pageRanges] is not
    looked at. *)
Theorem splitPDF_page_by_page lib pdfBuffer doc options :
  load lib pdfBuffer = inr doc ->
  opt_individualPages options = Some true ->
  exists result,
    splitPDF (Some lib) pdfBuffer options = inr result
    /\ s_success result = true
    /\ s_totalPages result = Z.of_nat (length doc)
    /\ length (s_results result) = length doc
    /\ forall (k : nat) page,
         doc !! k = Some page ->
         s_results result !! k
         = Some (PagePart (Z.of_nat k + 1) (save lib [page])
                   (buffer_length (save lib [page]))).
Proof.
  intros Hload Hind. eexists. split; [by apply splitPDF_individual|].
  simpl. repeat split.
  - by rewrite length_imap.
  - intros k page Hpage. rewrite list_lookup_imap. unfold Doc in *. by rewrite Hpage.
Qed.

Lemma splitPDF_page_by_page_witness :
  exists result,
    splitPDF (Some byte_pages) [Byte.x25; Byte.x50] page_by_page = inr result
    /\ s_success result = true
    /\ s_totalPages result = 2
    /\ length (s_results result) = 2%nat
    /\ forall (k : nat) page,
         [[Byte.x25]; [Byte.x50]] !! k = Some page ->
         s_results result !! k
         = Some (PagePart (Z.of_nat k + 1) (save byte_pages [page])
                   (buffer_length (save byte_pages [page]))).
Proof.
  exact (splitPDF_page_by_page byte_pages [Byte.x25; Byte.x50]
           [[Byte.x25]; [Byte.x50]] page_by_page eq_refl eq_refl).
Defined.

Lemma concat_singletons {A} (l : list A) : concat (map (fun x => [x]) l) = l.
Proof. induction l as [|x l IH]; [done|]. simpl. by rewrite IH. Qed.

(** X22. Round trip: when every one-page document saved by the library
    loads back as itself, merging the buffers of a page-by-page split gives
    the original document again, with its page count; for a document
    without pages the split has no part, and the merge of no buffer counts
    one page, the blank page added when the empty document is saved. *)
Theorem mergePDFs_of_split_pages lib pdfBuffer doc options result :
  Forall (fun page => load lib (save lib [page]) = inr [page]) doc ->
  load lib pdfBuffer = inr doc ->
  opt_individualPages options = Some true ->
  splitPDF (Some lib) pdfBuffer options = inr result ->
  mergePDFs (Some lib) (map part_buffer (s_results result))
  = inr {| m_success := true;
           m_buffer := save lib doc;
           m_pageCount := (if decide (doc = []) then 1 else Z.of_nat (length doc));
           m_size := buffer_length (save lib doc) |}.
Proof.
  intros Hround Hload Hind Hsplit.
  rewrite (splitPDF_individual lib pdfBuffer doc) in Hsplit by done.
  injection Hsplit as <-. simpl s_results.
  unfold mergePDFs. cbn [require_pdf_lib]. cbv zeta.
  assert (Hloop : merge_loop lib
                    (map part_buffer
                       (imap (fun (k : nat) page =>
                                PagePart (Z.of_nat k + 1) (save lib [page])
                                  (buffer_length (save lib [page]))) doc)) []
                  = inr doc).
  { rewrite (merge_loop_loaded lib _ (map (fun page => [page]) doc) []).
    - simpl. by rewrite concat_singletons.
    - clear -Hround. rewrite Forall2_fmap.
      apply Forall2_same_length_lookup_2.
      + by rewrite length_imap.
      + intros k part page. rewrite list_lookup_imap.
        unfold Doc in *. intros Hpart Hpage. rewrite Hpage in Hpart. simpl in Hpart.
        injection Hpart as <-. simpl.
        by apply (Forall_lookup_1 _ _ _ _ Hround Hpage). }
  cbv beta iota. rewrite Hloop. by destruct doc.
Qed.

Lemma mergePDFs_of_split_pages_witness :
  mergePDFs (Some byte_pages)
    (map part_buffer
       [PagePart 1 [Byte.x25] 1; PagePart 2 [Byte.x50] 1])
  = inr {| m_success := true;
           m_buffer := [Byte.x25; Byte.x50];
           m_pageCount := 2;
           m_size := 2 |}.
Proof.
  refine (mergePDFs_of_split_pages byte_pages [Byte.x25; Byte.x50]
           [[Byte.x25]; [Byte.x50]] page_by_page
           {| s_success := true;
              s_results := [PagePart 1 [Byte.x25] 1; PagePart 2 [Byte.x50] 1];
              s_totalPages := 2 |} _ eq_refl eq_refl eq_refl).
  repeat constructor.
Defined.

End PdfToolsProofs.

(** * Properties of [getPDFInfo] *)

Module PdfInfoProofs.
Import PdfTools PdfInfo PdfToolsProofs.

Ltac info_unfold :=
  unfold getPDFInfo, info_mkdir, info_now, info_writeFile, exec_show_npages,
    info_stat_size, info_unlink, info_fs_call, swallow, try_catch, bind, ret,
    info_emit, info_stamp.

Ltac info_cases :=
  repeat (case_match; simpl in *; rewrite ?lookup_insert_eq in *; simplify_eq; try done);
  simpl in *; rewrite ?lookup_insert_eq in *; simplify_eq; try done.

Lemma pdf_lib_info_size env pdfBuffer :
  i_fileSize (pdf_lib_info env pdfBuffer) = buffer_length pdfBuffer.
Proof.
  unfold pdf_lib_info, require_pdf_lib, load_document.
  by repeat case_match.
Qed.

(** X23. [getPDFInfo] rejects only when creating the temp directory
    fails, and then nothing else was done.  In every other case it returns
    a result, and the [fileSize] of the result is the length of the buffer
    given. *)
Theorem getPDFInfo_settles env pdfBuffer w :
  match (getPDFInfo env pdfBuffer w).1 with
  | Ok r => i_fileSize r = buffer_length pdfBuffer
  | Throw e =>
      exists f,
        info_fs_fault env (info_log w) InfoMkdir = Some f
        /\ e = InfoFsError (CompressPdf.Failure f)
        /\ (getPDFInfo env pdfBuffer w).2 = info_emit (InfoFs InfoMkdir) w
  | OutOfFuel => False
  end.
Proof.
  info_unfold. simpl.
  destruct (info_fs_fault env (info_log w) InfoMkdir) as [f|] eqn:Hmkdir; simpl.
  { by exists f. }
  set (t := info_date_now env (InfoFs InfoMkdir :: info_log w)).
  info_cases; try apply pdf_lib_info_size.
Qed.

Lemma trimStart_whitespace ws s : is_whitespace ws -> trimStart (ws ++ s) = trimStart s.
Proof.
  induction 1 as [|c ws Hc _ IH]; [done|].
  simpl. by rewrite bool_decide_true.
Qed.

Lemma trimStart_digits s rest :
  Forall is_decimal_digit s -> s <> [] -> trimStart (s ++ rest) = s ++ rest.
Proof.
  intros Hs Hne. destruct Hs as [|c s Hc _]; [done|].
  simpl. by rewrite bool_decide_false by by apply digit_not_whitespace.
Qed.

Lemma trim_numeral before body after :
  is_whitespace before -> is_whitespace after ->
  Forall is_decimal_digit body -> body <> [] ->
  trim (before ++ body ++ after) = body.
Proof.
  intros Hbefore Hafter Hbody Hne. unfold trim.
  rewrite trimStart_whitespace, trimStart_digits by done.
  rewrite rev_app_distr, trimStart_whitespace.
  - rewrite <- (app_nil_r (rev body)), trimStart_digits.
    + by rewrite app_nil_r, rev_involutive.
    + by apply Forall_rev.
    + intros Hnil. apply Hne. by rewrite <- (rev_involutive body), Hnil.
  - by apply Forall_rev.
Qed.

Lemma parseInt_trim_decimal before after (n : nat) :
  is_whitespace before -> is_whitespace after ->
  parseInt (trim (before ++ decimal n ++ after)) = Some (Z.of_nat n).
Proof.
  intros Hbefore Hafter.
  destruct (decimal_spec n) as (c & ds & Heq & Hds & _).
  rewrite trim_numeral, parseInt_decimal; try done.
  - by rewrite Heq.
  - by rewrite Heq.
Qed.

(** X24. When the file system works and qpdf, run on a file that holds the
    buffer, prints the decimal numeral of [n] with white space around it,
    [getPDFInfo] returns as page count the double nearest to [n] (which is
    [n] itself up to 2^53) and [isValid] exactly when [n > 0]; a printed 0
    is reported as page count 1 (and not valid).  The temp file is gone
    afterwards. *)
Theorem getPDFInfo_reads_page_count env pdfBuffer w (n : nat) before after :
  info_fs_works env ->
  is_whitespace before -> is_whitespace after ->
  (forall l fs t,
     fs !! t = Some pdfBuffer ->
     show_npages env l fs t = inr (before ++ decimal n ++ after)) ->
  exists w',
    getPDFInfo env pdfBuffer w
    = (Ok {| i_pageCount :=
               if decide (n = 0%nat) then Double.one else Double.of_Z (Z.of_nat n);
             i_fileSize := buffer_length pdfBuffer;
             i_isValid := bool_decide (0 < n)%nat;
             i_error := None |}, w')
    /\ info_files w' !! info_stamp env w = None.
Proof.
  intros Hfs Hbefore Hafter Hqpdf. info_unfold.
  unfold info_fs_works in Hfs.
  repeat (progress (rewrite ?Hfs, ?lookup_insert_eq; simpl)).
  rewrite Hqpdf by apply lookup_insert_eq. simpl.
  repeat (progress (rewrite ?Hfs, ?lookup_insert_eq; simpl)).
  rewrite parseInt_trim_decimal by done.
  unfold page_count_or_one, is_positive, to_number.
  rewrite DoubleFacts.of_Z_truthy, DoubleFacts.of_Z_positive.
  replace (bool_decide (0 < Z.of_nat n)) with (bool_decide (0 < n)%nat)
    by (apply bool_decide_ext; lia).
  replace (if bool_decide (Z.of_nat n <> 0) then Double.of_Z (Z.of_nat n) else Double.one)
    with (if decide (n = 0%nat) then Double.one else Double.of_Z (Z.of_nat n))
    by (case_bool_decide; case_decide; (done || lia)).
  eexists. split; [reflexivity|]. simpl. apply lookup_delete_eq.
Qed.

Lemma getPDFInfo_reads_page_count_witness :
  exists w',
    getPDFInfo info_env_qpdf CompressPdf.pdf_stub info_empty_world
    = (Ok {| i_pageCount := Double.of_Z 3;
             i_fileSize := 4;
             i_isValid := true;
             i_error := None |}, w')
    /\ info_files w' !! 1 = None.
Proof.
  refine (getPDFInfo_reads_page_count info_env_qpdf CompressPdf.pdf_stub
            info_empty_world 3 [] [10%N] _ _ _ _).
  - by intros l op.
  - constructor.
  - repeat constructor.
  - intros l fs t Hfile. simpl. by rewrite Hfile.
Defined.

(** X25. In a result of [getPDFInfo]: when [isValid] is false the page
    count is 1 or negative; when it is true the page count is at least 1,
    unless pdf-lib loaded a document of no pages; and an [error] field is
    only present in the fixed answer {pageCount 1, not valid}. *)
Theorem getPDFInfo_validity env pdfBuffer w r w' :
  getPDFInfo env pdfBuffer w = (Ok r, w') ->
  (i_isValid r = false ->
     i_pageCount r = Double.one \/ Double.ltb (i_pageCount r) Double.zero = true)
  /\ (i_isValid r = true ->
        Double.leb Double.one (i_pageCount r) = true
        \/ exists lib, pdf_lib env = Some lib /\ load lib pdfBuffer = inr []
                       /\ i_pageCount r = Double.zero)
  /\ (i_error r <> None -> r = could_not_parse pdfBuffer).
Proof.
  assert (Hlib : let r := pdf_lib_info env pdfBuffer in
                 (i_isValid r = false ->
                    i_pageCount r = Double.one
                    \/ Double.ltb (i_pageCount r) Double.zero = true)
                 /\ (i_isValid r = true ->
                       Double.leb Double.one (i_pageCount r) = true
                       \/ exists lib, pdf_lib env = Some lib /\ load lib pdfBuffer = inr []
                                      /\ i_pageCount r = Double.zero)
                 /\ (i_error r <> None -> r = could_not_parse pdfBuffer)).
  { unfold pdf_lib_info, require_pdf_lib, load_document.
    destruct (pdf_lib env) as [lib|]; simpl; [|by split; [left|]].
    destruct (load lib pdfBuffer) as [message|doc] eqn:Hload; simpl; [by split; [left|]|].
    split; [done|]. split; [|done]. intros _.
    destruct doc as [|page doc]; [right; by exists lib|left].
    apply DoubleFacts.of_Z_at_least_one. simpl length. lia. }
  assert (Hqpdf : forall parsed,
             let pageCount := to_number parsed in
             (is_positive pageCount = false ->
                page_count_or_one pageCount = Double.one
                \/ Double.ltb (page_count_or_one pageCount) Double.zero = true)
             /\ (is_positive pageCount = true ->
                   Double.leb Double.one (page_count_or_one pageCount) = true)).
  { intros [z|]; cbv zeta; [|by split; [left|]].
    unfold is_positive, page_count_or_one, to_number.
    rewrite DoubleFacts.of_Z_truthy, DoubleFacts.of_Z_positive.
    destruct (Z.lt_trichotomy z 0) as [Hz|[->|Hz]].
    - rewrite (bool_decide_eq_true_2 (z <> 0)), (bool_decide_eq_false_2 (0 < z)) by lia.
      split; [|done]. intros _. right. by apply DoubleFacts.of_Z_negative.
    - split; [by left|done].
    - rewrite !bool_decide_eq_true_2 by lia.
      split; [done|]. intros _. by apply DoubleFacts.of_Z_at_least_one. }
  revert Hlib. cbv zeta. info_unfold. simpl. intros Hlib Hrun.
  info_cases;
    try match goal with
        |- context [parseInt ?s] =>
          destruct (Hqpdf (parseInt s)); split; [done|split; [by auto|done]]
        end.
Qed.

(** X26. Once the temp directory is there: when the qpdf command fails, or
    when deleting the temp file fails (even after qpdf has printed a
    count), the answer is the one of pdf-lib: its page count with [isValid] true when it loads the buffer,
    and {pageCount 1, not valid, "Could not parse PDF"} when it cannot or is
    not installed. *)
Theorem getPDFInfo_falls_back env pdfBuffer w :
  info_fs_fault env (info_log w) InfoMkdir = None ->
  (forall l fs t, exists message, show_npages env l fs t = inl message)
  \/ (forall l t, is_Some (info_fs_fault env l (InfoUnlink t))) ->
  exists r,
    (getPDFInfo env pdfBuffer w).1 = Ok r
    /\ (pdf_lib env = None -> r = could_not_parse pdfBuffer)
    /\ (forall lib message,
          pdf_lib env = Some lib -> load lib pdfBuffer = inl message ->
          r = could_not_parse pdfBuffer)
    /\ (forall lib doc,
          pdf_lib env = Some lib -> load lib pdfBuffer = inr doc ->
          r = {| i_pageCount := Double.of_Z (Z.of_nat (length doc));
                 i_fileSize := buffer_length pdfBuffer;
                 i_isValid := true;
                 i_error := None |}).
Proof.
  intros Hmkdir Hfail. exists (pdf_lib_info env pdfBuffer). split.
  - info_unfold. simpl. rewrite Hmkdir. simpl.
    destruct Hfail as [Hqpdf|Hunlink].
    + info_cases;
        match goal with
        | H : show_npages ?e ?l ?fs ?t = inr _ |- _ =>
            destruct (Hqpdf l fs t) as [message Hmessage]; congruence
        end.
    + info_cases;
        match goal with
        | H : info_fs_fault ?e ?l (InfoUnlink ?t) = None |- _ =>
            destruct (Hunlink l t) as [f Hf]; congruence
        end.
  - unfold pdf_lib_info, require_pdf_lib, load_document.
    repeat split.
    + by intros ->.
    + by intros lib message -> ->.
    + by intros lib doc -> ->.
Qed.

Lemma getPDFInfo_falls_back_witness :
  exists r,
    (getPDFInfo (info_env_pdf_lib byte_pages) CompressPdf.pdf_stub info_empty_world).1 = Ok r
    /\ (pdf_lib (info_env_pdf_lib byte_pages) = None -> r = could_not_parse CompressPdf.pdf_stub)
    /\ (forall lib message,
          pdf_lib (info_env_pdf_lib byte_pages) = Some lib ->
          load lib CompressPdf.pdf_stub = inl message ->
          r = could_not_parse CompressPdf.pdf_stub)
    /\ (forall lib doc,
          pdf_lib (info_env_pdf_lib byte_pages) = Some lib ->
          load lib CompressPdf.pdf_stub = inr doc ->
          r = {| i_pageCount := Double.of_Z (Z.of_nat (length doc));
                 i_fileSize := buffer_length CompressPdf.pdf_stub;
                 i_isValid := true;
                 i_error := None |}).
Proof.
  refine (getPDFInfo_falls_back (info_env_pdf_lib byte_pages) CompressPdf.pdf_stub
            info_empty_world eq_refl _).
  left. intros l fs t. by eexists.
Defined.

(** X27. [getPDFInfo] touches no file but its own temp file, and when it
    returns that file is gone unless the file system refused to delete
    it. *)
Theorem getPDFInfo_temp_file env pdfBuffer w r w' :
  getPDFInfo env pdfBuffer w = (Ok r, w') ->
  (forall q, q <> info_stamp env w -> info_files w' !! q = info_files w !! q)
  /\ (info_files w' !! info_stamp env w = None
      \/ exists l, is_Some (info_fs_fault env l (InfoUnlink (info_stamp env w)))).
Proof.
  info_unfold. simpl. intros Hrun.
  info_cases; (split;
    [intros q Hq; simpl;
     rewrite ?lookup_delete_ne, ?lookup_insert_ne by done; done
    |simpl; rewrite ?lookup_delete_eq;
     first [by left
           |right; eexists; by eexists
           |idtac]]).
Qed.

Lemma getPDFInfo_temp_file_witness :
  (forall q, q <> 1 ->
     info_files (getPDFInfo info_env_qpdf CompressPdf.pdf_stub info_empty_world).2 !! q
     = info_files info_empty_world !! q)
  /\ (info_files (getPDFInfo info_env_qpdf CompressPdf.pdf_stub info_empty_world).2 !! 1 = None
      \/ exists l, is_Some (info_fs_fault info_env_qpdf l (InfoUnlink 1))).
Proof.
  exact (getPDFInfo_temp_file info_env_qpdf CompressPdf.pdf_stub info_empty_world
           {| i_pageCount := Double.of_Z 3; i_fileSize := 4; i_isValid := true;
              i_error := None |}
           _ eq_refl).
Defined.

Lemma getPDFInfo_validity_witness :
  let r := {| i_pageCount := Double.of_Z 3; i_fileSize := 4; i_isValid := true;
              i_error := None |} in
  (i_isValid r = false ->
     i_pageCount r = Double.one \/ Double.ltb (i_pageCount r) Double.zero = true)
  /\ (i_isValid r = true ->
        Double.leb Double.one (i_pageCount r) = true
        \/ exists lib, pdf_lib info_env_qpdf = Some lib
                       /\ load lib CompressPdf.pdf_stub = inr []
                       /\ i_pageCount r = Double.zero)
  /\ (i_error r <> None -> r = could_not_parse CompressPdf.pdf_stub).
Proof.
  exact (getPDFInfo_validity info_env_qpdf CompressPdf.pdf_stub info_empty_world
           {| i_pageCount := Double.of_Z 3; i_fileSize := 4; i_isValid := true;
              i_error := None |}
           _ eq_refl).
Defined.

End PdfInfoProofs.
